(** * Holochain documentation server: retrieval, cache, extraction, matching

    A shallow embedding of the compiled server ([index.js]): the page cache
    and fetcher ([HttpServiceLive]), the cheerio-based parser
    ([DocumentationParserLive]) and the documentation service
    ([HolochainDocServiceLive]) with the search tool handler.

    Conventions of the embedding:
    - a JavaScript string is a [string]; every [ascii] is one UTF-16 code
      unit below 256, so [String.length] is the [.length] of the source;
    - [Date.now()] is the [clock] field of the [World], in milliseconds;
      the time passes while a request waits for its answer and while a
      time-out runs, and computations take none;
    - the external libraries are modelled by what the code observes of them:
      cheerio by a small DOM with the selectors the source uses, the HTTP
      client and the browser by the [Response] an environment gives,
      [new RegExp(term, "gi")] on a user-supplied term by a section variable. *)

From Stdlib Require Import ZArith List Bool Ascii String Lia.
From Stdlib Require DecimalString.
From stdpp Require Import gmap strings list sorting.

Set Warnings "-register-all".

Local Open Scope string_scope.
Local Open Scope Z_scope.

(** ** JavaScript string primitives *)

Module JS.

(** Code units that [String.prototype.trim] and the regular expression
    class [\s] treat as white space, among the code units below 256. *)
Definition isWhiteSpace (c : ascii) : bool :=
  let n := nat_of_ascii c in
  ((9 <=? n) && (n <=? 13))%nat || (n =? 32)%nat || (n =? 160)%nat.

Fixpoint trimStart (s : string) : string :=
  match s with
  | String c s' => if isWhiteSpace c then trimStart s' else s
  | EmptyString => EmptyString
  end.

Fixpoint trimEnd (s : string) : string :=
  match s with
  | EmptyString => EmptyString
  | String c s' =>
      match trimEnd s' with
      | EmptyString => if isWhiteSpace c then EmptyString else String c EmptyString
      | r => String c r
      end
  end.

Definition trim (s : string) : string := trimEnd (trimStart s).

(** [s.startsWith(p)] *)
Fixpoint startsWith (p s : string) : bool :=
  match p, s with
  | EmptyString, _ => true
  | String a p', String b s' => Ascii.eqb a b && startsWith p' s'
  | String _ _, EmptyString => false
  end.

(** [s.includes(sub)] *)
Fixpoint includes (sub s : string) : bool :=
  startsWith sub s ||
  match s with
  | String _ s' => includes sub s'
  | EmptyString => false
  end.

(** [s.indexOf(sub)], [-1] when [sub] does not occur. *)
Fixpoint indexOf (sub s : string) : Z :=
  if startsWith sub s then 0
  else match s with
       | String _ s' => let i := indexOf sub s' in if i <? 0 then -1 else i + 1
       | EmptyString => -1
       end.

Fixpoint drop (n : nat) (s : string) : string :=
  match n, s with
  | O, _ => s
  | S n', String _ s' => drop n' s'
  | S _, EmptyString => EmptyString
  end.

Fixpoint take (n : nat) (s : string) : string :=
  match n, s with
  | O, _ => EmptyString
  | S n', String c s' => String c (take n' s')
  | S _, EmptyString => EmptyString
  end.

(** [s.substring(i, j)]: both indices are clamped to [0, s.length] and
    swapped when [i > j]. *)
Definition substring (i j : Z) (s : string) : string :=
  let len := Z.of_nat (String.length s) in
  let i' := Z.min (Z.max 0 i) len in
  let j' := Z.min (Z.max 0 j) len in
  let lo := Z.min i' j' in
  let hi := Z.max i' j' in
  take (Z.to_nat (hi - lo)) (drop (Z.to_nat lo) s).

(** [toLowerCase] on one code unit below 256: A-Z and the Latin-1 capitals
    (U+00C0 to U+00DE, the multiplication sign excepted) move up by 32. *)
Definition lowerChar (c : ascii) : ascii :=
  let n := nat_of_ascii c in
  if ((65 <=? n) && (n <=? 90))%nat
     || ((192 <=? n) && (n <=? 222) && negb (n =? 215))%nat
  then ascii_of_nat (n + 32) else c.

Fixpoint toLowerCase (s : string) : string :=
  match s with
  | EmptyString => EmptyString
  | String c s' => String (lowerChar c) (toLowerCase s')
  end.

(** [s.split(" ")]: the pieces between single spaces; never empty. *)
Fixpoint splitSpace (s : string) : list string :=
  match s with
  | EmptyString => [EmptyString]
  | String c s' =>
      match splitSpace s' with
      | piece :: rest =>
          if Ascii.eqb c " " then EmptyString :: piece :: rest
          else String c piece :: rest
      | [] => [String c EmptyString]
      end
  end.

End JS.

(** ** The page cache ([pageCache], [CACHE_TTL]) *)

Record CachedPage := mkCachedPage { content : string; timestamp : Z }.

Definition CACHE_TTL : Z := 10 * 60 * 1000.

(** The quality test, as [fetchPage] writes it for a cached entry. *)
Definition isGoodCache (c : string) : bool :=
  (100 <? String.length (JS.trim c))%nat
  && negb (JS.includes "404" c)
  && negb (JS.includes "Not Found" c)
  && negb (JS.includes "Error" c).

(** The same test, as [fetchAndCache] writes it for fetched content. *)
Definition shouldCache (c : string) : bool :=
  (100 <? String.length (JS.trim c))%nat
  && negb (JS.includes "404" c)
  && negb (JS.includes "Not Found" c)
  && negb (JS.includes "Error" c).

(** The first lines of [fetchPage]: the cache read. A fresh entry of good
    quality is a hit; a fresh entry of bad quality is deleted; an entry past
    its time to live is left where it is. Both of the latter are misses. *)
Definition cacheRead (now : Z) (url : string) (cache : gmap string CachedPage)
  : option string * gmap string CachedPage :=
  match cache !! url with
  | Some cached =>
      if now - timestamp cached <? CACHE_TTL then
        if isGoodCache (content cached) then (Some (content cached), cache)
        else (None, delete url cache)
      else (None, cache)
  | None => (None, cache)
  end.

(** The sweep of [fetchAndCache]: entries older than the cutoff go. *)
Definition sweep (cutoff : Z) (cache : gmap string CachedPage)
  : gmap string CachedPage :=
  filter (fun kv => ¬ (timestamp kv.2 < cutoff)) cache.

(** [fetchAndCache]: the content is stored when it passes the test (and the
    cache is swept once it holds more than 100 entries); otherwise any entry
    of this URL is deleted. The content is returned either way. *)
Definition fetchAndCache (now : Z) (url : string) (c : string)
  (cache : gmap string CachedPage) : string * gmap string CachedPage :=
  if shouldCache c then
    let cache1 := <[url := mkCachedPage c now]> cache in
    let cache2 :=
      if (100 <? size cache1)%nat then sweep (now - CACHE_TTL) cache1 else cache1 in
    (c, cache2)
  else (c, delete url cache).

(** ** Effects

    The tagged errors of the source, the time-out of [Effect.timeout] and
    the failure of the HTTP client. *)

Inductive Cause :=
| FetchError (message : string)
| ParseError (message : string)
| NotFoundError (message : string)
| TimeoutException
| HttpClientError (reason : string).

Record HdkFunction := mkHdkFunction { fn_name : string; fn_url : string }.

(** The mutable state of the process: [pageCache], [hdkFunctionCache] and
    the clock that [Date.now()] reads. *)
Record World := mkWorld {
  pageCache : gmap string CachedPage;
  hdkFunctionCache : gmap string (list HdkFunction * Z);
  clock : Z
}.

Definition setPageCache (cache : gmap string CachedPage) (w : World) : World :=
  mkWorld cache (hdkFunctionCache w) (clock w).

Definition setHdkFunctionCache (fc : gmap string (list HdkFunction * Z))
  (w : World) : World :=
  mkWorld (pageCache w) fc (clock w).

Definition setClock (t : Z) (w : World) : World :=
  mkWorld (pageCache w) (hdkFunctionCache w) t.

(** How a run of an effect ends: with a value, with a failure, or not at
    all within any time limit ([Pending]); [Effect.timeout] turns the last
    into a [TimeoutException]. *)
Inductive Exit (A : Type) :=
| Success (a : A)
| Failure (e : Cause)
| Pending.
Arguments Success {A} a.
Arguments Failure {A} e.
Arguments Pending {A}.

(** An [Effect] is a description that does nothing until it is run. *)
Definition Effect (A : Type) : Type := World -> Exit A * World.

(** A JavaScript function that returns an effect: what its body does when
    it is called happens before the effect it returns is run. *)
Definition Call (A : Type) : Type := World -> Effect A * World.

Module Eff.

Definition succeed {A} (a : A) : Effect A := fun w => (Success a, w).

Definition fail {A} (e : Cause) : Effect A := fun w => (Failure e, w).

Definition map {A B} (f : A -> B) (m : Effect A) : Effect B :=
  fun w =>
    match m w with
    | (Success a, w1) => (Success (f a), w1)
    | (Failure e, w1) => (Failure e, w1)
    | (Pending, w1) => (Pending, w1)
    end.

(** [Effect.map] with a function that writes to the process state. *)
Definition mapSync {A B} (f : A -> World -> B * World) (m : Effect A) : Effect B :=
  fun w =>
    match m w with
    | (Success a, w1) => let (b, w2) := f a w1 in (Success b, w2)
    | (Failure e, w1) => (Failure e, w1)
    | (Pending, w1) => (Pending, w1)
    end.

Definition flatMap {A B} (k : A -> Effect B) (m : Effect A) : Effect B :=
  fun w =>
    match m w with
    | (Success a, w1) => k a w1
    | (Failure e, w1) => (Failure e, w1)
    | (Pending, w1) => (Pending, w1)
    end.

(** [Effect.tap] with a function that writes to the process state. *)
Definition tapSync {A} (f : A -> World -> World) (m : Effect A) : Effect A :=
  fun w =>
    match m w with
    | (Success a, w1) => (Success a, f a w1)
    | (Failure e, w1) => (Failure e, w1)
    | (Pending, w1) => (Pending, w1)
    end.

Definition mapError {A} (f : Cause -> Cause) (m : Effect A) : Effect A :=
  fun w =>
    match m w with
    | (Success a, w1) => (Success a, w1)
    | (Failure e, w1) => (Failure (f e), w1)
    | (Pending, w1) => (Pending, w1)
    end.

Definition catchAll {A} (h : Cause -> Effect A) (m : Effect A) : Effect A :=
  fun w =>
    match m w with
    | (Success a, w1) => (Success a, w1)
    | (Failure e, w1) => h e w1
    | (Pending, w1) => (Pending, w1)
    end.

(** [Effect.timeout(duration)]: an effect that has not ended when
    [duration] milliseconds are over is interrupted and fails with a
    [TimeoutException], at the time the limit is reached. What the
    interrupted effect would have written is not written: the effects that
    the source puts under a time-out write to the state in their last
    step only. *)
Definition timeout {A} (duration : Z) (m : Effect A) : Effect A :=
  fun w =>
    let interrupted := (Failure TimeoutException, setClock (clock w + duration) w) in
    match m w with
    | (Pending, _) => interrupted
    | (r, w1) => if clock w1 - clock w <? duration then (r, w1) else interrupted
    end.

(** [Effect.all] on a list, with its default of running one effect after
    the other and stopping at the first failure. *)
Fixpoint all {A} (ms : list (Effect A)) : Effect (list A) :=
  match ms with
  | [] => succeed []
  | m :: rest => flatMap (fun a => map (cons a) (all rest)) m
  end.

(** Calling a function and running the effect it returns at once. *)
Definition run {A} (c : Call A) : Effect A :=
  fun w => let (m, w1) := c w in m w1.

(** [Array.map] with a function that returns an effect: every call is made,
    in order, before any of the effects is run. *)
Fixpoint mapCalls {A B} (f : A -> Call B) (l : list A) : World -> list (Effect B) * World :=
  fun w =>
    match l with
    | [] => ([], w)
    | x :: rest =>
        let (m, w1) := f x w in
        let (ms, w2) := mapCalls f rest w1 in
        (m :: ms, w2)
    end.

End Eff.

(** ** The network and the browser *)

(** What a request for a URL gets: for the HTTP client the text of the
    response, for the browser what [page.goto] and [page.content] give. *)
Inductive Response :=
| Body (html : string)
| TransportFailure (reason : string)
| NoReply.

(** A step of the browser that gives no value: it ends, or it throws. *)
Inductive Step :=
| Done
| Throws (reason : string).

(** The environment of a fetch of a URL that starts at a given time: the
    answer to the request and the milliseconds it takes to arrive, and,
    for the browser, whether the page can be opened before the request
    and closed after it. Opening and closing a page and reading its
    content take no time. *)
Record Env := mkEnv {
  respond : string -> Z -> Response;
  latency : string -> Z -> N;
  newPage : string -> Z -> Step;
  close : string -> Z -> Step
}.

(** ** The page fetcher ([HttpServiceLive]) *)

Record HttpService := mkHttpService { fetchPage : string -> Call string }.

Module Http.

(** [config.timeout] of [HolochainConfigLive], in milliseconds. *)
Definition configTimeout : Z := 10000.

(** [httpClient.execute] followed by [response.text]. *)
Definition execute (env : Env) (url : string) : Effect string :=
  fun w =>
    let w1 := setClock (clock w + Z.of_N (latency env url (clock w))) w in
    match respond env url (clock w) with
    | Body html => (Success html, w1)
    | TransportFailure reason => (Failure (HttpClientError reason), w1)
    | NoReply => (Pending, w1)
    end.

(** The closure [fetchAndCache] of [fetchPage], on the process state. *)
Definition fetchAndCacheSync (url : string) (c : string) (w : World) : string * World :=
  let (r, cache) := fetchAndCache (clock w) url c (pageCache w) in
  (r, setPageCache cache w).

(** The error of [page.goto] when its own time-out is over, as a template
    literal prints it. *)
Definition navigationTimeoutError : string :=
  "TimeoutError: Navigation timeout of 10000 ms exceeded".

(** The [try] block of the browser path: [page.goto] with its time-out,
    [page.content], and [fetchAndCache] on the content. The result is the
    content or the text of what was thrown. *)
Definition loadPage (env : Env) (url : string) (w : World) : (string + string) * World :=
  let limit := Z.min configTimeout 15000 in
  let d := Z.of_N (latency env url (clock w)) in
  if d <? limit then
    match respond env url (clock w) with
    | Body html =>
        let (c, w1) := fetchAndCacheSync url html (setClock (clock w + d) w) in
        (inr c, w1)
    | TransportFailure reason => (inl reason, setClock (clock w + d) w)
    | NoReply => (inl navigationTimeoutError, setClock (clock w + limit) w)
    end
  else (inl navigationTimeoutError, setClock (clock w + limit) w).

(** The [catch] of [Effect.tryPromise] on the browser path. *)
Definition puppeteerFailed (url reason : string) : Cause :=
  FetchError ("Puppeteer fetch failed for " +:+ url +:+ ": " +:+ reason).

(** The [Effect.tryPromise] of the browser path: a page is opened, loaded
    and, whatever the loading gave, closed. An exception of
    [browser.newPage] ends the promise before anything is loaded; an
    exception of [page.close] in the [finally] block takes the place of
    the result of the [try] block, be it the content or an exception. *)
Definition navigate (env : Env) (url : string) : Effect string :=
  fun w =>
    match newPage env url (clock w) with
    | Throws reason => (Failure (puppeteerFailed url reason), w)
    | Done =>
        let (outcome, w1) := loadPage env url w in
        match close env url (clock w) with
        | Throws reason => (Failure (puppeteerFailed url reason), w1)
        | Done =>
            match outcome with
            | inr c => (Success c, w1)
            | inl reason => (Failure (puppeteerFailed url reason), w1)
            end
        end
    end.

(** The static path of [fetchPage]. *)
Definition staticFetch (env : Env) (url : string) : Effect string :=
  Eff.mapError (fun _ => FetchError ("Timeout fetching: " +:+ url))
    (Eff.timeout (Z.min configTimeout 10000)
       (Eff.mapError (fun _ => FetchError ("Failed to fetch: " +:+ url))
          (Eff.mapSync (fetchAndCacheSync url) (execute env url)))).

(** The browser path of [fetchPage]. *)
Definition renderedFetch (env : Env) (url : string) : Effect string :=
  Eff.mapError (fun _ => FetchError ("Timeout fetching with puppeteer: " +:+ url))
    (Eff.timeout 18000 (navigate env url)).

(** [fetchPage]: the cache is read when the function is called; on a miss
    the effect returned fetches the page, by the browser for the developer
    site and by the HTTP client otherwise. *)
Definition fetchPage (env : Env) (url : string) : Call string :=
  fun w =>
    let (cached, cache) := cacheRead (clock w) url (pageCache w) in
    match cached with
    | Some c => (Eff.succeed c, w)
    | None =>
        if JS.includes "developer.holochain.org" url
        then (renderedFetch env url, setPageCache cache w)
        else (staticFetch env url, setPageCache cache w)
    end.

Definition HttpServiceLive (env : Env) : HttpService :=
  mkHttpService (fetchPage env).

End Http.

(** ** The document model behind cheerio

    [cheerio.load] parses a page into a tree of text nodes and elements.
    The functions below are the queries the source makes on that tree. *)

Module Dom.

Inductive Node :=
| Text (data : string)
| Element (tag : string) (attribs : list (string * string)) (children : list Node).

(** The top-level nodes of a parsed page. *)
Definition Document : Type := list Node.

(** The tag and attributes of an element, as selectors see them. *)
Definition ElemInfo : Type := string * list (string * string).

(** The selectors the source uses. *)
Inductive Simple :=
| Tag (t : string)                (* div *)
| Class (c : string)              (* .content *)
| AttrEq (a v : string)           (* [role='main'] *)
| AttrContains (a v : string)     (* [href*='fn.'] *)
| AttrEnds (a v : string).        (* [href$='/'] *)

(** A compound selector such as [div[class*='content']] or [h1.fqn]. *)
Definition Compound : Type := list Simple.

Inductive Complex :=
| One (c : Compound)
| Desc (anc : Complex) (c : Compound)      (* anc c *)
| Child (parent : Complex) (c : Compound). (* parent > c *)

(** A comma-separated selector list. *)
Definition Selector : Type := list Complex.

(** [$(el).attr(name)] *)
Fixpoint attr (name : string) (attribs : list (string * string)) : option string :=
  match attribs with
  | [] => None
  | (k, v) :: rest => if String.eqb k name then Some v else attr name rest
  end.

(** The class names of a [class] attribute. The selector engine tests a
    class [c] with the regular expression [(?:^|\s)c(?:$|\s)], so the
    names are the pieces between the characters of the class [\s]. *)
Fixpoint classNames (s : string) : list string :=
  match s with
  | EmptyString => [EmptyString]
  | String c s' =>
      match classNames s' with
      | piece :: rest =>
          if JS.isWhiteSpace c then EmptyString :: piece :: rest
          else String c piece :: rest
      | [] => [String c EmptyString]
      end
  end.

Fixpoint endsWith (suffix s : string) : bool :=
  String.eqb suffix s ||
  match s with
  | String _ s' => endsWith suffix s'
  | EmptyString => false
  end.

Definition matchSimple (s : Simple) (e : ElemInfo) : bool :=
  match s with
  | Tag t => String.eqb t e.1
  | Class c =>
      match attr "class" e.2 with
      | Some v => existsb (String.eqb c) (classNames v)
      | None => false
      end
  | AttrEq a v =>
      match attr a e.2 with Some x => String.eqb x v | None => false end
  | AttrContains a v =>
      match attr a e.2 with Some x => JS.includes v x | None => false end
  | AttrEnds a v =>
      match attr a e.2 with Some x => endsWith v x | None => false end
  end.

Definition matchCompound (c : Compound) (e : ElemInfo) : bool :=
  forallb (fun s => matchSimple s e) c.

(** [ancs] are the ancestors of the element, the parent first. *)
Fixpoint matchComplex (sel : Complex) (ancs : list ElemInfo) (e : ElemInfo) : bool :=
  match sel with
  | One c => matchCompound c e
  | Child p c =>
      matchCompound c e &&
      match ancs with
      | a :: rest => matchComplex p rest a
      | [] => false
      end
  | Desc p c =>
      matchCompound c e &&
      (fix anyAncestor (l : list ElemInfo) : bool :=
         match l with
         | a :: rest => matchComplex p rest a || anyAncestor rest
         | [] => false
         end) ancs
  end.

Definition matches (sel : Selector) (ancs : list ElemInfo) (e : ElemInfo) : bool :=
  existsb (fun c => matchComplex c ancs e) sel.

Fixpoint selectNode (sel : Selector) (ancs : list ElemInfo) (n : Node) : list Node :=
  match n with
  | Text _ => []
  | Element t a cs =>
      (if matches sel ancs (t, a) then [n] else [])
      ++ flat_map (selectNode sel ((t, a) :: ancs)) cs
  end.

(** [$(selector)]: the matching elements, in document order. *)
Definition select (sel : Selector) (doc : Document) : list Node :=
  flat_map (selectNode sel []) doc.

Fixpoint concatStrings (l : list string) : string :=
  match l with
  | [] => EmptyString
  | s :: rest => s +:+ concatStrings rest
  end.

(** The text of a node: the text nodes below it, in order. *)
Fixpoint textOf (n : Node) : string :=
  match n with
  | Text d => d
  | Element _ _ cs => concatStrings (List.map textOf cs)
  end.

(** [.text()] of a selection: the texts of its elements, one after the
    other. *)
Definition text (ns : list Node) : string :=
  concatStrings (List.map textOf ns).

(** [.first()] *)
Definition first (ns : list Node) : list Node :=
  match ns with
  | [] => []
  | n :: _ => [n]
  end.

(** [$(el).attr("href")] on a node. *)
Definition attrOf (name : string) (n : Node) : option string :=
  match n with
  | Text _ => None
  | Element _ a _ => attr name a
  end.

Definition matchesAny (cs : list Compound) (e : ElemInfo) : bool :=
  existsb (fun c => matchCompound c e) cs.

(** A node without the elements of [noise] below it; the node itself goes
    when it is one of them. *)
Fixpoint prune (noise : list Compound) (n : Node) : list Node :=
  match n with
  | Text _ => [n]
  | Element t a cs =>
      if matchesAny noise (t, a) then []
      else [Element t a (flat_map (prune noise) cs)]
  end.

(** [el.find(noise).remove()] seen from [el]: its descendants in [noise]
    are gone, [el] itself stays. *)
Definition cleanNode (noise : list Compound) (n : Node) : Node :=
  match n with
  | Text _ => n
  | Element t a cs => Element t a (flat_map (prune noise) cs)
  end.

Fixpoint removeInNode (sel : Selector) (noise : list Compound)
  (ancs : list ElemInfo) (n : Node) : Node :=
  match n with
  | Text _ => n
  | Element t a cs =>
      if matches sel ancs (t, a) then cleanNode noise n
      else Element t a (List.map (removeInNode sel noise ((t, a) :: ancs)) cs)
  end.

(** [$(sel).find(noise).remove()] seen from the document. *)
Definition removeIn (sel : Selector) (noise : list Compound) (doc : Document)
  : Document :=
  List.map (removeInNode sel noise []) doc.

End Dom.

(** ** The regular expressions written in the source

    Each literal regular expression of the parser is modelled by the
    function on strings it computes. A matcher gives the length of the
    match that starts at the head of a string, if there is one. *)

Module Re.

(** Matching of a pattern text under the flag [i]. *)
Fixpoint startsWithCI (p s : string) : bool :=
  match p, s with
  | EmptyString, _ => true
  | String a p', String b s' =>
      Ascii.eqb (JS.lowerChar a) (JS.lowerChar b) && startsWithCI p' s'
  | String _ _, EmptyString => false
  end.

(** The characters that [.] does not match. *)
Definition isLineTerminator (c : ascii) : bool :=
  let n := nat_of_ascii c in ((n =? 10) || (n =? 13))%nat.

Definition isDigit (c : ascii) : bool :=
  let n := nat_of_ascii c in ((48 <=? n) && (n <=? 57))%nat.

(** [s.replace(re, "")] for a global [re] that never matches the empty
    string: matches are taken from left to right and do not overlap.
    [skip] counts the characters of a match still to be dropped. *)
Fixpoint removeAllFrom (m : string -> option nat) (skip : nat) (s : string) : string :=
  match s with
  | EmptyString => EmptyString
  | String c s' =>
      match skip with
      | S k => removeAllFrom m k s'
      | O =>
          match m s with
          | Some (S k) => removeAllFrom m k s'
          | _ => String c (removeAllFrom m 0 s')
          end
      end
  end.

Definition removeAll (m : string -> option nat) (s : string) : string :=
  removeAllFrom m 0 s.

(** [.*?suffix]: the shortest run without line terminator that is followed
    by [suffix]; the result is the length of the run. *)
Fixpoint lazyRun (suffix s : string) : option nat :=
  if startsWithCI suffix s then Some O
  else match s with
       | String c s' =>
           if isLineTerminator c then None else option_map S (lazyRun suffix s')
       | EmptyString => None
       end.

(** [/prefix.*?suffix/gi] at the head of [s]. *)
Definition lazyMatch (prefix suffix s : string) : option nat :=
  if startsWithCI prefix s then
    match lazyRun suffix (JS.drop (String.length prefix) s) with
    | Some k => Some (String.length prefix + k + String.length suffix)%nat
    | None => None
    end
  else None.

(** The length of the run of digits at the head of [s]. *)
Fixpoint digits (s : string) : nat :=
  match s with
  | String c s' => if isDigit c then S (digits s') else O
  | EmptyString => O
  end.

(** [/Edge_Logo_\d+x\d+/gi] at the head of [s]. *)
Definition edgeLogoMatch (s : string) : option nat :=
  if startsWithCI "Edge_Logo_" s then
    let r := JS.drop 10 s in
    let d1 := digits r in
    match d1, JS.drop d1 r with
    | S _, String x r' =>
        if Ascii.eqb (JS.lowerChar x) "x" then
          match digits r' with
          | S d2 => Some (10 + d1 + 1 + S d2)%nat
          | O => None
          end
        else None
    | _, _ => None
    end
  else None.

(** [/a|b|c/gi] at the head of [s]: the first alternative that matches. *)
Fixpoint altMatch (alts : list string) (s : string) : option nat :=
  match alts with
  | [] => None
  | a :: rest => if startsWithCI a s then Some (String.length a) else altMatch rest s
  end.

(** [s.replace(/\s+/g, " ")] *)
Fixpoint collapseFrom (inSpace : bool) (s : string) : string :=
  match s with
  | EmptyString => EmptyString
  | String c s' =>
      if JS.isWhiteSpace c then
        if inSpace then collapseFrom true s' else String " " (collapseFrom true s')
      else String c (collapseFrom false s')
  end.

Definition collapseWhitespace (s : string) : string := collapseFrom false s.

(** [.replace(/Circle with shading containing.*?statistic/gi, "")] *)
Definition removeCircle (s : string) : string :=
  removeAll (lazyMatch "Circle with shading containing" "statistic") s.

(** [.replace(/YouTube play video icon.*?logo/gi, "")] *)
Definition removeYouTube (s : string) : string :=
  removeAll (lazyMatch "YouTube play video icon" "logo") s.

(** [.replace(/Edge_Logo_\d+x\d+/gi, "")] *)
Definition removeEdgeLogo (s : string) : string := removeAll edgeLogoMatch s.

(** [.replace(/Navigation|Menu|Header|Footer/gi, "")] *)
Definition removeLabels (s : string) : string :=
  removeAll (altMatch ["Navigation"; "Menu"; "Header"; "Footer"]) s.

(** [.replace(/Get Started|Developers|...|Table of contents/gi, "")] *)
Definition removeNavigationText (s : string) : string :=
  removeAll (altMatch ["Get Started"; "Developers"; "Navigation"; "Menu";
                       "Search"; "Home"; "Back to top"; "Skip to";
                       "Table of contents"]) s.

(** [.replace(/^\s*(Navigation|Menu|Header|Footer)\s*/gi, "")] *)
Definition removeLeadingLabel (s : string) : string :=
  let r := JS.trimStart s in
  match altMatch ["Navigation"; "Menu"; "Header"; "Footer"] r with
  | Some k => JS.trimStart (JS.drop k r)
  | None => s
  end.

(** One optional keyword followed by white space, at the head of [s]. *)
Definition stripKeyword (kw s : string) : string :=
  if JS.startsWith kw s then
    match JS.drop (String.length kw) s with
    | String c r => if JS.isWhiteSpace c then JS.trimStart r else s
    | EmptyString => s
    end
  else s.

(** [.replace(/^(pub\s+)?(fn\s+)?/, "")] *)
Definition stripPubFn (s : string) : string :=
  stripKeyword "fn" (stripKeyword "pub" s).

(** The longest run of characters of a class at the head of [s]. *)
Fixpoint runOf (ok : ascii -> bool) (s : string) : string :=
  match s with
  | String c s' => if ok c then String c (runOf ok s') else EmptyString
  | EmptyString => EmptyString
  end.

(** [/fn\.([^.\/]+)\.html/] tried at the head of [s]; the result is the
    captured group. [ok] is the character class of the group. *)
Definition fnMatchAt (ok : ascii -> bool) (s : string) : option string :=
  if JS.startsWith "fn." s then
    let r := JS.drop 3 s in
    let g := runOf ok r in
    match g with
    | EmptyString => None
    | _ => if JS.startsWith ".html" (JS.drop (String.length g) r) then Some g else None
    end
  else None.

(** [href.match(/fn\.([^.\/]+)\.html/)]: the leftmost match. *)
Fixpoint fnMatch (ok : ascii -> bool) (s : string) : option string :=
  match fnMatchAt ok s with
  | Some g => Some g
  | None =>
      match s with
      | String _ s' => fnMatch ok s'
      | EmptyString => None
      end
  end.

(** [[^.\/]] *)
Definition notDotSlash (c : ascii) : bool :=
  negb (Ascii.eqb c "." || Ascii.eqb c "/").

(** [[^.]] *)
Definition notDot (c : ascii) : bool := negb (Ascii.eqb c ".").

End Re.

(** ** The parser ([DocumentationParserLive]) *)

Record SearchResult := mkSearchResult {
  sr_title : string;
  sr_url : string;
  sr_snippet : string;
  sr_source : string
}.

Record DocumentationResult := mkDocumentationResult {
  doc_title : string;
  doc_content : string;
  doc_url : string;
  doc_source : string
}.

(** The parser as the documentation service sees it. Every method is an
    [Effect.try]: it ends at once, with a value or with a [ParseError]. *)
Record DocumentationParser := mkDocumentationParser {
  parseSearchResults : string -> string -> list string -> Cause + option SearchResult;
  parseDocumentationPage : string -> string -> Cause + DocumentationResult;
  parseHdkIndex : string -> string -> Cause + list HdkFunction
}.

Module Parser.

Import Dom.

(** [a || b] on strings: the empty string is the falsy one. *)
Definition orElse (a b : string) : string :=
  match a with
  | EmptyString => b
  | _ => a
  end.

Definition nonEmpty (s : string) : bool :=
  match s with
  | EmptyString => false
  | _ => true
  end.

Definition tag (t : string) : Selector := [One [Tag t]].
Definition class (c : string) : Selector := [One [Class c]].

(** The source tag of a page that is not on the developer site. *)
Definition rustSource (url : string) : string :=
  if JS.includes "/hdk/" url then "docs.rs/hdk" else "docs.rs/hdi".

Definition mainContentSelectors : list Selector :=
  [ class "main-area"; tag "article"; class "content"; class "main-content";
    tag "main"; [One [AttrEq "role" "main"]];
    [One [Tag "div"; AttrContains "class" "content"]];
    [One [Tag "div"; AttrContains "class" "main"]];
    [Child (One [Tag "body"]) [Tag "div"]] ].

(** [text.substring(max(0, index - 100), min(text.length, index + 200)).trim()] *)
Definition window (text : string) (index : Z) : string :=
  JS.trim (JS.substring (Z.max 0 (index - 100))
             (Z.min (Z.of_nat (String.length text)) (index + 200)) text).

(** The clean-up of the snippet cut from the body text. *)
Definition cleanSnippet (s : string) : string :=
  JS.trim (Re.collapseWhitespace (Re.removeEdgeLogo (Re.removeYouTube (Re.removeCircle s)))).

(** The clean-up of a snippet cut from a main content area. *)
Definition cleanCandidate (s : string) : string :=
  JS.trim (Re.collapseWhitespace
             (Re.removeLabels (Re.removeEdgeLogo (Re.removeYouTube (Re.removeCircle s))))).

(** The loop over [mainContentSelectors]: the first area that gives a
    longer snippet replaces the one at hand. *)
Fixpoint improveSnippet (doc : Document) (firstTerm : string)
  (selectors : list Selector) (snippet : string) : string :=
  match selectors with
  | [] => snippet
  | sel :: rest =>
      let mainContent := JS.trim (text (select sel doc)) in
      if nonEmpty mainContent
         && (String.length snippet <? String.length mainContent)%nat then
        let mainIndex := JS.indexOf firstTerm (JS.toLowerCase mainContent) in
        if 0 <=? mainIndex then
          let clean := cleanCandidate (window mainContent mainIndex) in
          if (String.length snippet <? String.length clean)%nat then clean
          else improveSnippet doc firstTerm rest snippet
        else improveSnippet doc firstTerm rest snippet
      else improveSnippet doc firstTerm rest snippet
  end.

(** The snippet around the first occurrence of [firstTerm] in the body. *)
Definition snippetOf (doc : Document) (firstTerm : string) : string :=
  let bodyText := text (select (tag "body") doc) in
  let index := JS.indexOf firstTerm (JS.toLowerCase bodyText) in
  let snippet := cleanSnippet (window bodyText index) in
  if (String.length snippet <? 50)%nat || JS.includes "Circle with shading" snippet
  then improveSnippet doc firstTerm mainContentSelectors snippet
  else snippet.

Section WithLibraries.

(** [cheerio.load] *)
Variable load : string -> Document.

(** [new RegExp(term, "gi")] for a term the user gave: the text of the
    [SyntaxError] when the term is not a regular expression, and otherwise
    the number of matches that [content.match] finds. *)
Variable RegExp_gi : string -> string + (string -> nat).

(** The [reduce] that sums the match counts; it stops at the first term
    whose regular expression cannot be built. *)
Fixpoint relevanceScore (terms : list string) (content : string) (score : nat)
  : string + nat :=
  match terms with
  | [] => inr score
  | term :: rest =>
      match RegExp_gi term with
      | inl err => inl err
      | inr count => relevanceScore rest content (score + count content)
      end
  end.

Definition parseSearchResults (html url : string) (searchTerms : list string)
  : Cause + option SearchResult :=
  let doc := load html in
  let title :=
    orElse (text (select (tag "title") doc))
      (orElse (text (first (select (tag "h1") doc))) url) in
  let content := JS.toLowerCase (text (select (tag "body") doc)) in
  match relevanceScore searchTerms content 0 with
  | inl err => inl (ParseError ("Failed to parse search results: " +:+ err))
  | inr O => inr None
  | inr (S _) =>
      match List.find (fun term => JS.includes term content) searchTerms with
      | None => inr None
      | Some EmptyString => inr None
      | Some firstTerm =>
          let source :=
            if JS.includes "developer.holochain.org" url
            then "developer.holochain.org" else rustSource url in
          inr (Some (mkSearchResult (JS.trim title) url (snippetOf doc firstTerm) source))
      end
  end.

(** *** [parseDocumentationPage]: the developer site *)

Definition contentSelectors : list Selector :=
  [ class "main-area"; tag "article"; class "content"; class "main-content";
    tag "main"; [One [AttrEq "role" "main"]];
    [Desc (One [Class "container"]) [Class "content"]];
    class "page-content"; class "documentation"; class "docs-content";
    [One [Tag "div"; AttrContains "class" "content"]];
    [One [Tag "div"; AttrContains "class" "main"]];
    [One [Tag "div"; AttrContains "id" "content"]];
    [One [Tag "div"; AttrContains "id" "main"]];
    [Child (One [Tag "body"]) [Tag "div"]] ].

(** [nav, header, footer, script, style, .nav, .header, .footer, .menu, .sidebar] *)
Definition bodyNoise : list Compound :=
  [ [Tag "nav"]; [Tag "header"]; [Tag "footer"]; [Tag "script"]; [Tag "style"];
    [Class "nav"]; [Class "header"]; [Class "footer"]; [Class "menu"];
    [Class "sidebar"] ].

(** The same list with [.navigation] at its end. *)
Definition candidateNoise : list Compound := (bodyNoise ++ [[Class "navigation"]])%list.

Definition hasRelevantContent (candidate : string) : bool :=
  let c := JS.toLowerCase candidate in
  JS.includes "holochain" c || JS.includes "validation" c || JS.includes "dht" c
  || JS.includes "entry" c || JS.includes "link" c.

(** [elements.each]: a candidate replaces the content when its score
    exceeds the length of the content by more than 100. *)
Fixpoint bestCandidate (elements : list Node) (content : string) : string :=
  match elements with
  | [] => content
  | el :: rest =>
      let candidateContent := JS.trim (textOf (cleanNode candidateNoise el)) in
      let contentScore :=
        (String.length candidateContent
         + (if hasRelevantContent candidateContent then 500 else 0))%nat in
      bestCandidate rest
        (if (String.length content + 100 <? contentScore)%nat
         then candidateContent else content)
  end.

Fixpoint gatherDeveloper (doc : Document) (selectors : list Selector)
  (content : string) : string :=
  match selectors with
  | [] => content
  | sel :: rest =>
      match select sel doc with
      | [] => gatherDeveloper doc rest content
      | elements =>
          let content' := bestCandidate elements content in
          if (100 <? String.length content')%nat then content'
          else gatherDeveloper doc rest content'
      end
  end.

Definition developerPage (doc : Document) : string * string * string :=
  let content := gatherDeveloper doc contentSelectors "" in
  let content :=
    if (String.length content <? 100)%nat
    then JS.trim (text (List.map (cleanNode bodyNoise) (select (tag "body") doc)))
    else content in
  let title :=
    orElse (JS.trim (text (select (tag "title") doc)))
      (orElse (JS.trim (text (first (select (tag "h1") doc)))) "") in
  let content :=
    JS.trim (Re.removeLeadingLabel (Re.removeEdgeLogo (Re.removeYouTube
      (Re.removeCircle (Re.removeNavigationText (Re.collapseWhitespace content)))))) in
  (JS.trim title, orElse content "Error: Could not extract main content.",
   "developer.holochain.org").

(** *** [parseDocumentationPage]: docs.rs *)

Definition rustSelectors : list Selector :=
  [ class "item-info"; class "item-decl"; class "content"; tag "main";
    class "main-content" ].

(** [nav, .nav, .sidebar] *)
Definition rustNoise : list Compound := [ [Tag "nav"]; [Class "nav"]; [Class "sidebar"] ].

Fixpoint joinWith (sep : string) (l : list string) : string :=
  match l with
  | [] => EmptyString
  | [s] => s
  | s :: rest => s +:+ sep +:+ joinWith sep rest
  end.

(** The line feed. *)
Definition LF : string := String (ascii_of_nat 10) EmptyString.

(** The loop over [rustSelectors]. The removal of the navigation elements
    changes the document for every later query. *)
Fixpoint gatherRust (selectors : list Selector) (doc : Document) (content : string)
  : string * Document :=
  match selectors with
  | [] => (content, doc)
  | sel :: rest =>
      match select sel doc with
      | [] => gatherRust rest doc content
      | element =>
          let doc' := removeIn sel rustNoise doc in
          let content' := JS.trim (text (List.map (cleanNode rustNoise) element)) in
          if (20 <? String.length content')%nat then (content', doc')
          else gatherRust rest doc' content'
      end
  end.

(** The signature line put before the content. *)
Definition withSignature (fqnContent content : string) : string :=
  match fqnContent with
  | EmptyString => content
  | _ =>
      if (String.length content <? 50)%nat then
        "Function signature: " +:+ fqnContent +:+ LF +:+ LF
        +:+ orElse content "No additional documentation available."
      else if negb (JS.includes "externresult" (JS.toLowerCase content))
              && negb (JS.includes fqnContent content)
      then "Function signature: " +:+ fqnContent +:+ LF +:+ LF +:+ content
      else content
  end.

Definition rustPage (doc : Document) (url : string) : string * string * string :=
  let title :=
    orElse (text (select (class "fqn") doc))
      (orElse (text (select [One [Tag "h1"; Class "fqn"]] doc))
         (orElse (text (first (select (tag "h1") doc)))
            (orElse (text (select (tag "title") doc)) ""))) in
  let content :=
    match select (class "docblock") doc with
    | [] => EmptyString
    | docblocks =>
        joinWith (LF +:+ LF)
          (List.filter nonEmpty (List.map (fun el => JS.trim (textOf el)) docblocks))
    end in
  let (content, doc) :=
    match content with
    | EmptyString => gatherRust rustSelectors doc ""
    | _ => (content, doc)
    end in
  let fqnContent := JS.trim (text (select (class "fqn") doc)) in
  let content := withSignature fqnContent content in
  let content :=
    if (String.length content <? 50)%nat then
      let bodyContent := JS.trim (text (select (tag "body") doc)) in
      if nonEmpty bodyContent && (String.length content <? String.length bodyContent)%nat
      then bodyContent else content
    else content in
  let title := JS.trim (Re.stripPubFn title) in
  let content := JS.trim (Re.collapseWhitespace content) in
  (orElse title "Documentation", orElse content "No documentation content found.",
   rustSource url).

(** *** [parseDocumentationPage]: any other page *)

Definition unknownPage (doc : Document) : string * string * string :=
  (orElse (text (select (tag "title") doc)) "Unknown",
   orElse (JS.trim (Re.collapseWhitespace (text (select (tag "body") doc))))
     "No content found.",
   "unknown").

Definition parseDocumentationPage (html url : string) : Cause + DocumentationResult :=
  let doc := load html in
  let '(title, content, source) :=
    if JS.includes "developer.holochain.org" url then developerPage doc
    else if JS.includes "docs.rs" url then rustPage doc url
    else unknownPage doc in
  inr (mkDocumentationResult (JS.trim title) (JS.trim content) url source).

(** *** [parseHdkIndex] *)

Definition functionSelectors : list Selector :=
  [ [One [Tag "a"; AttrContains "href" "/fn."]];
    [One [Tag "a"; AttrContains "href" "fn."]];
    [Desc (One [Class "item-name"]) [Tag "a"]];
    [Desc (One [Class "module-item"]) [Tag "a"]] ].

(** The URL of a function link: absolute, rooted at docs.rs, or relative
    to the base URL. *)
Definition functionUrl (baseUrl href : string) : string :=
  if JS.startsWith "http" href then href
  else if JS.startsWith "/" href then "https://docs.rs" +:+ href
  else baseUrl +:+ "/" +:+ href.

(** The two variables of the loop: [functions] and [seenFunctions]. *)
Definition IndexState : Type := list HdkFunction * gset string.

(** The guarded [functions.push]: a name already seen is not added. *)
Definition addFunction (f : HdkFunction) (st : IndexState) : IndexState :=
  if decide (fn_name f ∈ st.2) then st
  else ((st.1 ++ [f])%list, {[fn_name f]} ∪ st.2).

(** What a link of the page stands for, when it is a function link. *)
Definition anchorFunction (baseUrl : string) (el : Node) : option HdkFunction :=
  match attrOf "href" el with
  | Some href =>
      if nonEmpty href && JS.includes "fn." href then
        match Re.fnMatch Re.notDotSlash href with
        | Some functionName => Some (mkHdkFunction functionName (functionUrl baseUrl href))
        | None => None
        end
      else None
  | None => None
  end.

(** The body of [$(selector).each]. *)
Definition visitAnchor (baseUrl : string) (st : IndexState) (el : Node) : IndexState :=
  match anchorFunction baseUrl el with
  | Some f => addFunction f st
  | None => st
  end.

(** [functionSelectors.forEach] *)
Definition visitSelectors (doc : Document) (baseUrl : string) (st : IndexState)
  : IndexState :=
  fold_left
    (fun st sel => fold_left (visitAnchor baseUrl) (select sel doc) st)
    functionSelectors st.

Definition modules : list string :=
  ["entry"; "link"; "agent"; "chain"; "p2p"; "capability"; "hash"; "info"].

(** The table of functions known to exist in each module. *)
Definition commonFunctions : list (string * list string) :=
  [ ("entry", ["create_entry"; "get"; "update_entry"; "delete_entry"]);
    ("link", ["create_link"; "get_links"; "delete_link"; "get_link_details"]);
    ("agent", ["agent_info"]);
    ("chain", ["get_chain_head"; "query"]);
    ("p2p", ["call"; "call_remote"; "emit_signal"]);
    ("capability", ["create_cap_grant"; "create_cap_claim"]);
    ("hash", ["hash"]);
    ("info", ["dna_info"; "zome_info"; "call_info"]) ].

(** [commonFunctions[module]] *)
Fixpoint lookupModule (module : string) (table : list (string * list string))
  : option (list string) :=
  match table with
  | [] => None
  | (m, fs) :: rest => if String.eqb m module then Some fs else lookupModule module rest
  end.

Definition commonFunction (baseUrl module funcName : string) : HdkFunction :=
  mkHdkFunction funcName (baseUrl +:+ "/" +:+ module +:+ "/fn." +:+ funcName +:+ ".html").

(** [modules.forEach] *)
Definition visitModules (baseUrl : string) (st : IndexState) : IndexState :=
  fold_left
    (fun st module =>
       match lookupModule module commonFunctions with
       | Some fs =>
           fold_left (fun st funcName => addFunction (commonFunction baseUrl module funcName) st)
             fs st
       | None => st
       end)
    modules st.

(** The index built from a parsed page. The module links and the
    function-like names that the source also collects are only counted in
    a log line and do not reach the result. *)
Definition hdkIndexOf (doc : Document) (baseUrl : string) : list HdkFunction :=
  (visitModules baseUrl (visitSelectors doc baseUrl ([], ∅))).1.

Definition parseHdkIndex (html baseUrl : string) : Cause + list HdkFunction :=
  inr (hdkIndexOf (load html) baseUrl).

(** The parser layer. *)
Definition DocumentationParserLive : DocumentationParser :=
  mkDocumentationParser parseSearchResults parseDocumentationPage parseHdkIndex.

End WithLibraries.

End Parser.

(** ** The documentation service ([HolochainDocServiceLive]) *)

Module Service.

Import Dom.

(** [config.baseUrls] of [HolochainConfigLive]. *)
Definition developerBase : string := "https://developer.holochain.org".
Definition hdkBase : string := "https://docs.rs/hdk/latest/hdk".
Definition hdiBase : string := "https://docs.rs/hdi/latest/hdi".

Inductive DocType := hdk | hdi.

Definition baseUrls (docType : DocType) : string :=
  match docType with
  | hdk => hdkBase
  | hdi => hdiBase
  end.

Definition commonDeveloperPages : list string :=
  [ "/get-started"; "/concepts/1_the_basics";
    "/concepts/2_application_architecture"; "/concepts/3_source_chain";
    "/concepts/4_dht"; "/concepts/5_links_anchors";
    "/concepts/6_zome_functions"; "/concepts/7_validation"; "/build";
    "/resources" ].

Definition commonHDKPaths : list string :=
  [ "/entry/index.html"; "/link/index.html"; "/agent/index.html";
    "/chain/index.html"; "/capability/index.html"; "/ed25519/index.html";
    "/hash/index.html"; "/info/index.html"; "/p2p/index.html";
    "/random/index.html"; "/time/index.html";
    "/x_salsa20_poly1305/index.html" ].

Definition commonHDIPaths : list string :=
  [ "/entry/index.html"; "/link/index.html"; "/hash/index.html";
    "/holo_hash/index.html"; "/map/index.html"; "/prelude/index.html" ].

Definition FUNCTION_CACHE_TTL : Z := 60 * 60 * 1000.

(** An [Effect.try] seen as an effect. *)
Definition liftTry {A} (r : Cause + A) : Effect A :=
  fun w =>
    match r with
    | inl e => (Failure e, w)
    | inr a => (Success a, w)
    end.

(** [Option.toArray] *)
Definition toArray {A} (o : option A) : list A :=
  match o with
  | Some a => [a]
  | None => []
  end.

(** [Array.sortBy] with one order: a stable sort by increasing key. *)
Fixpoint insertBy {A} (key : A -> Z) (x : A) (l : list A) : list A :=
  match l with
  | [] => [x]
  | y :: rest => if key x <=? key y then x :: y :: rest else y :: insertBy key x rest
  end.

Fixpoint sortBy {A} (key : A -> Z) (l : list A) : list A :=
  match l with
  | [] => []
  | x :: rest => insertBy key x (sortBy key rest)
  end.

(** The order of the results: [(r) => -r.snippet.length]. *)
Definition snippetKey (r : SearchResult) : Z := - Z.of_nat (String.length (sr_snippet r)).

(** The last step of a search: sort, then [Array.take(5)]. *)
Definition rank (results : list SearchResult) : list SearchResult :=
  List.firstn 5 (sortBy snippetKey results).

(** [Map.set] on a map from names to functions, kept in insertion order:
    a name already there keeps its place and takes the new value. *)
Fixpoint mapSet (f : HdkFunction) (m : list HdkFunction) : list HdkFunction :=
  match m with
  | [] => [f]
  | g :: rest =>
      if String.eqb (fn_name g) (fn_name f) then f :: rest else g :: mapSet f rest
  end.

(** The values of the map filled by [functions.forEach]. *)
Definition uniqueFunctions (functions : list HdkFunction) : list HdkFunction :=
  fold_left (fun m f => mapSet f m) functions [].

Definition knownModules : list string :=
  [ "entry"; "link"; "agent"; "chain"; "p2p"; "capability"; "ed25519"; "hash";
    "info"; "time"; "random"; "x_salsa20_poly1305" ].

(** The concept table, in the order of its keys. *)
Definition conceptMappings : list (string * string) :=
  [ ("source chain", "/concepts/3_source_chain");
    ("dht", "/concepts/4_dht");
    ("links", "/concepts/5_links_anchors");
    ("anchors", "/concepts/5_links_anchors");
    ("zome", "/concepts/6_zome_functions");
    ("validation", "/concepts/7_validation");
    ("architecture", "/concepts/2_application_architecture");
    ("basics", "/concepts/1_the_basics") ].

(** The test of [Array.findFirst] in [getConceptDocs]. *)
Definition conceptMatches (normalizedConcept : string) (entry : string * string) : bool :=
  JS.includes entry.1 normalizedConcept || JS.includes normalizedConcept entry.1.

Section WithServices.

Variable httpService : HttpService.
Variable parser : DocumentationParser.

(** [cheerio.load], which the fallback discovery calls itself. *)
Variable load : string -> Document.

(** The effect built for one page of a search. *)
Definition searchPage (query url : string) : Call (list SearchResult) :=
  fun w =>
    let (page, w1) := fetchPage httpService url w in
    (Eff.catchAll (fun _ => Eff.succeed [])
       (Eff.map toArray
          (Eff.flatMap
             (fun html =>
                liftTry (parseSearchResults parser html url
                           (JS.splitSpace (JS.toLowerCase query))))
             page)),
     w1).

(** The pipeline shared by [searchDeveloperDocs] and [searchRustDocs]. *)
Definition searchUrls (urls : list string) (query : string) : Call (list SearchResult) :=
  fun w =>
    let (effects, w1) := Eff.mapCalls (searchPage query) urls w in
    (Eff.map rank (Eff.map (@List.concat SearchResult) (Eff.all effects)), w1).

Definition searchDeveloperDocs (query : string) : Call (list SearchResult) :=
  searchUrls (List.map (fun page => developerBase +:+ page) commonDeveloperPages) query.

Definition searchRustDocs (query : string) (docType : DocType) : Call (list SearchResult) :=
  let paths := match docType with hdk => commonHDKPaths | hdi => commonHDIPaths end in
  let baseUrl := baseUrls docType in
  searchUrls (List.map (fun path => baseUrl +:+ path) paths) query.

Definition fetchDocumentationPage (url : string) : Call DocumentationResult :=
  fun w =>
    let (page, w1) := fetchPage httpService url w in
    (Eff.mapError
       (fun error =>
          match error with
          | FetchError _ => NotFoundError ("Documentation page not found: " +:+ url)
          | _ => error
          end)
       (Eff.flatMap (fun html => liftTry (parseDocumentationPage parser html url)) page),
     w1).

(** The function links of a module page, as the fallback reads them. *)
Definition moduleFunction (module : string) (el : Node) : list HdkFunction :=
  match attrOf "href" el with
  | Some href =>
      if Parser.nonEmpty href && Parser.nonEmpty (JS.trim (textOf el))
         && JS.includes "fn." href then
        match Re.fnMatch Re.notDot href with
        | Some functionName =>
            [mkHdkFunction functionName
               (if JS.startsWith "http" href then href
                else if JS.startsWith "/" href then "https://docs.rs" +:+ href
                else hdkBase +:+ "/" +:+ module +:+ "/" +:+ href)]
        | None => []
        end
      else []
  | None => []
  end.

Definition moduleFunctions (module html : string) : list HdkFunction :=
  flat_map (moduleFunction module)
    (select [One [Tag "a"; AttrContains "href" "fn."]] (load html)).

(** The effect built for one module of the fallback discovery. *)
Definition crawlModule (module : string) : Call (list HdkFunction) :=
  fun w =>
    let (page, w1) :=
      fetchPage httpService (hdkBase +:+ "/" +:+ module +:+ "/index.html") w in
    (Eff.catchAll (fun _ => Eff.succeed [])
       (Eff.flatMap (fun html => liftTry (inr (moduleFunctions module html))) page),
     w1).

(** [hdkFunctionCache.set("hdk_functions", ...)] *)
Definition cacheFunctions (functions : list HdkFunction) (w : World) : World :=
  setHdkFunctionCache (<["hdk_functions" := (functions, clock w)]> (hdkFunctionCache w)) w.

Definition discoverHDKFunctionsFallback : Call (list HdkFunction) :=
  fun w =>
    let (effects, w1) := Eff.mapCalls crawlModule knownModules w in
    (Eff.tapSync cacheFunctions
       (Eff.map uniqueFunctions (Eff.map (@List.concat HdkFunction) (Eff.all effects))),
     w1).

Definition discoverHDKFunctions : Call (list HdkFunction) :=
  fun w =>
    let discover :=
      let (page, w1) := fetchPage httpService (hdkBase +:+ "/index.html") w in
      (Eff.catchAll (fun _ => Eff.run discoverHDKFunctionsFallback)
         (Eff.tapSync cacheFunctions
            (Eff.flatMap (fun html => liftTry (parseHdkIndex parser html hdkBase)) page)),
       w1) in
    match hdkFunctionCache w !! "hdk_functions" with
    | Some (functions, stamp) =>
        if clock w - stamp <? FUNCTION_CACHE_TTL then (Eff.succeed functions, w)
        else discover
    | None => discover
    end.

Definition getConceptDocs (concept : string) : Call DocumentationResult :=
  fun w =>
    let normalizedConcept := JS.toLowerCase concept in
    match List.find (conceptMatches normalizedConcept) conceptMappings with
    | None => (Eff.fail (NotFoundError ("Concept not found: " +:+ concept)), w)
    | Some (_, path) => fetchDocumentationPage (developerBase +:+ path) w
    end.

(** *** The tool [search_holochain_docs] *)

(** The [source] of a search request. *)
Inductive Source := all | developer | hdkDocs | hdiDocs.

Definition wants (source target : Source) : bool :=
  match source, target with
  | all, _ => true
  | developer, developer => true
  | hdkDocs, hdkDocs => true
  | hdiDocs, hdiDocs => true
  | _, _ => false
  end.

(** One [if] of [searchProgram]: the results of a source are put after
    the results at hand. *)
Definition andThen (wanted : bool) (search : Call (list SearchResult))
  (allResults : list SearchResult) : Effect (list SearchResult) :=
  if wanted then Eff.map (fun results => (allResults ++ results)%list) (Eff.run search)
  else Eff.succeed allResults.

(** [searchProgram], for a decoded input; [source] defaults to [all]. *)
Definition searchProgram (query : string) (source : option Source)
  : Effect (list SearchResult) :=
  let source := match source with Some s => s | None => all end in
  Eff.flatMap (andThen (wants source hdiDocs) (searchRustDocs query hdi))
    (Eff.flatMap (andThen (wants source hdkDocs) (searchRustDocs query hdk))
       (andThen (wants source developer) (searchDeveloperDocs query) [])).

(** The handler: a failure of the program becomes an empty result list. *)
Definition search_holochain_docs (query : string) (source : option Source)
  : Effect (list SearchResult) :=
  Eff.catchAll (fun _ => Eff.succeed []) (searchProgram query source).

End WithServices.

End Service.

(** ** The lookup of a function ([getHDKFunctionDocs]) *)

Module Lookup.

Import Service.

(** [error._tag]: the tag of a tagged error. The failure of the HTTP
    client is a [RequestError]. *)
Definition tagOf (error : Cause) : string :=
  match error with
  | FetchError _ => "FetchError"
  | ParseError _ => "ParseError"
  | NotFoundError _ => "NotFoundError"
  | TimeoutException => "TimeoutException"
  | HttpClientError _ => "RequestError"
  end.

(** A number inside a template literal. *)
Definition decimal (n : nat) : string :=
  DecimalString.NilEmpty.string_of_uint (Nat.to_uint n).

(** The names listed when no function matches: the first 20 of the index
    and the number of the others. *)
Definition available (hdkFunctions : list HdkFunction) : string :=
  Parser.joinWith ", " (List.firstn 20 (List.map fn_name hdkFunctions))
  +:+ (if (20 <? length hdkFunctions)%nat
       then ", and " +:+ decimal (length hdkFunctions - 20) +:+ " more..."
       else "").

(** The error of [onNone]. *)
Definition notFound (functionName : string) (hdkFunctions : list HdkFunction) : Cause :=
  NotFoundError ("HDK function not found: " +:+ functionName
                 +:+ ". Available functions: " +:+ available hdkFunctions).

(** The error that the last [catchAll] puts in the place of any other. *)
Definition lookupFailed (functionName : string) (error : Cause) : Cause :=
  NotFoundError ("Failed to lookup HDK function: " +:+ functionName
                 +:+ ". Error: " +:+ tagOf error).

Section WithServices.

Variable httpService : HttpService.
Variable parser : DocumentationParser.
Variable load : string -> Dom.Document.

(** [new Fuse(hdkFunctions, options).search(functionName)]: the items of
    the matches, the best match first. *)
Variable fuseSearch : list HdkFunction -> string -> list HdkFunction.

(** The index is discovered when the function is called; the best match
    is looked for, and its page fetched, when the effect is run. *)
Definition getHDKFunctionDocs (functionName : string) : Call DocumentationResult :=
  fun w =>
    let (discovery, w1) := discoverHDKFunctions httpService parser load w in
    (Eff.catchAll (fun error => Eff.fail (lookupFailed functionName error))
       (Eff.flatMap
          (fun hdkFunctions =>
             match fuseSearch hdkFunctions functionName with
             | [] => Eff.fail (notFound functionName hdkFunctions)
             | result :: _ =>
                 Eff.run (fetchDocumentationPage httpService parser (fn_url result))
             end)
          discovery),
     w1).

End WithServices.

End Lookup.

(** ** Running the model

    Two instances of the library functions, exact on the inputs named, on
    which the model can be evaluated. *)

Module Run.

Import Dom.

(** [cheerio.load] for a page without markup: the text becomes the body. *)
Definition loadPlainText (html : string) : Document :=
  [ Element "html" [] [ Element "head" [] []; Element "body" [] [Text html] ] ].

(** The characters with a meaning of their own in a regular expression. *)
Definition isMetaChar (c : ascii) : bool :=
  existsb (Ascii.eqb c)
    (list_ascii_of_string "\^$.|?*+()[]{}").

(** A term that a regular expression reads letter by letter. *)
Definition isLiteral (term : string) : bool :=
  Parser.nonEmpty term && forallb (fun c => negb (isMetaChar c)) (list_ascii_of_string term).

(** The matches of a literal term, taken from left to right without
    overlap and without regard to case. *)
Fixpoint countMatchesFrom (term : string) (skip : nat) (s : string) : nat :=
  match s with
  | EmptyString => O
  | String _ s' =>
      match skip with
      | S k => countMatchesFrom term k s'
      | O =>
          if Re.startsWithCI term s
          then S (countMatchesFrom term (String.length term - 1) s')
          else countMatchesFrom term 0 s'
      end
  end.

(** [new RegExp(term, "gi")] for a literal term, and for the empty term,
    which matches once at every position. Every other term is refused
    here, although the constructor accepts many of them. *)
Definition literalRegExp (term : string) : string + (string -> nat) :=
  match term with
  | EmptyString => inr (fun content => S (String.length content))
  | _ =>
      if isLiteral term then inr (countMatchesFrom term 0)
      else inl "SyntaxError: Invalid regular expression"
  end.

End Run.

(** ** The vocabulary of the properties

    The predicates and the example inputs that the statements below are
    written with. *)

Module Spec.

Import Dom Parser.

(** *** The cache *)

(** A content that fails the quality gate, in the words of the
    specification. *)
Definition failsGate (c : string) : Prop :=
  (String.length (JS.trim c) <= 100)%nat
  \/ JS.includes "404" c = true
  \/ JS.includes "Not Found" c = true
  \/ JS.includes "Error" c = true.

(** Every entry of the cache passes the quality test. *)
Definition allGood (cache : gmap string CachedPage) : Prop :=
  forall u e, cache !! u = Some e -> ~ failsGate (content e).

(** The caches the server can hold: it starts empty and changes only through
    the cache read of [fetchPage] and through [fetchAndCache]. *)
Inductive reachable : gmap string CachedPage -> Prop :=
| reach_empty : reachable ∅
| reach_read now url cache :
    reachable cache -> reachable (cacheRead now url cache).2
| reach_store now url c cache :
    reachable cache -> reachable (fetchAndCache now url c cache).2.

(** *** Strings *)

(** [sub] occurs in [s]. *)
Definition occursIn (sub s : string) : Prop :=
  exists pre post, s = pre +:+ sub +:+ post.

(** Every character of the string passes the test. *)
Fixpoint allChars (p : ascii -> bool) (s : string) : bool :=
  match s with
  | EmptyString => true
  | String c s' => p c && allChars p s'
  end.


(** *** The function index *)

(** The guarded pushes of a list of candidates, in order. *)
Definition addAll (cands : list HdkFunction) (st : IndexState) : IndexState :=
  fold_left (fun st f => addFunction f st) cands st.

(** The function links of the page, in the order the four selector
    strategies visit them. *)
Definition anchorCandidates (doc : Document) (baseUrl : string) : list HdkFunction :=
  flat_map (fun sel => omap (anchorFunction baseUrl) (select sel doc)) functionSelectors.

(** The entries of the curated table, in the order of [modules]. *)
Definition curatedCandidates (baseUrl : string) : list HdkFunction :=
  flat_map
    (fun module =>
       match lookupModule module commonFunctions with
       | Some fs => List.map (commonFunction baseUrl module) fs
       | None => []
       end)
    modules.

(** Everything [parseHdkIndex] tries to add, in order. *)
Definition candidates (doc : Document) (baseUrl : string) : list HdkFunction :=
  (anchorCandidates doc baseUrl ++ curatedCandidates baseUrl)%list.

(** [f] is the first candidate of its name. *)
Definition firstOfName (f : HdkFunction) (cands : list HdkFunction) : Prop :=
  exists l1 l2, cands = (l1 ++ f :: l2)%list /\ fn_name f ∉ List.map fn_name l1.

(** [seenFunctions] holds the names of [functions], each of them once. *)
Definition consistent (st : IndexState) : Prop :=
  NoDup (List.map fn_name st.1) /\ forall n, n ∈ st.2 <-> n ∈ List.map fn_name st.1.

(** The page of the scenario: two function links. *)
Definition scenarioPage : Document :=
  [ Element "html" []
      [ Element "head" [] [];
        Element "body" []
          [ Element "a" [("href", "entry/fn.create_entry.html")] [Text "create_entry"];
            Element "a" [("href", "link/fn.get_links.html")] [Text "get_links"] ] ] ].

(** *** Concepts *)

(** The containment test, in words. *)
Definition contains (normalizedConcept key : string) : Prop :=
  occursIn key normalizedConcept \/ occursIn normalizedConcept key.

(** *** Effects and the network *)

(** The effect ends, whatever the state it is run in. *)
Definition noPending {A} (m : Effect A) : Prop :=
  forall w, (m w).1 <> Pending.

(** The effect ends with a value, whatever the state it is run in. *)
Definition alwaysSucceeds {A} (m : Effect A) : Prop :=
  forall w, exists a w', m w = (Success a, w').

(** No request gets a body: every fetch fails or times out. *)
Definition offline (env : Env) : Prop :=
  forall url t html, respond env url t <> Body html.

(** The state after a request: only the clock has moved. *)
Definition sameCaches (w w' : World) : Prop :=
  pageCache w' = pageCache w /\ hdkFunctionCache w' = hdkFunctionCache w.

(** An environment that gives the same answer to every request, at once,
    with a browser that opens and closes its pages. *)
Definition always (answer : Response) : Env :=
  mkEnv (fun _ _ => answer) (fun _ _ => 0%N) (fun _ _ => Done) (fun _ _ => Done).

(** A network on which every connection is refused. *)
Definition refused : Env := always (TransportFailure "ECONNREFUSED").

(** A page whose body is a sentence on the DHT, at every URL. *)
Definition dhtEverywhere : Env := always (Body "the dht holds the data").

(** A sentence on the DHT at every developer page, and a longer one at
    every other URL. *)
Definition dhtUneven : Env :=
  mkEnv (fun url _ =>
           if JS.includes "developer.holochain.org" url
           then Body "the dht holds the data"
           else Body "every agent keeps a shard of the dht and answers for it")
        (fun _ _ => 0%N) (fun _ _ => Done) (fun _ _ => Done).

(** The effect does not end with a failure, whatever the state it is run
    in. *)
Definition neverFails {A} (m : Effect A) : Prop :=
  forall w e w', m w <> (Failure e, w').

(** The request of [url] made at time [t] is answered with [html] within
    the 10 seconds that both paths allow for it, and, where the browser
    makes the request, the page opens and closes. *)
Definition fetchSucceeds (env : Env) (url : string) (t : Z) (html : string) : Prop :=
  respond env url t = Body html
  /\ Z.of_N (latency env url t) < 10000
  /\ (JS.includes "developer.holochain.org" url = true ->
      newPage env url t = Done /\ close env url t = Done).

(** *** Search results *)

(** The order of [Array.sortBy]: by increasing key. *)
Definition byKey {A} (key : A -> Z) (a b : A) : Prop := key a <= key b.

(** A list in the order of the search: by snippet length, longest first. *)
Definition longestFirst (rs : list SearchResult) : Prop :=
  StronglySorted
    (fun a b => (String.length (sr_snippet b) <= String.length (sr_snippet a))%nat) rs.

(** What a search of one source returns: at most five results, longest
    snippet first. *)
Definition ranked (rs : list SearchResult) : Prop :=
  (length rs <= 5)%nat /\ longestFirst rs.

(** *** The scorer *)

(** The plain-text body of a parsed page. *)
Definition bodyText (doc : Document) : string := text (select (tag "body") doc).

(** [term] occurs in [s] without regard to case. *)
Definition occursCI (term s : string) : Prop :=
  occursIn (JS.toLowerCase term) (JS.toLowerCase s).

(** The result is a present one. *)
Definition present (r : Cause + option SearchResult) : Prop :=
  exists result, r = inr (Some result).

(** The patterns of the clean-up match nowhere in [s]. *)
Definition noBoilerplate (s : string) : Prop :=
  Re.removeEdgeLogo (Re.removeYouTube (Re.removeCircle s)) = s.

(** None of the three boilerplate texts begins anywhere in [s]. *)
Definition noMarkers (s : string) : Prop :=
  ~ occursCI "Circle with shading containing" s
  /\ ~ occursCI "YouTube play video icon" s
  /\ ~ occursCI "Edge_Logo_" s.

(** The window of the body text around the first occurrence of [term]. *)
Definition bodyWindow (doc : Document) (term : string) : string :=
  window (bodyText doc) (JS.indexOf term (JS.toLowerCase (bodyText doc))).



(** The patterns of the clean-up of a candidate match nowhere in [s]. *)
Definition plain (s : string) : Prop :=
  noBoilerplate s /\ Re.removeLabels s = s.

(** The trimmed text of a main content area. *)
Definition mainContent (doc : Document) (sel : Selector) : string :=
  JS.trim (text (select sel doc)).

(** The window of a main content area around the first occurrence of
    [term]. *)
Definition mainWindow (doc : Document) (sel : Selector) (term : string) : string :=
  window (mainContent doc sel) (JS.indexOf term (JS.toLowerCase (mainContent doc sel))).

(** The clean-up finds nothing to remove, neither in the window of the
    body nor in the windows of the main content areas. *)
Definition untouched (doc : Document) (term : string) : Prop :=
  noBoilerplate (bodyWindow doc term)
  /\ forall sel, sel ∈ mainContentSelectors -> plain (mainWindow doc sel term).

(** None of the four labels occurs in [s]. *)
Definition noLabels (s : string) : Prop :=
  ~ occursCI "Navigation" s /\ ~ occursCI "Menu" s
  /\ ~ occursCI "Header" s /\ ~ occursCI "Footer" s.

(** A page without the texts that the clean-up removes. *)
Definition tidy (doc : Document) : Prop :=
  noMarkers (bodyText doc)
  /\ forall sel, sel ∈ mainContentSelectors ->
       noMarkers (text (select sel doc)) /\ noLabels (text (select sel doc)).


(** *** The extractor *)

(** The text of the [.fqn] element in the scenario. *)
Definition signature : string := "pub fn create_entry(...)".

(** The line that [withSignature] puts in front. *)
Definition signatureLine : string := "Function signature: pub fn create_entry(...)".

(** A page with the signature and nothing else. *)
Definition signaturePage : Document :=
  [ Element "html" []
      [ Element "head" [] [];
        Element "body" []
          [ Element "h1" [("class", "fqn")] [Text "pub fn create_entry(...)"] ] ] ].

(** What the fallback regions may hold for the signature line to open the
    content: nothing, or 4 to 49 characters, or 50 and more without the
    signature and without [externresult]. *)
Definition leavesSignatureFirst (gathered : string) : Prop :=
  gathered = ""
  \/ (4 <= String.length gathered < 50)%nat
  \/ ((50 <= String.length gathered)%nat
      /\ JS.includes "externresult" (JS.toLowerCase gathered) = false
      /\ JS.includes signature gathered = false).

(** *** Queries *)

(** A query that is empty or begins with a space: its first term is the
    empty string. *)
Definition blank (query : string) : Prop :=
  query = "" \/ exists q, query = String " " q.

(** The source labels of the search results. *)
Definition labels : list string :=
  ["developer.holochain.org"; "docs.rs/hdk"; "docs.rs/hdi"].

(** The label that the scorer gives to the results of a page. *)
Definition sourceOf (url : string) : string :=
  if JS.includes "developer.holochain.org" url
  then "developer.holochain.org" else rustSource url.

(** The pages at [paths] under [base], each with its label. *)
Definition labelled (label base : string) (paths : list string) : list (string * string) :=
  List.map (fun path => (base +:+ path, label)) paths.

Definition developerPages : list (string * string) :=
  labelled "developer.holochain.org" Service.developerBase Service.commonDeveloperPages.

Definition hdkPages : list (string * string) :=
  labelled "docs.rs/hdk" Service.hdkBase Service.commonHDKPaths.

Definition hdiPages : list (string * string) :=
  labelled "docs.rs/hdi" Service.hdiBase Service.commonHDIPaths.

(** The pages that a search of a source reads. *)
Definition pagesOf (source : option Service.Source) : list (string * string) :=
  match source with
  | Some Service.developer => developerPages
  | Some Service.hdkDocs => hdkPages
  | Some Service.hdiDocs => hdiPages
  | Some Service.all | None => (developerPages ++ hdkPages ++ hdiPages)%list
  end.

(** *** Texts *)

(** White space is single spaces only; [afterSpace] tells that the
    character before was a space. *)
Fixpoint spaced (afterSpace : bool) (s : string) : bool :=
  match s with
  | EmptyString => true
  | String c s' =>
      if JS.isWhiteSpace c
      then Ascii.eqb c " " && negb afterSpace && spaced true s'
      else spaced false s'
  end.

(** The same, and the text does not end with a space. *)
Fixpoint singleSpacedFrom (afterSpace : bool) (s : string) : bool :=
  match s with
  | EmptyString => negb afterSpace
  | String c s' =>
      if JS.isWhiteSpace c
      then Ascii.eqb c " " && negb afterSpace && singleSpacedFrom true s'
      else singleSpacedFrom false s'
  end.

(** A text on one line, not empty, whose words are separated by one
    space each: no white space at either end, none but the space, and no
    two spaces in a row. *)
Definition singleSpaced (s : string) : bool := singleSpacedFrom true s.

(** *** Functions *)

(** [f] is the last function of its name in [fs]. *)
Definition lastOfName (f : HdkFunction) (fs : list HdkFunction) : Prop :=
  exists l1 l2, fs = (l1 ++ f :: l2)%list /\ fn_name f ∉ List.map fn_name l2.

(** The names of the curated table. *)
Definition curatedNames : list string := flat_map snd commonFunctions.

(** [a[href*='fn.']], the selector of the function links. *)
Definition functionLink : Selector := [One [Tag "a"; AttrContains "href" "fn."]].



(** The function cache has no entry that is still fresh. *)
Definition staleFunctions (w : World) : Prop :=
  match hdkFunctionCache w !! "hdk_functions" with
  | Some (_, stamp) => Service.FUNCTION_CACHE_TTL <= clock w - stamp
  | None => True
  end.

(** A search that finds the functions of exactly the name asked for: a
    stand-in for the fuzzy search, on which the lookup can be run. *)
Definition exactSearch (hdkFunctions : list HdkFunction) (functionName : string)
  : list HdkFunction :=
  List.filter (fun f => String.eqb (fn_name f) functionName) hdkFunctions.

(** The browser of [env] cannot close its pages. *)
Definition cannotClose (env : Env) : Env :=
  mkEnv (respond env) (latency env) (newPage env) (fun _ _ => Throws "Protocol error").

(** The answers of [env], each after [delay] milliseconds. *)
Definition delayed (delay : N) (env : Env) : Env :=
  mkEnv (respond env) (fun _ _ => delay) (newPage env) (close env).

(** A page of 120 characters that passes the quality gate. *)
Definition goodPage : string :=
  "Every agent keeps a shard of the distributed hash table and answers for the data in it, whoever has written them down.".

End Spec.

(** * Properties *)

(** ** The cache quality gate *)

Module CacheProps.

Import Spec.

Lemma isGoodCache_shouldCache c : isGoodCache c = shouldCache c.
Proof. reflexivity. Qed.

Lemma shouldCache_false c : shouldCache c = false <-> failsGate c.
Proof.
  unfold shouldCache, failsGate.
  rewrite !andb_false_iff, !negb_false_iff, Nat.ltb_ge. tauto.
Qed.

Lemma shouldCache_true c : shouldCache c = true <-> ~ failsGate c.
Proof.
  rewrite <- shouldCache_false. destruct (shouldCache c); split; congruence.
Qed.

Lemma cacheRead_miss_absent now url cache :
  cache !! url = None -> cacheRead now url cache = (None, cache).
Proof. intros H. unfold cacheRead. now rewrite H. Qed.

Lemma fetchAndCache_bad now url c cache :
  failsGate c -> fetchAndCache now url c cache = (c, delete url cache).
Proof.
  intros H. apply shouldCache_false in H. unfold fetchAndCache. now rewrite H.
Qed.

Lemma cacheRead_hit_good now url cache c cache' :
  cacheRead now url cache = (Some c, cache') ->
  ~ failsGate c /\ cache' = cache
  /\ exists e, cache !! url = Some e /\ content e = c
               /\ now - timestamp e < CACHE_TTL.
Proof.
  unfold cacheRead. destruct (cache !! url) as [e|] eqn:E; [|discriminate].
  destruct (Z.ltb_spec (now - timestamp e) CACHE_TTL); [|discriminate].
  destruct (isGoodCache (content e)) eqn:G; [|discriminate].
  intros [= <- <-]. rewrite isGoodCache_shouldCache in G.
  apply shouldCache_true in G. eauto 6.
Qed.

Lemma cacheRead_bad_entry now url cache e :
  cache !! url = Some e -> failsGate (content e) ->
  (cacheRead now url cache).1 = None
  /\ (now - timestamp e < CACHE_TTL ->
      cacheRead now url cache = (None, delete url cache)).
Proof.
  intros E B. apply shouldCache_false in B. unfold cacheRead. rewrite E.
  rewrite isGoodCache_shouldCache, B.
  destruct (Z.ltb_spec (now - timestamp e) CACHE_TTL); split; auto; lia.
Qed.

Lemma allGood_delete url cache : allGood cache -> allGood (delete url cache).
Proof.
  intros H u e Hu. apply lookup_delete_Some in Hu as [_ Hu]. eauto.
Qed.

Lemma allGood_sweep cutoff cache : allGood cache -> allGood (sweep cutoff cache).
Proof.
  intros H u e Hu. unfold sweep in Hu.
  apply map_lookup_filter_Some in Hu as [Hu _]. eauto.
Qed.

Lemma allGood_cacheRead now url cache :
  allGood cache -> allGood (cacheRead now url cache).2.
Proof.
  intros H. unfold cacheRead. destruct (cache !! url) as [e|]; [|exact H].
  destruct (_ <? _); [|exact H].
  destruct (isGoodCache _); [exact H|]. now apply allGood_delete.
Qed.

Lemma allGood_fetchAndCache now url c cache :
  allGood cache -> allGood (fetchAndCache now url c cache).2.
Proof.
  intros H. unfold fetchAndCache. destruct (shouldCache c) eqn:G; simpl.
  - assert (allGood (<[url:=mkCachedPage c now]> cache)) as H1.
    { intros u e Hu. apply lookup_insert_Some in Hu as [[_ <-]|[_ Hu]].
      - now apply shouldCache_true.
      - eauto. }
    destruct (_ <? _)%nat; [now apply allGood_sweep | exact H1].
  - now apply allGood_delete.
Qed.

Lemma reachable_allGood cache : reachable cache -> allGood cache.
Proof.
  induction 1.
  - intros u e Hu. now rewrite lookup_empty in Hu.
  - now apply allGood_cacheRead.
  - now apply allGood_fetchAndCache.
Qed.

(** C1. Content that fails the quality gate (trimmed length at most 100, or
    one of the markers 404, Not Found, Error) is never stored: offering it
    leaves no entry for the URL and the next read misses; a read that finds
    a stored entry failing the gate reports a miss, and evicts the entry
    when it is a fresh one; hence every entry of a cache the server can
    reach passes the gate, and so does every content a read returns. *)
Theorem cache_quality_gate :
  (forall now url c cache, failsGate c ->
     fetchAndCache now url c cache = (c, delete url cache)
     /\ (fetchAndCache now url c cache).2 !! url = None
     /\ forall now', cacheRead now' url (fetchAndCache now url c cache).2
                     = (None, (fetchAndCache now url c cache).2))
  /\ (forall now url cache e,
        cache !! url = Some e -> failsGate (content e) ->
        (cacheRead now url cache).1 = None
        /\ (now - timestamp e < CACHE_TTL ->
            cacheRead now url cache = (None, delete url cache)
            /\ (cacheRead now url cache).2 !! url = None))
  /\ (forall cache, reachable cache -> allGood cache)
  /\ (forall now url cache c cache',
        cacheRead now url cache = (Some c, cache') -> ~ failsGate c).
Proof.
  split; [|split; [|split]].
  - intros now url c cache B. rewrite (fetchAndCache_bad now url c cache B).
    simpl. split; [reflexivity|]. split; [apply lookup_delete_eq|].
    intros now'. apply cacheRead_miss_absent, lookup_delete_eq.
  - intros now url cache e E B.
    destruct (cacheRead_bad_entry now url cache e E B) as [H1 H2].
    split; [exact H1|]. intros F. rewrite (H2 F). split; [reflexivity|].
    apply lookup_delete_eq.
  - exact reachable_allGood.
  - intros now url cache c cache' H.
    now destruct (cacheRead_hit_good _ _ _ _ _ H).
Qed.

(** The gate at work on a short error page. *)
Lemma cache_quality_gate_witness :
  failsGate "404" /\
  fetchAndCache 0 "https://docs.rs/x" "404" ∅ = ("404", delete "https://docs.rs/x" ∅).
Proof.
  assert (failsGate "404") as B by (right; left; reflexivity).
  split; [exact B|].
  exact (proj1 (proj1 cache_quality_gate 0 "https://docs.rs/x" "404" ∅ B)).
Defined.

End CacheProps.

(** ** The page fetcher *)

Module FetchProps.

Import CacheProps Spec.

Lemma fetchAndCacheSync_value url c w : (Http.fetchAndCacheSync url c w).1 = c.
Proof.
  unfold Http.fetchAndCacheSync, fetchAndCache.
  destruct (shouldCache c); reflexivity.
Qed.

Lemma fetchAndCacheSync_clock url c w : clock (Http.fetchAndCacheSync url c w).2 = clock w.
Proof.
  unfold Http.fetchAndCacheSync.
  destruct (fetchAndCache (clock w) url c (pageCache w)). reflexivity.
Qed.

Lemma fetchAndCacheSync_eta url c w :
  Http.fetchAndCacheSync url c w = (c, (Http.fetchAndCacheSync url c w).2).
Proof.
  pose proof (fetchAndCacheSync_value url c w) as V.
  destruct (Http.fetchAndCacheSync url c w). simpl in *. now subst.
Qed.

Lemma fetchAndCacheSync_bad url c w :
  failsGate c ->
  Http.fetchAndCacheSync url c w = (c, setPageCache (delete url (pageCache w)) w).
Proof.
  intros B. unfold Http.fetchAndCacheSync.
  now rewrite (fetchAndCache_bad _ _ _ _ B).
Qed.

(** What the static path does with each answer of the network: a body
    that arrives within 10 seconds is stored and returned; anything else,
    a late body included, ends as the one failure, at the time of the
    answer or, at the latest, when the 10 seconds are over. *)
Lemma staticFetch_cases env url w :
  Http.staticFetch env url w =
  let d := Z.of_N (latency env url (clock w)) in
  let failed := Failure (FetchError ("Timeout fetching: " +:+ url)) in
  if d <? 10000 then
    match respond env url (clock w) with
    | Body html =>
        (Success html, (Http.fetchAndCacheSync url html (setClock (clock w + d) w)).2)
    | TransportFailure _ => (failed, setClock (clock w + d) w)
    | NoReply => (failed, setClock (clock w + 10000) w)
    end
  else (failed, setClock (clock w + 10000) w).
Proof.
  unfold Http.staticFetch, Eff.mapError, Eff.timeout, Eff.mapSync, Http.execute.
  change (Z.min Http.configTimeout 10000) with 10000. cbv zeta.
  destruct (respond env url (clock w)).
  - rewrite fetchAndCacheSync_eta, fetchAndCacheSync_clock. cbn [clock setClock].
    replace (clock w + Z.of_N (latency env url (clock w)) - clock w)
      with (Z.of_N (latency env url (clock w))) by lia.
    now destruct (_ <? _).
  - cbn [clock setClock].
    replace (clock w + Z.of_N (latency env url (clock w)) - clock w)
      with (Z.of_N (latency env url (clock w))) by lia.
    now destruct (_ <? _).
  - now destruct (_ <? _).
Qed.

(** What the [try] block of the browser path gives. *)
Lemma loadPage_cases env url w :
  Http.loadPage env url w =
  let d := Z.of_N (latency env url (clock w)) in
  if d <? 10000 then
    match respond env url (clock w) with
    | Body html =>
        (inr html, (Http.fetchAndCacheSync url html (setClock (clock w + d) w)).2)
    | TransportFailure reason => (inl reason, setClock (clock w + d) w)
    | NoReply => (inl Http.navigationTimeoutError, setClock (clock w + 10000) w)
    end
  else (inl Http.navigationTimeoutError, setClock (clock w + 10000) w).
Proof.
  unfold Http.loadPage. change (Z.min Http.configTimeout 15000) with 10000. cbv zeta.
  destruct (_ <? _); [|reflexivity].
  destruct (respond env url (clock w)); try reflexivity.
  now rewrite fetchAndCacheSync_eta.
Qed.

(** The [try] block ends within the 10 seconds of the navigation. *)
Lemma loadPage_elapsed env url w :
  0 <= clock (Http.loadPage env url w).2 - clock w <= 10000.
Proof.
  rewrite loadPage_cases. cbv zeta.
  destruct (Z.ltb_spec (Z.of_N (latency env url (clock w))) 10000);
    [destruct (respond env url (clock w))|];
    cbn [snd]; rewrite ?fetchAndCacheSync_clock; cbn [clock setClock]; lia.
Qed.

(** What the browser path does: every failure, be it of opening the page,
    of the navigation or of closing the page, ends as the one failure; the
    time-out of 18 seconds is never reached, that of the navigation being
    shorter. *)
Lemma renderedFetch_cases env url w :
  Http.renderedFetch env url w =
  let failed := Failure (FetchError ("Timeout fetching with puppeteer: " +:+ url)) in
  match newPage env url (clock w) with
  | Throws _ => (failed, w)
  | Done =>
      match Http.loadPage env url w, close env url (clock w) with
      | (inr c, w1), Done => (Success c, w1)
      | (_, w1), _ => (failed, w1)
      end
  end.
Proof.
  unfold Http.renderedFetch, Eff.mapError, Eff.timeout, Http.navigate. cbv zeta.
  destruct (newPage env url (clock w)).
  - pose proof (loadPage_elapsed env url w) as E.
    destruct (Http.loadPage env url w) as [outcome w1]. cbn [snd] in E.
    destruct (close env url (clock w)), outcome;
      (destruct (Z.ltb_spec (clock w1 - clock w) 18000); [reflexivity|lia]).
  - replace (clock w - clock w) with 0 by lia. reflexivity.
Qed.

(** A call of [fetchPage] that is run at once never stays pending, and a
    failure of it is always a [FetchError]. *)
Lemma fetchPage_run_cases env url w :
  (exists c w', Eff.run (Http.fetchPage env url) w = (Success c, w'))
  \/ (exists m w', Eff.run (Http.fetchPage env url) w = (Failure (FetchError m), w')).
Proof.
  unfold Eff.run, Http.fetchPage.
  destruct (cacheRead (clock w) url (pageCache w)) as [[c|] cache].
  - left. unfold Eff.succeed. eauto.
  - destruct (JS.includes _ url).
    + rewrite renderedFetch_cases. cbv zeta.
      destruct (newPage env url _); [|eauto].
      destruct (Http.loadPage env url _) as [[reason|c] w1]; [eauto|].
      destruct (close env url _); eauto.
    + rewrite staticFetch_cases. cbv zeta.
      destruct (_ <? _); [|eauto].
      destruct (respond env url _); eauto.
Qed.

Lemma allGood_fetchAndCacheSync url c w :
  allGood (pageCache w) -> allGood (pageCache (Http.fetchAndCacheSync url c w).2).
Proof.
  intros G. unfold Http.fetchAndCacheSync.
  pose proof (allGood_fetchAndCache (clock w) url c (pageCache w) G) as G'.
  destruct (fetchAndCache (clock w) url c (pageCache w)). exact G'.
Qed.

Lemma allGood_loadPage env url w :
  allGood (pageCache w) -> allGood (pageCache (Http.loadPage env url w).2).
Proof.
  intros G. rewrite loadPage_cases. cbv zeta.
  destruct (_ <? _); [|exact G].
  destruct (respond env url (clock w)); try exact G.
  cbn [snd]. now apply allGood_fetchAndCacheSync.
Qed.

(** A call of [fetchPage] that is run at once keeps the page cache free
    of entries that fail the quality gate. *)
Lemma fetchPage_keeps_allGood env url w :
  allGood (pageCache w) -> allGood (pageCache (Eff.run (Http.fetchPage env url) w).2).
Proof.
  intros G. unfold Eff.run, Http.fetchPage.
  pose proof (allGood_cacheRead (clock w) url (pageCache w) G) as G1.
  destruct (cacheRead (clock w) url (pageCache w)) as [[c|] cache]; [exact G|].
  simpl in G1.
  destruct (JS.includes _ url).
  - rewrite renderedFetch_cases. cbv zeta.
    destruct (newPage env url _); [|exact G1].
    pose proof (allGood_loadPage env url (setPageCache cache w) G1) as G2.
    destruct (Http.loadPage env url _) as [[reason|c] w1]; [exact G2|].
    destruct (close env url _); exact G2.
  - rewrite staticFetch_cases. cbv zeta.
    destruct (_ <? _); [|exact G1].
    destruct (respond env url _); try exact G1.
    cbn [snd]. now apply allGood_fetchAndCacheSync.
Qed.

(** The message of the first [mapError] never leaves the static path. *)
Lemma failed_to_fetch_never_surfaces env url w :
  (Http.staticFetch env url w).1 <> Failure (FetchError ("Failed to fetch: " +:+ url)).
Proof.
  rewrite staticFetch_cases. cbv zeta.
  destruct (_ <? _); [destruct (respond env url (clock w))|]; simpl; intros [=].
Qed.

(** C6 (as the code behaves). On the static path the last [mapError] of
    the pipeline rewrites every failure: a transport failure and a
    time-out both end as the one value
    [FetchError "Timeout fetching: <url>"], whatever the reason of the
    transport failure was. *)
Theorem static_failures_coincide env1 env2 url w reason :
  respond env1 url (clock w) = TransportFailure reason ->
  respond env2 url (clock w) = NoReply ->
  (Http.staticFetch env1 url w).1 = Failure (FetchError ("Timeout fetching: " +:+ url))
  /\ (Http.staticFetch env1 url w).1 = (Http.staticFetch env2 url w).1.
Proof.
  intros H1 H2. rewrite !staticFetch_cases, H1, H2. cbv zeta.
  destruct (_ <? _), (_ <? _); auto.
Qed.

(** A refused connection and a silent server, seen through [staticFetch]. *)
Lemma static_failures_coincide_witness :
  (Http.staticFetch (always (TransportFailure "ECONNREFUSED"))
     "https://docs.rs/hdk/latest/hdk/index.html" (mkWorld ∅ ∅ 0)).1
  = (Http.staticFetch (always NoReply)
       "https://docs.rs/hdk/latest/hdk/index.html" (mkWorld ∅ ∅ 0)).1.
Proof.
  exact (proj2 (static_failures_coincide
    (always (TransportFailure "ECONNREFUSED")) (always NoReply)
    "https://docs.rs/hdk/latest/hdk/index.html" (mkWorld ∅ ∅ 0) "ECONNREFUSED"
    eq_refl eq_refl)).
Defined.

(** C10. When the cache read misses and the underlying fetch succeeds,
    that is, the request is answered with a body within the time allowed
    and, on the browser path, the page opens and closes, [fetchPage]
    succeeds with that body unchanged, on either path and whatever the
    quality of the body; a body that fails the gate is only kept out of
    the cache. *)
Theorem fetchPage_returns_fetched_content env url w html :
  (cacheRead (clock w) url (pageCache w)).1 = None ->
  fetchSucceeds env url (clock w) html ->
  exists w',
    Eff.run (Http.fetchPage env url) w = (Success html, w')
    /\ (failsGate html -> pageCache w' !! url = None).
Proof.
  intros Hmiss (Hresp & Hfast & Hbrowser). unfold Eff.run, Http.fetchPage.
  destruct (cacheRead (clock w) url (pageCache w)) as [cached cache].
  simpl in Hmiss. subst cached. apply Z.ltb_lt in Hfast.
  destruct (JS.includes _ url).
  - destruct (Hbrowser eq_refl) as [Hopen Hclose].
    rewrite renderedFetch_cases, loadPage_cases. cbn [clock setPageCache].
    rewrite Hopen, Hclose, Hfast, Hresp. eexists. split; [reflexivity|].
    intros B. rewrite (fetchAndCacheSync_bad _ _ _ B). simpl. apply lookup_delete_eq.
  - rewrite staticFetch_cases. cbn [clock setPageCache].
    rewrite Hfast, Hresp. eexists. split; [reflexivity|].
    intros B. rewrite (fetchAndCacheSync_bad _ _ _ B). simpl. apply lookup_delete_eq.
Qed.

(** An error page of a few characters comes back as a success. *)
Lemma fetchPage_returns_fetched_content_witness :
  exists w',
    Eff.run (Http.fetchPage (always (Body "404 Not Found"))
               "https://docs.rs/hdk/latest/hdk/nope.html") (mkWorld ∅ ∅ 0)
    = (Success "404 Not Found", w')
    /\ (failsGate "404 Not Found" ->
        pageCache w' !! "https://docs.rs/hdk/latest/hdk/nope.html" = None).
Proof.
  apply (fetchPage_returns_fetched_content (always (Body "404 Not Found"))
    "https://docs.rs/hdk/latest/hdk/nope.html" (mkWorld ∅ ∅ 0) "404 Not Found").
  - reflexivity.
  - split; [reflexivity|]. split; [reflexivity|]. discriminate.
Defined.

End FetchProps.

(** ** The function index *)

Module IndexProps.

Import Dom Parser Spec.

Lemma addAll_app l1 l2 st : addAll (l1 ++ l2) st = addAll l2 (addAll l1 st).
Proof. apply fold_left_app. Qed.

Lemma visitAnchors_addAll baseUrl els st :
  fold_left (visitAnchor baseUrl) els st = addAll (omap (anchorFunction baseUrl) els) st.
Proof.
  revert st. induction els as [|el els IH]; intros st; [reflexivity|].
  simpl. rewrite IH. unfold visitAnchor.
  destruct (anchorFunction baseUrl el); reflexivity.
Qed.

Lemma visitSelectors_addAll doc baseUrl st :
  visitSelectors doc baseUrl st = addAll (anchorCandidates doc baseUrl) st.
Proof.
  unfold visitSelectors, anchorCandidates, functionSelectors. simpl.
  rewrite !visitAnchors_addAll, !addAll_app, ?app_nil_r. reflexivity.
Qed.

Lemma commonFunctions_addAll baseUrl module fs st :
  fold_left (fun st funcName => addFunction (commonFunction baseUrl module funcName) st) fs st
  = addAll (List.map (commonFunction baseUrl module) fs) st.
Proof.
  revert st. induction fs as [|f fs IH]; intros st; [reflexivity|]. simpl. apply IH.
Qed.

Lemma visitModules_addAll baseUrl st :
  visitModules baseUrl st = addAll (curatedCandidates baseUrl) st.
Proof.
  unfold visitModules, curatedCandidates. revert st.
  induction modules as [|m ms IH]; intros st; [reflexivity|].
  cbn [fold_left flat_map]. rewrite IH, addAll_app. f_equal.
  destruct (lookupModule m commonFunctions); [apply commonFunctions_addAll|reflexivity].
Qed.

Lemma hdkIndexOf_addAll doc baseUrl :
  hdkIndexOf doc baseUrl = (addAll (candidates doc baseUrl) ([], ∅)).1.
Proof.
  unfold hdkIndexOf, candidates.
  now rewrite visitSelectors_addAll, visitModules_addAll, addAll_app.
Qed.

Lemma consistent_empty : consistent ([], ∅).
Proof. split; [constructor|]. intros n. simpl. set_solver. Qed.

Lemma addFunction_consistent f st : consistent st -> consistent (addFunction f st).
Proof.
  intros [ND S]. unfold addFunction. destruct (decide _) as [Hin|Hout]; [now split|].
  split; simpl.
  - rewrite map_app. simpl. apply NoDup_app. split; [exact ND|].
    split; [|apply NoDup_singleton].
    intros n Hn Hn'. apply list_elem_of_singleton in Hn'. subst n.
    apply Hout, S, Hn.
  - intros n. rewrite map_app, elem_of_app, elem_of_union, S. simpl.
    rewrite list_elem_of_singleton, elem_of_singleton. tauto.
Qed.

Lemma addAll_consistent cands st : consistent st -> consistent (addAll cands st).
Proof.
  revert st. induction cands as [|f cands IH]; intros st H; [exact H|].
  simpl. apply IH, addFunction_consistent, H.
Qed.

(** What the guarded pushes leave in [functions]: what was there, and the
    first candidate of every name not seen before. *)
Lemma addAll_elem cands st f :
  consistent st ->
  f ∈ (addAll cands st).1 <->
  f ∈ st.1 \/ (firstOfName f cands /\ fn_name f ∉ st.2).
Proof.
  revert st. induction cands as [|g cands IH]; intros st C.
  - simpl. split; [auto|]. intros [H|[(l1 & l2 & E & _) _]]; [exact H|].
    now destruct l1.
  - simpl. rewrite (IH _ (addFunction_consistent g st C)).
    unfold addFunction. destruct (decide (fn_name g ∈ st.2)) as [Hin|Hout]; simpl.
    + split.
      * intros [H|[(l1 & l2 & E & N) Hf]]; [auto|]. right. split; [|exact Hf].
        exists (g :: l1), l2. split; [now rewrite E|].
        simpl. rewrite not_elem_of_cons. split; [congruence|exact N].
      * intros [H|[(l1 & l2 & E & N) Hf]]; [auto|]. right.
        destruct l1 as [|h l1]; simpl in E; injection E as -> ->.
        -- contradiction.
        -- split; [|exact Hf]. exists l1, l2. split; [reflexivity|].
           simpl in N. rewrite not_elem_of_cons in N. tauto.
    + rewrite elem_of_app, list_elem_of_singleton. split.
      * intros [[H | ->] | [(l1 & l2 & E & N) Hf]].
        -- auto.
        -- right. split; [|exact Hout]. exists [], cands. split; [reflexivity|].
           simpl. apply not_elem_of_nil.
        -- rewrite not_elem_of_union, not_elem_of_singleton in Hf.
           right. split; [|tauto]. exists (g :: l1), l2. split; [now rewrite E|].
           simpl. rewrite not_elem_of_cons. split; [tauto|exact N].
      * intros [H|[(l1 & l2 & E & N) Hf]]; [auto|].
        destruct l1 as [|h l1]; simpl in E; injection E as -> ->.
        -- auto.
        -- right. simpl in N. rewrite not_elem_of_cons in N. split.
           ++ exists l1, l2. tauto.
           ++ rewrite not_elem_of_union, not_elem_of_singleton. tauto.
Qed.

(** Every candidate has a first candidate of its name. *)
Lemma firstOfName_exists cands f :
  f ∈ cands -> exists g, firstOfName g cands /\ fn_name g = fn_name f.
Proof.
  induction cands as [|c cands IH]; intros Hf; [now apply elem_of_nil in Hf|].
  destruct (decide (fn_name c = fn_name f)) as [E|N].
  - exists c. split; [|exact E]. exists [], cands. split; [reflexivity|].
    simpl. apply not_elem_of_nil.
  - apply elem_of_cons in Hf as [->|Hf]; [congruence|].
    destruct (IH Hf) as (g & (l1 & l2 & -> & Hn) & Eg).
    exists g. split; [|exact Eg]. exists (c :: l1), l2. split; [reflexivity|].
    simpl. rewrite not_elem_of_cons. split; [congruence|exact Hn].
Qed.

(** On the path through [parseHdkIndex] the curated table is a safety
    net: every name of the table is in the index, whatever the page, and
    the index is never empty. *)
Lemma hdkIndexOf_firstOfName doc baseUrl f :
  f ∈ hdkIndexOf doc baseUrl <-> firstOfName f (candidates doc baseUrl).
Proof.
  rewrite hdkIndexOf_addAll, (addAll_elem _ _ f consistent_empty). simpl. split.
  - intros [H|[H _]]; [now apply elem_of_nil in H|exact H].
  - intros H. right. split; [exact H|]. apply not_elem_of_empty.
Qed.

Lemma hdkIndexOf_holds_curated doc baseUrl :
  (forall f, f ∈ curatedCandidates baseUrl ->
             In (fn_name f) (List.map fn_name (hdkIndexOf doc baseUrl)))
  /\ hdkIndexOf doc baseUrl <> [].
Proof.
  assert (forall f, f ∈ curatedCandidates baseUrl ->
                    In (fn_name f) (List.map fn_name (hdkIndexOf doc baseUrl))) as H.
  { intros f Hf.
    destruct (firstOfName_exists (candidates doc baseUrl) f) as (g & Hg & <-).
    { unfold candidates. apply elem_of_app. now right. }
    apply in_map, list_elem_of_In, hdkIndexOf_firstOfName, Hg. }
  split; [exact H|]. intros E.
  assert (commonFunction baseUrl "entry" "create_entry" ∈ curatedCandidates baseUrl)
    as Hin by left.
  apply H in Hin. rewrite E in Hin. exact Hin.
Qed.

(** C5. The index that [parseHdkIndex] builds holds every name at most
    once; its entries are exactly the first candidates of their names, the
    candidates being the function links of the page in the order of the
    selector strategies, followed by the curated table; and the page with
    links to [entry/fn.create_entry.html] and [link/fn.get_links.html]
    gives one entry named [create_entry], the one of the link. *)
Theorem parseHdkIndex_deduplicated :
  (forall doc baseUrl, NoDup (List.map fn_name (hdkIndexOf doc baseUrl)))
  /\ (forall doc baseUrl f,
        f ∈ hdkIndexOf doc baseUrl <-> firstOfName f (candidates doc baseUrl))
  /\ (forall load html baseUrl,
        parseHdkIndex load html baseUrl = inr (hdkIndexOf (load html) baseUrl))
  /\ List.filter (fun f => String.eqb (fn_name f) "create_entry")
       (hdkIndexOf scenarioPage Service.hdkBase)
     = [ mkHdkFunction "create_entry"
           "https://docs.rs/hdk/latest/hdk/entry/fn.create_entry.html" ].
Proof.
  split; [|split; [|split]].
  - intros doc baseUrl. rewrite hdkIndexOf_addAll.
    apply (addAll_consistent _ _ consistent_empty).
  - exact hdkIndexOf_firstOfName.
  - reflexivity.
  - vm_compute. reflexivity.
Qed.

End IndexProps.

(** ** Lists *)

Module ListProps.

(** [List.find] gives the first element that passes the test. *)
Lemma find_first {A} (p : A -> bool) (l : list A) :
  match List.find p l with
  | None => forall x, x ∈ l -> p x = false
  | Some x =>
      exists i, l !! i = Some x /\ p x = true
                /\ forall j y, (j < i)%nat -> l !! j = Some y -> p y = false
  end.
Proof.
  induction l as [|a l IH]; simpl.
  - intros x Hx. now apply elem_of_nil in Hx.
  - destruct (p a) eqn:Pa.
    + exists O. split; [reflexivity|]. split; [exact Pa|]. intros j y Hj. lia.
    + destruct (List.find p l) as [x|].
      * destruct IH as (i & Hi & Px & Hlt). exists (S i). split; [exact Hi|].
        split; [exact Px|]. intros [|j] y Hj Hy; simpl in Hy.
        -- now injection Hy as <-.
        -- apply (Hlt j y); [lia|exact Hy].
      * intros x Hx. apply elem_of_cons in Hx as [->|Hx]; auto.
Qed.

(** The first element that passes a test is what [List.find] gives. *)
Lemma find_first_unique {A} (p : A -> bool) (l : list A) i x :
  l !! i = Some x -> p x = true ->
  (forall j y, (j < i)%nat -> l !! j = Some y -> p y = false) ->
  List.find p l = Some x.
Proof.
  revert i. induction l as [|a l IH]; intros i Hi Px Hlt; [discriminate|].
  destruct i as [|i]; simpl in *.
  - injection Hi as ->. now rewrite Px.
  - rewrite (Hlt O a); [|lia|reflexivity].
    apply (IH i Hi Px). intros j y Hj Hy. apply (Hlt (S j) y); [lia|exact Hy].
Qed.

End ListProps.

(** ** Strings *)

Module StringProps.

Import Spec.

Lemma append_cons c (a b : string) : String c a +:+ b = String c (a +:+ b).
Proof. reflexivity. Qed.

Lemma append_nil_l (a : string) : "" +:+ a = a.
Proof. reflexivity. Qed.

Lemma append_assoc (a b c : string) : (a +:+ b) +:+ c = a +:+ (b +:+ c).
Proof.
  induction a as [|x a IH]; [reflexivity|]. rewrite !append_cons. now f_equal.
Qed.

Lemma append_nil_r (a : string) : a +:+ "" = a.
Proof.
  induction a as [|x a IH]; [reflexivity|]. rewrite append_cons. now f_equal.
Qed.

Lemma length_append (a b : string) :
  String.length (a +:+ b) = (String.length a + String.length b)%nat.
Proof.
  induction a as [|x a IH]; [reflexivity|]. rewrite append_cons. simpl. now f_equal.
Qed.

Lemma startsWith_spec p s : JS.startsWith p s = true <-> exists post, s = p +:+ post.
Proof.
  revert s. induction p as [|a p IH]; intros s; simpl.
  - split; eauto.
  - destruct s as [|b s].
    + split; [discriminate|]. intros [post E]. discriminate.
    + rewrite andb_true_iff, IH, Ascii.eqb_eq. split.
      * intros [-> [post ->]]. exists post. reflexivity.
      * intros [post E]. rewrite append_cons in E. injection E as -> ->. eauto.
Qed.

Lemma includes_spec sub s : JS.includes sub s = true <-> occursIn sub s.
Proof.
  unfold occursIn. induction s as [|c s IH].
  - simpl. rewrite orb_false_r, startsWith_spec. split.
    + intros [post E]. exists "", post. exact E.
    + intros (pre & post & E). destruct pre; [|discriminate]. eauto.
  - cbn [JS.includes]. rewrite orb_true_iff, startsWith_spec, IH. split.
    + intros [[post E]|(pre & post & E)].
      * exists "", post. exact E.
      * exists (String c pre), post. rewrite append_cons. now rewrite E.
    + intros (pre & post & E). destruct pre as [|x pre].
      * left. eauto.
      * right. rewrite append_cons in E. injection E as -> ->. eauto.
Qed.

Lemma includes_false sub s : JS.includes sub s = false <-> ~ occursIn sub s.
Proof.
  rewrite <- includes_spec. destruct (JS.includes sub s); split; congruence.
Qed.

Lemma toLowerCase_app a b :
  JS.toLowerCase (a +:+ b) = JS.toLowerCase a +:+ JS.toLowerCase b.
Proof.
  induction a as [|x a IH]; [reflexivity|].
  rewrite append_cons. simpl. rewrite append_cons. now f_equal.
Qed.






Lemma drop_app n a b :
  (n <= String.length a)%nat -> JS.drop n (a +:+ b) = JS.drop n a +:+ b.
Proof.
  revert a. induction n as [|n IH]; intros a H; [reflexivity|].
  destruct a as [|c a]; simpl in H; [lia|].
  rewrite append_cons. simpl. apply IH. lia.
Qed.












(** *** Words survive trimming and the collapse of white space *)




Lemma trimEnd_fixed_app a b :
  JS.trimEnd a = a -> JS.trimEnd (a +:+ b) = a +:+ JS.trimEnd b.
Proof.
  induction a as [|c a IH]; [reflexivity|]. intros F. rewrite !append_cons.
  simpl in *. destruct (JS.trimEnd a) as [|x r] eqn:Ta.
  - destruct (JS.isWhiteSpace c); [discriminate|].
    injection F as <-. rewrite !append_nil_l. now destruct (JS.trimEnd b).
  - injection F as <-. rewrite (IH eq_refl). reflexivity.
Qed.






(** *** Parts of a string *)

Lemma occursIn_refl s : occursIn s s.
Proof. exists "", "". now rewrite append_nil_l, append_nil_r. Qed.

Lemma occursIn_trans a b c : occursIn a b -> occursIn b c -> occursIn a c.
Proof.
  intros (p & q & ->) (p' & q' & ->). exists (p' +:+ p), (q +:+ q').
  now rewrite !append_assoc.
Qed.

Lemma take_drop n s : JS.take n s +:+ JS.drop n s = s.
Proof.
  revert s. induction n as [|n IH]; intros [|c s]; simpl; try reflexivity.
  rewrite append_cons. now rewrite IH.
Qed.

Lemma substring_part i j s : occursIn (JS.substring i j s) s.
Proof.
  unfold JS.substring. cbv zeta.
  match goal with
  | |- occursIn (JS.take ?n (JS.drop ?lo s)) s =>
      exists (JS.take lo s), (JS.drop n (JS.drop lo s));
      now rewrite (take_drop n), (take_drop lo)
  end.
Qed.

Lemma trimStart_part s : exists pre, s = pre +:+ JS.trimStart s.
Proof.
  induction s as [|c s [pre IH]]; simpl; [now exists ""|].
  destruct (JS.isWhiteSpace c); [|now exists ""].
  exists (String c pre). rewrite append_cons. now f_equal.
Qed.

Lemma trimEnd_part s : exists post, s = JS.trimEnd s +:+ post.
Proof.
  induction s as [|c s [post IH]]; simpl; [now exists ""|].
  destruct (JS.trimEnd s) as [|d r].
  - rewrite append_nil_l in IH. subst post.
    destruct (JS.isWhiteSpace c); [now exists (String c s)|now exists s].
  - exists post. rewrite append_cons. now f_equal.
Qed.

Lemma trim_part s : occursIn (JS.trim s) s.
Proof.
  unfold JS.trim. destruct (trimStart_part s) as [pre E].
  destruct (trimEnd_part (JS.trimStart s)) as [post E'].
  exists pre, post. now rewrite <- E'.
Qed.

Lemma toLowerCase_part a b :
  occursIn a b -> occursIn (JS.toLowerCase a) (JS.toLowerCase b).
Proof.
  intros (p & q & ->). exists (JS.toLowerCase p), (JS.toLowerCase q).
  now rewrite !toLowerCase_app.
Qed.

(** *** Patterns that match nowhere *)

Lemma startsWithCI_lower p s :
  Re.startsWithCI p s = JS.startsWith (JS.toLowerCase p) (JS.toLowerCase s).
Proof.
  revert s. induction p as [|a p IH]; intros [|b s]; simpl; try reflexivity.
  now rewrite IH.
Qed.

Lemma removeAll_nowhere (m : string -> option nat) s :
  (forall pre post, s = pre +:+ post -> m post = None) -> Re.removeAll m s = s.
Proof.
  unfold Re.removeAll. induction s as [|c s IH]; intros H; [reflexivity|].
  simpl. rewrite (H "" (String c s) eq_refl). f_equal. apply IH.
  intros pre post ->. apply (H (String c pre)). now rewrite append_cons.
Qed.

(** A pattern that begins with a text absent from [s] matches nowhere in
    [s]. *)
Lemma removeAll_absent (m : string -> option nat) marker s :
  (forall t, Re.startsWithCI marker t = false -> m t = None) ->
  ~ occursIn (JS.toLowerCase marker) (JS.toLowerCase s) ->
  Re.removeAll m s = s.
Proof.
  intros Hm No. apply removeAll_nowhere. intros pre post ->. apply Hm.
  destruct (Re.startsWithCI marker post) eqn:E; [|reflexivity].
  exfalso. apply No. rewrite startsWithCI_lower in E.
  apply startsWith_spec in E as [rest E].
  exists (JS.toLowerCase pre), rest. now rewrite toLowerCase_app, E.
Qed.

Lemma lazyMatch_none prefix suffix t :
  Re.startsWithCI prefix t = false -> Re.lazyMatch prefix suffix t = None.
Proof. intros F. unfold Re.lazyMatch. now rewrite F. Qed.

Lemma edgeLogoMatch_none t :
  Re.startsWithCI "Edge_Logo_" t = false -> Re.edgeLogoMatch t = None.
Proof. intros F. cbv beta delta [Re.edgeLogoMatch]. now rewrite F. Qed.

End StringProps.

(** ** Concept resolution *)

Module ConceptProps.

Import Service StringProps ListProps Spec.

Lemma conceptMatches_spec n entry : conceptMatches n entry = true <-> contains n entry.1.
Proof.
  unfold conceptMatches, contains. now rewrite orb_true_iff, !includes_spec.
Qed.

Lemma conceptMatches_false n entry : conceptMatches n entry = false <-> ~ contains n entry.1.
Proof.
  rewrite <- conceptMatches_spec. destruct (conceptMatches n entry); split; congruence.
Qed.

(** C8. [getConceptDocs] lower-cases the phrase and takes the first entry
    of the concept table whose key occurs in the phrase or holds the
    phrase: with no such entry it fails with a [NotFoundError] that names
    the phrase, without touching the state; otherwise it is the fetch and
    extraction of the developer page at the path of that first entry, a
    failed fetch being reported as a [NotFoundError]. One of the two cases
    always applies. *)
Theorem getConceptDocs_first_match httpService parser concept w :
  let n := JS.toLowerCase concept in
  ((forall key path, (key, path) ∈ conceptMappings -> ~ contains n key) ->
     getConceptDocs httpService parser concept w
     = (Eff.fail (NotFoundError ("Concept not found: " +:+ concept)), w))
  /\ (forall i key path,
        conceptMappings !! i = Some (key, path) -> contains n key ->
        (forall j key' path', (j < i)%nat ->
           conceptMappings !! j = Some (key', path') -> ~ contains n key') ->
        getConceptDocs httpService parser concept w
        = fetchDocumentationPage httpService parser (developerBase +:+ path) w)
  /\ ((forall key path, (key, path) ∈ conceptMappings -> ~ contains n key)
      \/ exists i key path,
           conceptMappings !! i = Some (key, path) /\ contains n key
           /\ forall j key' path', (j < i)%nat ->
                conceptMappings !! j = Some (key', path') -> ~ contains n key')
  /\ (forall url page w1,
        fetchPage httpService url w = (page, w1) ->
        (fetchDocumentationPage httpService parser url w).2 = w1
        /\ forall w2,
             (fetchDocumentationPage httpService parser url w).1 w2
             = match page w2 with
               | (Success html, w3) =>
                   match parseDocumentationPage parser html url with
                   | inr doc => (Success doc, w3)
                   | inl (FetchError _) =>
                       (Failure (NotFoundError ("Documentation page not found: " +:+ url)), w3)
                   | inl e => (Failure e, w3)
                   end
               | (Failure (FetchError _), w3) =>
                   (Failure (NotFoundError ("Documentation page not found: " +:+ url)), w3)
               | (Failure e, w3) => (Failure e, w3)
               | (Pending, w3) => (Pending, w3)
               end).
Proof.
  intros n. split; [|split; [|split]].
  - intros Hnone. unfold getConceptDocs. fold n.
    pose proof (find_first (conceptMatches n) conceptMappings) as F.
    destruct (List.find _ _) as [[key path]|]; [|reflexivity].
    destruct F as (i & Hi & Hm & _). apply conceptMatches_spec in Hm.
    exfalso. apply (Hnone key path); [|exact Hm].
    apply list_elem_of_lookup. eauto.
  - intros i key path Hi Hc Hlt. unfold getConceptDocs. fold n.
    rewrite (find_first_unique (conceptMatches n) conceptMappings i (key, path) Hi).
    + reflexivity.
    + now apply (conceptMatches_spec n (key, path)).
    + intros j [key' path'] Hj Hy. apply conceptMatches_false. simpl. eauto.
  - pose proof (find_first (conceptMatches n) conceptMappings) as F.
    destruct (List.find _ _) as [[key path]|].
    + right. destruct F as (i & Hi & Hm & Hlt). exists i, key, path.
      split; [exact Hi|]. split; [now apply (conceptMatches_spec n (key, path))|].
      intros j key' path' Hj Hy.
      apply (conceptMatches_false n (key', path')). eauto.
    + left. intros key path Hin. apply (conceptMatches_false n (key, path)). auto.
  - intros url page w1 Hf. unfold fetchDocumentationPage. rewrite Hf. simpl.
    split; [reflexivity|]. intros w2.
    unfold Eff.mapError, Eff.flatMap, liftTry.
    destruct (page w2) as [[html|e|] w3]; [|destruct e; reflexivity|reflexivity].
    destruct (parseDocumentationPage parser html url) as [e|doc]; [|reflexivity].
    destruct e; reflexivity.
Qed.

(** [DHT basics] holds the keys [dht] and [basics]; the table has [dht]
    first, so the page on the DHT is the one fetched. *)
Lemma getConceptDocs_first_match_witness :
  getConceptDocs (Http.HttpServiceLive (always NoReply))
    (Parser.DocumentationParserLive Run.loadPlainText Run.literalRegExp)
    "DHT basics" (mkWorld ∅ ∅ 0)
  = fetchDocumentationPage
      (Http.HttpServiceLive (always NoReply))
      (Parser.DocumentationParserLive Run.loadPlainText Run.literalRegExp)
      "https://developer.holochain.org/concepts/4_dht" (mkWorld ∅ ∅ 0).
Proof.
  apply (proj1 (proj2 (getConceptDocs_first_match
           (Http.HttpServiceLive (always NoReply))
           (Parser.DocumentationParserLive Run.loadPlainText Run.literalRegExp)
           "DHT basics" (mkWorld ∅ ∅ 0))) 1%nat "dht" "/concepts/4_dht").
  - reflexivity.
  - left. apply includes_spec. reflexivity.
  - intros j key' path' Hj Hy. destruct j as [|j]; [|lia].
    injection Hy as <- <-. intros [H|H]; apply includes_spec in H; discriminate.
Defined.

End ConceptProps.

(** ** Effects that always end well *)

Module EffProps.

Import Spec.

Lemma map_inv {A B} (f : A -> B) m w b w' :
  Eff.map f m w = (Success b, w') -> exists a, m w = (Success a, w') /\ b = f a.
Proof.
  unfold Eff.map. destruct (m w) as [[a|e|] w1]; intros [= <- <-] || intros [=].
  eauto.
Qed.

Lemma flatMap_inv {A B} (k : A -> Effect B) m w b w' :
  Eff.flatMap k m w = (Success b, w') ->
  exists a w1, m w = (Success a, w1) /\ k a w1 = (Success b, w').
Proof.
  unfold Eff.flatMap. destruct (m w) as [[a|e|] w1]; try discriminate. eauto.
Qed.

Lemma catchAll_inv {A} (h : Cause -> Effect A) m w a w' :
  Eff.catchAll h m w = (Success a, w') ->
  m w = (Success a, w')
  \/ exists e w1, m w = (Failure e, w1) /\ h e w1 = (Success a, w').
Proof.
  unfold Eff.catchAll. destruct (m w) as [[x|e|] w1]; try discriminate; eauto.
Qed.

Lemma succeed_always {A} (a : A) : alwaysSucceeds (Eff.succeed a).
Proof. intros w. unfold Eff.succeed. eauto. Qed.

Lemma map_always {A B} (f : A -> B) m : alwaysSucceeds m -> alwaysSucceeds (Eff.map f m).
Proof.
  intros H w. unfold Eff.map. destruct (H w) as (a & w' & ->). eauto.
Qed.

Lemma flatMap_always {A B} (k : A -> Effect B) m :
  alwaysSucceeds m -> (forall a, alwaysSucceeds (k a)) ->
  alwaysSucceeds (Eff.flatMap k m).
Proof.
  intros H K w. unfold Eff.flatMap. destruct (H w) as (a & w' & ->). apply K.
Qed.

Lemma all_always {A} (ms : list (Effect A)) :
  Forall alwaysSucceeds ms -> alwaysSucceeds (Eff.all ms).
Proof.
  induction 1 as [|m ms Hm _ IH]; simpl.
  - apply succeed_always.
  - apply flatMap_always; [exact Hm|]. intros a. now apply map_always.
Qed.

(** A failure handled by an effect that ends well: all that is left to go
    wrong is not to end. *)
Lemma catchAll_always {A} (h : Cause -> Effect A) m :
  noPending m -> (forall e, alwaysSucceeds (h e)) -> alwaysSucceeds (Eff.catchAll h m).
Proof.
  intros NP H w. unfold Eff.catchAll. specialize (NP w).
  destruct (m w) as [[a|e|] w1]; simpl in NP; [eauto|apply H|congruence].
Qed.

Lemma map_noPending {A B} (f : A -> B) m : noPending m -> noPending (Eff.map f m).
Proof.
  intros NP w. specialize (NP w). unfold Eff.map.
  destruct (m w) as [[a|e|] w1]; simpl in *; congruence.
Qed.

Lemma flatMap_noPending {A B} (k : A -> Effect B) m :
  noPending m -> (forall a, noPending (k a)) -> noPending (Eff.flatMap k m).
Proof.
  intros NP K w. specialize (NP w). unfold Eff.flatMap.
  destruct (m w) as [[a|e|] w1]; simpl in *; [apply K|congruence|congruence].
Qed.

Lemma liftTry_noPending {A} (r : Cause + A) : noPending (Service.liftTry r).
Proof. intros w. unfold Service.liftTry. destruct r; simpl; congruence. Qed.

Lemma mapCalls_Forall {A B} (P : Effect B -> Prop) (f : A -> Call B) l w :
  (forall x w, P (f x w).1) -> Forall P (Eff.mapCalls f l w).1.
Proof.
  intros H. revert w. induction l as [|x l IH]; intros w; simpl; [constructor|].
  specialize (H x w). destruct (f x w) as [m w1]. specialize (IH w1).
  destruct (Eff.mapCalls f l w1) as [ms w2]. simpl in *. now constructor.
Qed.

Lemma run_always {A} (c : Call A) :
  (forall w, alwaysSucceeds (c w).1) -> alwaysSucceeds (Eff.run c).
Proof.
  intros H w. unfold Eff.run. specialize (H w). destruct (c w) as [m w1]. apply H.
Qed.

(** The effect that [fetchPage] returns always ends. *)
Lemma fetchPage_noPending env url w : noPending (Http.fetchPage env url w).1.
Proof.
  unfold Http.fetchPage.
  destruct (cacheRead (clock w) url (pageCache w)) as [[c|] cache].
  - simpl. intros w1. unfold Eff.succeed. simpl. congruence.
  - destruct (JS.includes _ url); cbn [fst]; intros w1.
    + rewrite FetchProps.renderedFetch_cases. cbv zeta.
      destruct (newPage env url _); [|cbn [fst]; congruence].
      destruct (Http.loadPage env url _) as [[reason|c] w2]; [cbn [fst]; congruence|].
      destruct (close env url _); cbn [fst]; congruence.
    + rewrite FetchProps.staticFetch_cases. cbv zeta.
      destruct (_ <? _); [destruct (respond env url (clock w1))|]; cbn [fst]; congruence.
Qed.

End EffProps.

(** ** Search *)

Module SearchProps.

Import Service EffProps Spec.

Section Sorting.

Context {A : Type} (key : A -> Z).

Lemma insertBy_elem x l z : z ∈ insertBy key x l <-> z = x \/ z ∈ l.
Proof.
  induction l as [|y l IH]; simpl.
  - rewrite list_elem_of_singleton, elem_of_nil. tauto.
  - destruct (key x <=? key y).
    + rewrite elem_of_cons. tauto.
    + rewrite !elem_of_cons, IH. tauto.
Qed.

Lemma insertBy_sorted x l :
  StronglySorted (byKey key) l -> StronglySorted (byKey key) (insertBy key x l).
Proof.
  induction l as [|y l IH]; intros H; simpl.
  - repeat constructor.
  - apply StronglySorted_cons in H. destruct H as [Hy Hl].
    destruct (Z.leb_spec (key x) (key y)) as [L|L]; apply StronglySorted_cons.
    + split; [|apply StronglySorted_cons; auto].
      constructor; [exact L|]. eapply Forall_impl; [exact Hy|].
      unfold byKey. simpl. intros; lia.
    + split; [|auto]. apply Forall_forall. intros z Hz.
      apply insertBy_elem in Hz as [->|Hz]; [unfold byKey; lia|].
      rewrite Forall_forall in Hy. auto.
Qed.

Lemma sortBy_sorted l : StronglySorted (byKey key) (sortBy key l).
Proof.
  induction l as [|x l IH]; simpl; [constructor|]. now apply insertBy_sorted.
Qed.

Lemma sortBy_elem l z : z ∈ sortBy key l <-> z ∈ l.
Proof.
  induction l as [|x l IH]; simpl; [reflexivity|].
  rewrite insertBy_elem, elem_of_cons, IH. reflexivity.
Qed.

Lemma insertBy_length x l : length (insertBy key x l) = S (length l).
Proof.
  induction l as [|y l IH]; simpl; [reflexivity|].
  destruct (key x <=? key y); simpl; [reflexivity|now rewrite IH].
Qed.

Lemma sortBy_length l : length (sortBy key l) = length l.
Proof.
  induction l as [|x l IH]; simpl; [reflexivity|]. now rewrite insertBy_length, IH.
Qed.

End Sorting.

Lemma StronglySorted_mono {A} (R R' : A -> A -> Prop) l :
  (forall a b, R a b -> R' a b) -> StronglySorted R l -> StronglySorted R' l.
Proof.
  intros M. induction 1 as [|x l _ IH F]; constructor; [exact IH|].
  eapply Forall_impl; [exact F|]. apply M.
Qed.

Lemma rank_ranked rs : ranked (rank rs).
Proof.
  unfold ranked, rank. split.
  - rewrite length_firstn. lia.
  - pose proof (sortBy_sorted snippetKey rs) as S.
    rewrite <- (firstn_skipn 5 (sortBy snippetKey rs)) in S.
    apply StronglySorted_app_1_l in S. unfold longestFirst.
    eapply StronglySorted_mono; [|exact S].
    unfold byKey, snippetKey. intros a b. simpl. lia.
Qed.

(** The results kept are results found, and a result is dropped only
    when five are kept. *)
Lemma rank_elem rs r : r ∈ rank rs -> r ∈ rs.
Proof.
  unfold rank. intros H. apply (sortBy_elem snippetKey).
  rewrite <- (firstn_skipn 5 (sortBy snippetKey rs)). set_solver.
Qed.

Lemma rank_length rs : length (rank rs) = Nat.min 5 (length rs).
Proof. unfold rank. now rewrite length_firstn, sortBy_length. Qed.

(** *** A search never fails *)

Section NeverFails.

Variable env : Env.
Variable parser : DocumentationParser.

Let http := Http.HttpServiceLive env.

Lemma searchPage_always query url w :
  alwaysSucceeds (searchPage http parser query url w).1.
Proof.
  unfold searchPage. simpl.
  pose proof (fetchPage_noPending env url w) as NP.
  destruct (Http.fetchPage env url w) as [page w1]. simpl in *.
  apply catchAll_always; [|intros e; apply succeed_always].
  apply map_noPending, flatMap_noPending; [exact NP|].
  intros html. apply liftTry_noPending.
Qed.

Lemma searchUrls_always urls query w :
  alwaysSucceeds (searchUrls http parser urls query w).1.
Proof.
  unfold searchUrls.
  pose proof (mapCalls_Forall alwaysSucceeds (searchPage http parser query) urls w
                (searchPage_always query)) as F.
  destruct (Eff.mapCalls _ urls w) as [effects w1]. simpl in *.
  now apply map_always, map_always, all_always.
Qed.

Lemma andThen_always wanted search acc :
  (forall w, alwaysSucceeds (search w).1) ->
  alwaysSucceeds (andThen wanted search acc).
Proof.
  intros H. unfold andThen. destruct wanted; [|apply succeed_always].
  now apply map_always, run_always.
Qed.

Lemma searchProgram_always query source :
  alwaysSucceeds (searchProgram http parser query source).
Proof.
  unfold searchProgram.
  repeat (apply flatMap_always; [|intros acc]);
    apply andThen_always; intros w; apply searchUrls_always.
Qed.

(** C9. With the page fetcher of the server, whatever the network does and
    whatever the parser returns: the effect built for one page of a search
    always ends with a list, and that list is empty when the fetch of the
    page or its parsing fails; the searches of the developer pages and of
    the Rust documentation, the search program and the tool handler always
    end with a list of results. *)
Theorem search_never_fails :
  (forall query url w, alwaysSucceeds (searchPage http parser query url w).1)
  /\ (forall query url w w1 e w2,
        Eff.flatMap
          (fun html =>
             liftTry (parseSearchResults parser html url
                        (JS.splitSpace (JS.toLowerCase query))))
          (Http.fetchPage env url w).1 w1 = (Failure e, w2) ->
        (searchPage http parser query url w).1 w1 = (Success [], w2))
  /\ (forall query, alwaysSucceeds (Eff.run (searchDeveloperDocs http parser query)))
  /\ (forall query docType,
        alwaysSucceeds (Eff.run (searchRustDocs http parser query docType)))
  /\ (forall query source, alwaysSucceeds (searchProgram http parser query source))
  /\ (forall query source,
        alwaysSucceeds (search_holochain_docs http parser query source)).
Proof.
  split; [exact searchPage_always|]. split; [|split; [|split; [|split]]].
  - intros query url w w1 e w2 H. unfold searchPage. simpl.
    destruct (Http.fetchPage env url w) as [page w0]. simpl in *.
    unfold Eff.catchAll, Eff.map. now rewrite H.
  - intros query. apply run_always. intros w. apply searchUrls_always.
  - intros query docType. apply run_always. intros w. apply searchUrls_always.
  - exact searchProgram_always.
  - intros query source w. unfold search_holochain_docs, Eff.catchAll.
    destruct (searchProgram_always query source w) as (rs & w' & ->). eauto.
Qed.

End NeverFails.

(** With every connection refused, the page of a search gives the empty
    list. *)
Lemma search_never_fails_witness :
  (searchPage (Http.HttpServiceLive refused)
     (Parser.DocumentationParserLive Run.loadPlainText Run.literalRegExp)
     "dht" "https://docs.rs/hdk/latest/hdk/entry/index.html" (mkWorld ∅ ∅ 0)).1
    (mkWorld ∅ ∅ 0)
  = (Success [], mkWorld ∅ ∅ 0).
Proof.
  apply (proj1 (proj2 (search_never_fails refused
           (Parser.DocumentationParserLive Run.loadPlainText Run.literalRegExp)))
           "dht" "https://docs.rs/hdk/latest/hdk/entry/index.html"
           (mkWorld ∅ ∅ 0) (mkWorld ∅ ∅ 0)
           (FetchError "Timeout fetching: https://docs.rs/hdk/latest/hdk/entry/index.html")).
  reflexivity.
Defined.

(** *** The order and number of the results *)

Lemma searchUrls_ranked http parser urls query w w1 rs w2 :
  (searchUrls http parser urls query w).1 w1 = (Success rs, w2) -> ranked rs.
Proof.
  unfold searchUrls. destruct (Eff.mapCalls _ urls w) as [effects w0]. simpl.
  intros H. apply map_inv in H as (found & _ & ->). apply rank_ranked.
Qed.

Lemma run_searchUrls_ranked http parser urls query w rs w' :
  Eff.run (searchUrls http parser urls query) w = (Success rs, w') -> ranked rs.
Proof.
  unfold Eff.run.
  pose proof (searchUrls_ranked http parser urls query w) as H.
  destruct (searchUrls http parser urls query w) as [m w1]. apply H.
Qed.

Lemma andThen_inv wanted search acc w rs w' :
  andThen wanted search acc w = (Success rs, w') ->
  if wanted
  then exists found, Eff.run search w = (Success found, w') /\ rs = (acc ++ found)%list
  else rs = acc /\ w' = w.
Proof.
  unfold andThen. destruct wanted.
  - intros H. apply map_inv in H as (found & H & ->). eauto.
  - unfold Eff.succeed. now intros [= <- <-].
Qed.

Lemma ranked_nil : ranked [].
Proof. split; [simpl; lia|constructor]. Qed.

(** The searches swallow every failure, with any page fetcher and any
    parser. *)
Lemma map_neverFails {A B} (f : A -> B) m : neverFails m -> neverFails (Eff.map f m).
Proof.
  intros N w e w'. unfold Eff.map. specialize (N w).
  destruct (m w) as [[a|e0|] w1]; [discriminate| |discriminate].
  exfalso. now apply (N e0 w1).
Qed.

Lemma flatMap_neverFails {A B} (k : A -> Effect B) m :
  neverFails m -> (forall a, neverFails (k a)) -> neverFails (Eff.flatMap k m).
Proof.
  intros N K w e w'. unfold Eff.flatMap. specialize (N w).
  destruct (m w) as [[a|e0|] w1]; [apply K| |discriminate].
  exfalso. now apply (N e0 w1).
Qed.

Lemma all_neverFails {A} (ms : list (Effect A)) :
  Forall neverFails ms -> neverFails (Eff.all ms).
Proof.
  induction 1 as [|m ms Hm _ IH]; simpl.
  - intros w e w'. unfold Eff.succeed. discriminate.
  - apply flatMap_neverFails; [exact Hm|]. intros a. now apply map_neverFails.
Qed.

Lemma searchPage_neverFails http parser query url w :
  neverFails (searchPage http parser query url w).1.
Proof.
  unfold searchPage. destruct (fetchPage http url w) as [page w1]. cbn [fst].
  intros w0 e w'. unfold Eff.catchAll, Eff.succeed.
  destruct (Eff.map _ _ w0) as [[a|e0|] w2]; discriminate.
Qed.

Lemma searchUrls_neverFails http parser urls query :
  neverFails (Eff.run (searchUrls http parser urls query)).
Proof.
  intros w. unfold Eff.run, searchUrls.
  pose proof (mapCalls_Forall neverFails (searchPage http parser query) urls w
                (searchPage_neverFails http parser query)) as F.
  destruct (Eff.mapCalls _ urls w) as [effects w1]. cbn [fst] in F.
  now apply map_neverFails, map_neverFails, all_neverFails.
Qed.

Lemma andThen_neverFails http parser wanted urls query acc :
  neverFails (andThen wanted (searchUrls http parser urls query) acc).
Proof.
  unfold andThen. destruct wanted.
  - apply map_neverFails, searchUrls_neverFails.
  - intros w e w'. unfold Eff.succeed. discriminate.
Qed.

Lemma searchProgram_neverFails http parser query source :
  neverFails (searchProgram http parser query source).
Proof.
  unfold searchProgram.
  repeat (apply flatMap_neverFails; [|intros acc]); apply andThen_neverFails.
Qed.

(** A list that is in the order of the search has no longer snippet
    after a shorter one. *)
Lemma longestFirst_lookup rs i j a b :
  longestFirst rs -> (i < j)%nat -> rs !! i = Some a -> rs !! j = Some b ->
  (String.length (sr_snippet b) <= String.length (sr_snippet a))%nat.
Proof.
  unfold longestFirst. intros S. revert i j.
  induction S as [|x l _ IH F]; intros i j Lt Hi Hj; [discriminate|].
  destruct j as [|j]; [lia|]. cbn in Hj. destruct i as [|i]; cbn in Hi.
  - injection Hi as <-. rewrite Forall_forall in F. apply F.
    apply list_elem_of_lookup. eauto.
  - apply (IH i j); [lia|exact Hi|exact Hj].
Qed.

(** More than the five results of the specification, and no order of
    the whole: asked for [all], when every known page mentions the query
    and the developer pages are the shorter ones, the tool returns five
    results of each of the three sources, fifteen in all, those of the
    developer pages first although their snippets are the shortest. *)
Lemma search_all_returns_fifteen :
  exists rs w',
    search_holochain_docs (Http.HttpServiceLive dhtUneven)
      (Parser.DocumentationParserLive Run.loadPlainText Run.literalRegExp)
      "dht" (Some all) (mkWorld ∅ ∅ 0) = (Success rs, w')
    /\ length rs = 15%nat
    /\ ~ longestFirst rs.
Proof.
  eexists _, _. split; [vm_compute; reflexivity|]. split; [reflexivity|].
  intros S.
  pose proof (longestFirst_lookup _ 0 5 _ _ S ltac:(lia) eq_refl eq_refl) as L.
  vm_compute in L. lia.
Qed.

(** C2 (amended). A search of one source, be it the developer pages or
    one of the two Rust documentation sets, returns at most five results,
    longest snippet first, and the tool asked for one source returns what
    the search of that source returns. Asked for [all] (the default), the
    tool searches the developer pages, then the hdk pages, then the hdi
    pages, and returns the three lists one after the other in that order:
    each has at most five results, longest snippet first, and the whole
    has at most fifteen. *)
Theorem search_ranked_per_source http parser query :
  (forall w rs w',
     Eff.run (searchDeveloperDocs http parser query) w = (Success rs, w') -> ranked rs)
  /\ (forall docType w rs w',
        Eff.run (searchRustDocs http parser query docType) w = (Success rs, w') ->
        ranked rs)
  /\ (forall source w rs w',
        search_holochain_docs http parser query source w = (Success rs, w') ->
        match source with
        | Some developer =>
            Eff.run (searchDeveloperDocs http parser query) w = (Success rs, w')
            /\ ranked rs
        | Some hdkDocs =>
            Eff.run (searchRustDocs http parser query hdk) w = (Success rs, w')
            /\ ranked rs
        | Some hdiDocs =>
            Eff.run (searchRustDocs http parser query hdi) w = (Success rs, w')
            /\ ranked rs
        | Some all | None =>
            exists dev hdk' hdi' w1 w2,
              Eff.run (searchDeveloperDocs http parser query) w = (Success dev, w1)
              /\ Eff.run (searchRustDocs http parser query hdk) w1 = (Success hdk', w2)
              /\ Eff.run (searchRustDocs http parser query hdi) w2 = (Success hdi', w')
              /\ rs = (dev ++ hdk' ++ hdi')%list
              /\ ranked dev /\ ranked hdk' /\ ranked hdi'
              /\ (length rs <= 15)%nat
        end).
Proof.
  split; [|split].
  - intros w rs w'. apply run_searchUrls_ranked.
  - intros docType w rs w'. apply run_searchUrls_ranked.
  - intros source w rs w' H. unfold search_holochain_docs in H.
    apply catchAll_inv in H as [H|(e & w1 & F & _)];
      [|now apply searchProgram_neverFails in F].
    unfold searchProgram in H.
    apply flatMap_inv in H as (acc2 & w2 & H & H3).
    apply flatMap_inv in H as (acc1 & w1 & H1 & H2).
    apply andThen_inv in H1, H2, H3.
    destruct source as [[| | |]|]; cbn [wants] in H1, H2, H3;
      repeat match goal with
             | H : exists _, _ |- _ =>
                 let found := fresh "found" in
                 let R := fresh "R" in
                 destruct H as (found & R & ?)
             | H : _ /\ _ |- _ => destruct H
             end; subst; cbn [app].
    + pose proof (run_searchUrls_ranked _ _ _ _ _ _ _ R) as Rk.
      pose proof (run_searchUrls_ranked _ _ _ _ _ _ _ R0) as Rk0.
      pose proof (run_searchUrls_ranked _ _ _ _ _ _ _ R1) as Rk1.
      exists found1, found0, found, w1, w2. repeat (split; [assumption|]).
      split; [now rewrite <- app_assoc|]. repeat (split; [assumption|]).
      rewrite !length_app. destruct Rk, Rk0, Rk1. lia.
    + split; [exact R|]. now apply run_searchUrls_ranked in R.
    + split; [exact R|]. now apply run_searchUrls_ranked in R.
    + split; [exact R|]. now apply run_searchUrls_ranked in R.
    + pose proof (run_searchUrls_ranked _ _ _ _ _ _ _ R) as Rk.
      pose proof (run_searchUrls_ranked _ _ _ _ _ _ _ R0) as Rk0.
      pose proof (run_searchUrls_ranked _ _ _ _ _ _ _ R1) as Rk1.
      exists found1, found0, found, w1, w2. repeat (split; [assumption|]).
      split; [now rewrite <- app_assoc|]. repeat (split; [assumption|]).
      rewrite !length_app. destruct Rk, Rk0, Rk1. lia.
Qed.

(** The developer pages alone, all of them mentioning the query: five
    results. *)
Lemma search_ranked_per_source_witness :
  exists rs w',
    search_holochain_docs (Http.HttpServiceLive dhtEverywhere)
      (Parser.DocumentationParserLive Run.loadPlainText Run.literalRegExp)
      "dht" (Some developer) (mkWorld ∅ ∅ 0) = (Success rs, w')
    /\ length rs = 5%nat /\ ranked rs.
Proof.
  eexists _, _. split; [vm_compute; reflexivity|]. split; [reflexivity|].
  eapply (proj2 (proj2 (search_ranked_per_source (Http.HttpServiceLive dhtEverywhere)
            (Parser.DocumentationParserLive Run.loadPlainText Run.literalRegExp) "dht"))
            (Some developer) (mkWorld ∅ ∅ 0)).
  vm_compute. reflexivity.
Defined.

End SearchProps.

(** ** Discovery of the function index *)

Module DiscoveryProps.

Import Service EffProps Spec.

Lemma staticFetch_offline env url w :
  offline env ->
  exists m w', Http.staticFetch env url w = (Failure (FetchError m), w') /\ sameCaches w w'.
Proof.
  intros Off. rewrite FetchProps.staticFetch_cases. cbv zeta.
  destruct (_ <? _); [destruct (respond env url (clock w)) eqn:R|].
  - now destruct (Off url (clock w) html).
  - eexists _, _. split; [reflexivity|]. now split.
  - eexists _, _. split; [reflexivity|]. now split.
  - eexists _, _. split; [reflexivity|]. now split.
Qed.

Lemma fetchPage_offline env url w :
  pageCache w = ∅ -> JS.includes "developer.holochain.org" url = false ->
  Http.fetchPage env url w = (Http.staticFetch env url, w).
Proof.
  intros E D. unfold Http.fetchPage, cacheRead. rewrite E, lookup_empty, D.
  f_equal. destruct w. simpl in *. now subst.
Qed.

Section Offline.

Variable env : Env.
Variable parser : DocumentationParser.
Variable load : string -> Dom.Document.
Hypothesis env_offline : offline env.

Let http := Http.HttpServiceLive env.

(** The pages of the known modules are not on the developer site. *)
Lemma knownModules_static :
  Forall (fun module =>
            JS.includes "developer.holochain.org"
              (hdkBase +:+ "/" +:+ module +:+ "/index.html") = false)
    knownModules.
Proof. repeat constructor. Qed.

Lemma crawlModule_offline module w :
  pageCache w = ∅ ->
  JS.includes "developer.holochain.org"
    (hdkBase +:+ "/" +:+ module +:+ "/index.html") = false ->
  (crawlModule http load module w).2 = w
  /\ forall w1, exists w2,
       (crawlModule http load module w).1 w1 = (Success [], w2) /\ sameCaches w1 w2.
Proof.
  intros E D. unfold crawlModule. simpl. rewrite (fetchPage_offline _ _ _ E D).
  split; [reflexivity|]. intros w1. simpl.
  destruct (staticFetch_offline env (hdkBase +:+ "/" +:+ module +:+ "/index.html")
              w1 env_offline) as (m & w2 & F & S).
  exists w2. unfold Eff.catchAll, Eff.flatMap. now rewrite F.
Qed.

Lemma crawlModules_offline modules w :
  pageCache w = ∅ ->
  Forall (fun module =>
            JS.includes "developer.holochain.org"
              (hdkBase +:+ "/" +:+ module +:+ "/index.html") = false) modules ->
  (Eff.mapCalls (crawlModule http load) modules w).2 = w
  /\ forall w1, exists w2,
       Eff.all (Eff.mapCalls (crawlModule http load) modules w).1 w1
       = (Success (List.map (fun _ => []) modules), w2)
       /\ sameCaches w1 w2.
Proof.
  intros E F. induction F as [|module modules D _ IH]; simpl.
  - split; [reflexivity|]. intros w1. exists w1. now split.
  - destruct (crawlModule_offline module w E D) as [C1 C2].
    destruct (crawlModule http load module w) as [m w0]. simpl in *. subst w0.
    destruct IH as [I1 I2].
    destruct (Eff.mapCalls (crawlModule http load) modules w) as [ms w0].
    simpl in *. subst w0. split; [reflexivity|]. intros w1.
    destruct (C2 w1) as (w2 & R & [S1 S2]).
    destruct (I2 w2) as (w3 & R' & [S3 S4]).
    exists w3. simpl. unfold Eff.flatMap, Eff.map. rewrite R, R'.
    split; [reflexivity|]. split; congruence.
Qed.

(** C4 (as the code behaves). When every fetch fails, on a server that
    has cached nothing: the index page cannot be parsed, the fallback crawl
    of the module pages finds nothing, no curated table is added on that
    path, and the discovery succeeds with the empty index, which it also
    stores in the function cache. *)
Theorem discovery_empty_when_offline w :
  pageCache w = ∅ ->
  hdkFunctionCache w !! "hdk_functions" = None ->
  exists w',
    Eff.run (discoverHDKFunctions http parser load) w = (Success [], w')
    /\ hdkFunctionCache w' !! "hdk_functions" = Some ([], clock w').
Proof.
  intros E N. unfold Eff.run, discoverHDKFunctions. rewrite N. simpl.
  rewrite (fetchPage_offline env (hdkBase +:+ "/index.html") w E eq_refl).
  destruct (staticFetch_offline env (hdkBase +:+ "/index.html") w env_offline)
    as (m & w1 & F & [S1 S2]).
  unfold Eff.catchAll, Eff.tapSync, Eff.flatMap at 1. rewrite F.
  assert (pageCache w1 = ∅) as E1 by congruence.
  unfold Eff.run, discoverHDKFunctionsFallback.
  destruct (crawlModules_offline knownModules w1 E1 knownModules_static) as [C1 C2].
  destruct (Eff.mapCalls (crawlModule http load) knownModules w1) as [effects w0].
  simpl in C1, C2. subst w0. destruct (C2 w1) as (w2 & R & _).
  unfold Eff.tapSync, Eff.map. rewrite R. cbn [List.concat app uniqueFunctions fold_left].
  eexists. split; [reflexivity|]. unfold cacheFunctions. simpl.
  apply lookup_insert_eq.
Qed.

End Offline.

(** The discovery on a fresh server without network. *)
Lemma discovery_empty_when_offline_witness :
  exists w',
    Eff.run (discoverHDKFunctions (Http.HttpServiceLive refused)
               (Parser.DocumentationParserLive Run.loadPlainText Run.literalRegExp)
               Run.loadPlainText) (mkWorld ∅ ∅ 0) = (Success [], w')
    /\ hdkFunctionCache w' !! "hdk_functions" = Some ([], clock w').
Proof.
  apply (discovery_empty_when_offline refused
           (Parser.DocumentationParserLive Run.loadPlainText Run.literalRegExp)
           Run.loadPlainText).
  - intros url t html. discriminate.
  - reflexivity.
  - reflexivity.
Defined.

End DiscoveryProps.

(** ** The relevance scorer *)

Module ScorerProps.

Import Dom Parser StringProps ListProps Spec.

(** *** Windows *)

Lemma window_part text index : occursIn (window text index) text.
Proof.
  unfold window. eapply occursIn_trans; [apply trim_part|apply substring_part].
Qed.



(** *** Texts that the clean-up leaves alone *)

Lemma altMatch_none alts t :
  (forall a, a ∈ alts -> Re.startsWithCI a t = false) -> Re.altMatch alts t = None.
Proof.
  induction alts as [|a alts IH]; intros H; [reflexivity|].
  simpl. rewrite (H a) by left. apply IH. intros b Hb. apply H. now right.
Qed.

(** Alternatives that are all absent from [s] match nowhere in [s]. *)
Lemma removeAll_alternatives_absent alts s :
  (forall a, a ∈ alts -> ~ occursCI a s) -> Re.removeAll (Re.altMatch alts) s = s.
Proof.
  intros No. apply removeAll_nowhere. intros pre post ->. apply altMatch_none.
  intros a Ha. destruct (Re.startsWithCI a post) eqn:E; [|reflexivity].
  exfalso. apply (No a Ha). rewrite startsWithCI_lower in E.
  apply startsWith_spec in E as [rest E]. unfold occursCI.
  exists (JS.toLowerCase pre), rest. now rewrite toLowerCase_app, E.
Qed.

(** What is absent from a text is absent from its parts. *)
Lemma absent_part marker s part :
  occursIn part s -> ~ occursCI marker s -> ~ occursCI marker part.
Proof.
  intros P No O. apply No. unfold occursCI in *.
  eapply occursIn_trans; [exact O|]. now apply toLowerCase_part.
Qed.

(** A text without the boilerplate texts has no boilerplate in its
    parts. *)
Lemma noMarkers_part s part : occursIn part s -> noMarkers s -> noBoilerplate part.
Proof.
  intros P (C & Y & E).
  unfold noBoilerplate, Re.removeCircle, Re.removeYouTube, Re.removeEdgeLogo.
  rewrite (removeAll_absent (Re.lazyMatch "Circle with shading containing" "statistic")
             "Circle with shading containing" part);
    [|intros t; apply lazyMatch_none|exact (absent_part _ _ _ P C)].
  rewrite (removeAll_absent (Re.lazyMatch "YouTube play video icon" "logo")
             "YouTube play video icon" part);
    [|intros t; apply lazyMatch_none|exact (absent_part _ _ _ P Y)].
  apply (removeAll_absent Re.edgeLogoMatch "Edge_Logo_");
    [intros t; apply edgeLogoMatch_none|exact (absent_part _ _ _ P E)].
Qed.

Lemma noLabels_part s part : occursIn part s -> noLabels s -> Re.removeLabels part = part.
Proof.
  intros P (N & M & H & F). unfold Re.removeLabels.
  apply removeAll_alternatives_absent. intros a Ha.
  repeat (apply elem_of_cons in Ha as [->|Ha]; [now apply (absent_part _ s)|]).
  now apply elem_of_nil in Ha.
Qed.

(** A body without the boilerplate texts has none in its windows. *)
Lemma noMarkers_noBoilerplate doc term :
  noMarkers (bodyText doc) -> noBoilerplate (bodyWindow doc term).
Proof. apply noMarkers_part, window_part. Qed.

(** On a tidy page the clean-up finds nothing to remove. *)
Lemma tidy_untouched doc term : tidy doc -> untouched doc term.
Proof.
  intros [B M]. split; [now apply noMarkers_noBoilerplate|].
  intros sel Hsel. destruct (M sel Hsel) as [Mk Lb].
  assert (occursIn (mainWindow doc sel term) (text (select sel doc))) as P.
  { unfold mainWindow, mainContent.
    eapply occursIn_trans; [apply window_part|apply trim_part]. }
  split; [exact (noMarkers_part _ _ P Mk)|exact (noLabels_part _ _ P Lb)].
Qed.

(** *** The snippet holds the term *)





Section WithLibraries.

Variable load : string -> Document.
Variable RegExp_gi : string -> string + (string -> nat).


Lemma relevanceScore_refused terms content acc t err :
  t ∈ terms -> RegExp_gi t = inl err ->
  exists err', relevanceScore RegExp_gi terms content acc = inl err'.
Proof.
  revert acc. induction terms as [|t' terms IH]; intros acc Ht E.
  - now apply elem_of_nil in Ht.
  - simpl. destruct (RegExp_gi t') as [err'|count] eqn:E'; [eauto|].
    apply elem_of_cons in Ht as [->|Ht]; [congruence|]. now apply IH.
Qed.


(** A term that is not a regular expression: the scorer fails. *)
Lemma error_when_refused html url terms t err :
  t ∈ terms -> RegExp_gi t = inl err ->
  exists message, parseSearchResults load RegExp_gi html url terms = inl (ParseError message).
Proof.
  intros Ht E. unfold parseSearchResults.
  destruct (relevanceScore_refused terms
              (JS.toLowerCase (text (select (tag "body") (load html)))) 0 t err Ht E)
    as [err' ->]. eauto.
Qed.




End WithLibraries.



End ScorerProps.

(** ** The extractor for docs.rs *)

Module ExtractorProps.

Import Dom Parser StringProps Spec.

Lemma withSignature_first gathered :
  leavesSignatureFirst gathered ->
  exists rest,
    withSignature signature gathered = signatureLine +:+ LF +:+ LF +:+ rest
    /\ (50 <= String.length (withSignature signature gathered))%nat.
Proof.
  unfold withSignature, signature. intros [->|[[L U]|(L & E & I)]].
  - eexists. split; [reflexivity|]. vm_compute. lia.
  - apply Nat.ltb_lt in U. rewrite U. destruct gathered as [|c g]; [simpl in L; lia|].
    exists (String c g). split; [reflexivity|].
    cbn [orElse]. rewrite !length_append. simpl String.length in *. lia.
  - apply Nat.ltb_ge in L. rewrite L. unfold signature in I. rewrite E, I.
    exists gathered. split; [reflexivity|].
    apply Nat.ltb_ge in L. cbn [negb andb]. rewrite !length_append. lia.
Qed.

(** Trimming leaves alone a beginning that is itself trimmed. *)
Lemma trim_keeps_prefix c q u :
  JS.isWhiteSpace c = false -> JS.trimEnd (String c q) = String c q ->
  JS.trim (String c q +:+ u) = String c q +:+ JS.trimEnd u.
Proof.
  intros Hc F. unfold JS.trim. rewrite append_cons. simpl JS.trimStart.
  rewrite Hc, <- append_cons. now apply trimEnd_fixed_app.
Qed.

Lemma orElse_cons c q u d : orElse (String c q +:+ u) d = String c q +:+ u.
Proof. reflexivity. Qed.

Lemma startsWith_app p u : JS.startsWith p (p +:+ u) = true.
Proof. apply startsWith_spec. eauto. Qed.

(** The signature line survives the collapse of white space and the two
    trims at the end of the extraction. *)
Lemma signatureLine_survives rest :
  exists u,
    JS.trim (orElse (JS.trim (Re.collapseWhitespace (signatureLine +:+ LF +:+ LF +:+ rest)))
               "No documentation content found.")
    = signatureLine +:+ u.
Proof.
  assert (Re.collapseWhitespace (signatureLine +:+ LF +:+ LF +:+ rest)
          = signatureLine +:+ " " +:+ Re.collapseFrom true rest) as -> by reflexivity.
  unfold signatureLine.
  rewrite trim_keeps_prefix, orElse_cons, trim_keeps_prefix by reflexivity. eauto.
Qed.

(** A page without any of the fallback regions: nothing is gathered and
    the document stays as it is. *)
Lemma gatherRust_no_region selectors doc content :
  (forall sel, sel ∈ selectors -> select sel doc = []) ->
  gatherRust selectors doc content = (content, doc).
Proof.
  induction selectors as [|sel selectors IH]; intros H; [reflexivity|].
  simpl. rewrite (H sel) by left. apply IH. intros sel' Hin. apply H. now right.
Qed.

(** The keywords stay in the content: the page that holds only the
    signature gets the title without the keywords, but its content opens
    with the signature as the page has it, keywords included. *)
Lemma signature_line_keeps_keywords :
  parseDocumentationPage (fun _ => signaturePage)
    "<html><body><h1 class='fqn'>pub fn create_entry(...)</h1></body></html>"
    "https://docs.rs/hdk/latest/hdk/entry/fn.create_entry.html"
  = inr (mkDocumentationResult "create_entry(...)"
           "Function signature: pub fn create_entry(...) No additional documentation available."
           "https://docs.rs/hdk/latest/hdk/entry/fn.create_entry.html" "docs.rs/hdk")
  /\ JS.startsWith "Function signature: create_entry(...)"
       "Function signature: pub fn create_entry(...) No additional documentation available."
     = false.
Proof. split; vm_compute; reflexivity. Qed.

(** C7 (amended). For a docs.rs page whose [.fqn] text is
    [pub fn create_entry(...)], before and after the navigation elements
    are removed from the fallback regions, and which has no doc-block: the
    title is [create_entry(...)], and the content begins with
    [Function signature: pub fn create_entry(...)], the keywords being
    stripped from the title only, provided the text gathered from the
    fallback regions leaves the signature first. *)
Theorem rust_page_signature load html url :
  let doc := load html in
  let gathered := gatherRust rustSelectors doc "" in
  JS.includes "developer.holochain.org" url = false ->
  JS.includes "docs.rs" url = true ->
  text (select (class "fqn") doc) = signature ->
  select (class "docblock") doc = [] ->
  JS.trim (text (select (class "fqn") gathered.2)) = signature ->
  leavesSignatureFirst gathered.1 ->
  exists r,
    parseDocumentationPage load html url = inr r
    /\ doc_title r = "create_entry(...)"
    /\ JS.startsWith "Function signature: pub fn create_entry(...)" (doc_content r) = true
    /\ doc_url r = url.
Proof.
  intros doc gathered Dev Rs Fqn NoBlock Fqn' Lead.
  unfold parseDocumentationPage. fold doc. rewrite Dev, Rs.
  unfold rustPage. rewrite Fqn, NoBlock. fold gathered.
  destruct gathered as [content doc'] eqn:G. cbn [fst snd] in Fqn', Lead.
  rewrite Fqn'.
  destruct (withSignature_first content Lead) as (rest & E & Long).
  apply Nat.ltb_ge in Long. rewrite Long, E.
  destruct (signatureLine_survives rest) as [u Hu].
  eexists. split; [reflexivity|]. cbn [doc_title doc_content doc_url].
  split; [reflexivity|]. split; [|reflexivity].
  rewrite Hu. apply startsWith_app.
Qed.

(** The page that holds only the signature. *)
Lemma rust_page_signature_witness :
  exists r,
    parseDocumentationPage (fun _ => signaturePage)
      "<html><body><h1 class='fqn'>pub fn create_entry(...)</h1></body></html>"
      "https://docs.rs/hdk/latest/hdk/entry/fn.create_entry.html" = inr r
    /\ doc_title r = "create_entry(...)"
    /\ JS.startsWith "Function signature: pub fn create_entry(...)" (doc_content r) = true
    /\ doc_url r = "https://docs.rs/hdk/latest/hdk/entry/fn.create_entry.html".
Proof.
  apply (rust_page_signature (fun _ => signaturePage)
    "<html><body><h1 class='fqn'>pub fn create_entry(...)</h1></body></html>"
    "https://docs.rs/hdk/latest/hdk/entry/fn.create_entry.html");
    try reflexivity.
  left. reflexivity.
Defined.

End ExtractorProps.

(** ** More on the page cache and the fetcher *)

Module FetchMore.

Import CacheProps FetchProps Spec.

Lemma sweep_lookup cutoff cache u e :
  sweep cutoff cache !! u = Some e <-> cache !! u = Some e /\ cutoff <= timestamp e.
Proof.
  unfold sweep. rewrite map_lookup_filter_Some. simpl.
  split; intros [H1 H2]; split; auto; lia.
Qed.

Lemma CACHE_TTL_pos : 0 < CACHE_TTL.
Proof. reflexivity. Qed.

Lemma fetchAndCache_stored now url c cache :
  ~ failsGate c ->
  let stored := <[url := mkCachedPage c now]> cache in
  let cache' := (fetchAndCache now url c cache).2 in
  cache' !! url = Some (mkCachedPage c now)
  /\ (forall u e, cache' !! u = Some e -> stored !! u = Some e)
  /\ (forall u e, stored !! u = Some e -> now - timestamp e <= CACHE_TTL ->
                  cache' !! u = Some e)
  /\ ((100 < size stored)%nat ->
      forall u e, cache' !! u = Some e -> now - timestamp e <= CACHE_TTL)
  /\ ((size stored <= 100)%nat -> cache' = stored).
Proof.
  intros G stored cache'. apply shouldCache_true in G.
  unfold cache', fetchAndCache. rewrite G. fold stored. cbn [snd].
  pose proof CACHE_TTL_pos as P.
  destruct (Nat.ltb_spec 100 (size stored)) as [L|L].
  - split; [|split; [|split; [|split]]].
    + apply sweep_lookup. split; [apply lookup_insert_eq|simpl; lia].
    + intros u e H. now apply sweep_lookup in H.
    + intros u e H F. apply sweep_lookup. split; [exact H|lia].
    + intros _ u e H. apply sweep_lookup in H. lia.
    + lia.
  - split; [|split; [|split; [|split]]]; auto.
    + apply lookup_insert_eq.
    + lia.
Qed.

(** X1. A content that passes the gate is stored under its URL with the
    time of the store. The store removes nothing but entries older than
    the time to live, and those only when the cache, the new entry
    included, holds more than 100 entries: then no entry older than the
    time to live is left; otherwise the cache is the old one with the new
    entry. *)
Theorem fetchAndCache_sweeps now url c cache :
  ~ failsGate c ->
  let stored := <[url := mkCachedPage c now]> cache in
  let cache' := (fetchAndCache now url c cache).2 in
  cache' !! url = Some (mkCachedPage c now)
  /\ (forall u e, cache' !! u = Some e -> stored !! u = Some e)
  /\ (forall u e, stored !! u = Some e -> now - timestamp e <= CACHE_TTL ->
                  cache' !! u = Some e)
  /\ ((100 < size stored)%nat ->
      forall u e, cache' !! u = Some e -> now - timestamp e <= CACHE_TTL)
  /\ ((size stored <= 100)%nat -> cache' = stored).
Proof. apply fetchAndCache_stored. Qed.

(** A good page stored in the empty cache. *)
Lemma fetchAndCache_sweeps_witness :
  (fetchAndCache 5 "https://docs.rs/x" goodPage ∅).2 !! "https://docs.rs/x"
  = Some (mkCachedPage goodPage 5).
Proof.
  refine (proj1 (fetchAndCache_sweeps 5 "https://docs.rs/x" goodPage ∅ _)).
  apply shouldCache_true. reflexivity.
Defined.

Lemma stored_page url html w :
  ~ failsGate html ->
  pageCache (Http.fetchAndCacheSync url html w).2 !! url
  = Some (mkCachedPage html (clock w)).
Proof.
  intros G. unfold Http.fetchAndCacheSync.
  pose proof (fetchAndCache_stored (clock w) url html (pageCache w) G) as [S _].
  destruct (fetchAndCache (clock w) url html (pageCache w)) as [r cache2]. exact S.
Qed.

(** A fresh entry of good quality is served without a request. *)
Lemma fetchPage_hit env url w html stamp :
  pageCache w !! url = Some (mkCachedPage html stamp) ->
  ~ failsGate html -> clock w - stamp < CACHE_TTL ->
  Http.fetchPage env url w = (Eff.succeed html, w).
Proof.
  intros L G F. unfold Http.fetchPage, cacheRead. rewrite L. simpl.
  apply Z.ltb_lt in F. rewrite F, isGoodCache_shouldCache.
  apply shouldCache_true in G. now rewrite G.
Qed.



(** X3. On the browser path every failure is reported in the same words:
    whether the page could not be opened, the navigation failed or ran
    into its time-out, or the page could not be closed, the caller gets
    [FetchError "Timeout fetching with puppeteer: <url>"]. *)
Theorem browser_failures_coincide env url w e w' :
  JS.includes "developer.holochain.org" url = true ->
  Eff.run (Http.fetchPage env url) w = (Failure e, w') ->
  e = FetchError ("Timeout fetching with puppeteer: " +:+ url).
Proof.
  intros D. unfold Eff.run, Http.fetchPage.
  destruct (cacheRead (clock w) url (pageCache w)) as [[c|] cache].
  - unfold Eff.succeed. discriminate.
  - rewrite D, renderedFetch_cases. cbv zeta.
    destruct (newPage env url _); [|now intros [= <- _]].
    destruct (Http.loadPage env url _) as [[reason|c] w1]; [now intros [= <- _]|].
    destruct (close env url _); [discriminate|now intros [= <- _]].
Qed.

(** A refused connection, seen through the browser path. *)
Lemma browser_failures_coincide_witness :
  exists e w',
    Eff.run (Http.fetchPage refused "https://developer.holochain.org/build") (mkWorld ∅ ∅ 0)
    = (Failure e, w')
    /\ e = FetchError
             "Timeout fetching with puppeteer: https://developer.holochain.org/build".
Proof.
  eexists _, _. split; [vm_compute; reflexivity|].
  apply (browser_failures_coincide refused "https://developer.holochain.org/build"
           (mkWorld ∅ ∅ 0) _ (mkWorld ∅ ∅ 0) eq_refl).
  vm_compute. reflexivity.
Defined.

(** X4. On the browser path the page is stored before it is closed: when
    the content has arrived in time and passes the gate but [page.close]
    throws, the fetch fails although the content is in the cache, and the
    next call within ten minutes is served with it. *)
Theorem close_failure_keeps_the_page env url w html reason :
  JS.includes "developer.holochain.org" url = true ->
  (cacheRead (clock w) url (pageCache w)).1 = None ->
  respond env url (clock w) = Body html ->
  Z.of_N (latency env url (clock w)) < 10000 ->
  newPage env url (clock w) = Done ->
  close env url (clock w) = Throws reason ->
  ~ failsGate html ->
  exists w1,
    Eff.run (Http.fetchPage env url) w
    = (Failure (FetchError ("Timeout fetching with puppeteer: " +:+ url)), w1)
    /\ forall env' w2,
         pageCache w2 = pageCache w1 -> clock w2 - clock w1 < CACHE_TTL ->
         Http.fetchPage env' url w2 = (Eff.succeed html, w2).
Proof.
  intros D Hmiss Hresp Hfast Hopen Hclose G.
  unfold Eff.run, Http.fetchPage at 1.
  destruct (cacheRead (clock w) url (pageCache w)) as [cached cache].
  simpl in Hmiss. subst cached. apply Z.ltb_lt in Hfast.
  rewrite D, renderedFetch_cases, loadPage_cases. cbn [clock setPageCache].
  rewrite Hopen, Hclose, Hfast, Hresp. eexists. split; [reflexivity|].
  intros env' w2 E F. rewrite fetchAndCacheSync_clock in F.
  eapply fetchPage_hit; [|exact G|exact F].
  rewrite E. now apply stored_page.
Qed.

(** The page arrives, the browser cannot close it. *)
Lemma close_failure_keeps_the_page_witness :
  exists w1,
    Eff.run (Http.fetchPage (cannotClose (always (Body goodPage)))
               "https://developer.holochain.org/build") (mkWorld ∅ ∅ 0)
    = (Failure (FetchError
         "Timeout fetching with puppeteer: https://developer.holochain.org/build"), w1)
    /\ Http.fetchPage refused "https://developer.holochain.org/build" w1
       = (Eff.succeed goodPage, w1).
Proof.
  destruct (close_failure_keeps_the_page (cannotClose (always (Body goodPage)))
              "https://developer.holochain.org/build" (mkWorld ∅ ∅ 0) goodPage
              "Protocol error") as (w1 & R & Hit); try reflexivity.
  - apply shouldCache_true. reflexivity.
  - exists w1. split; [exact R|]. apply Hit; [reflexivity|].
    injection R as <-. reflexivity.
Defined.

(** X5. An answer that takes 10 seconds or more is lost on either path:
    the fetch fails when the 10 seconds are over, and the page cache is
    what the cache read has left, whatever the answer would have been. *)
Theorem late_answer_is_dropped env url w :
  (cacheRead (clock w) url (pageCache w)).1 = None ->
  10000 <= Z.of_N (latency env url (clock w)) ->
  (JS.includes "developer.holochain.org" url = true -> newPage env url (clock w) = Done) ->
  exists m w1,
    Eff.run (Http.fetchPage env url) w = (Failure (FetchError m), w1)
    /\ pageCache w1 = (cacheRead (clock w) url (pageCache w)).2
    /\ clock w1 = clock w + 10000.
Proof.
  intros Hmiss Hlate Hopen. unfold Eff.run, Http.fetchPage.
  destruct (cacheRead (clock w) url (pageCache w)) as [cached cache].
  simpl in Hmiss. subst cached. apply Z.ltb_ge in Hlate.
  destruct (JS.includes _ url).
  - rewrite renderedFetch_cases, loadPage_cases. cbn [clock setPageCache].
    rewrite (Hopen eq_refl), Hlate.
    destruct (close env url (clock w)); eexists _, _; (split; [reflexivity|]);
      split; reflexivity.
  - rewrite staticFetch_cases. cbn [clock setPageCache]. rewrite Hlate.
    eexists _, _. split; [reflexivity|]. split; reflexivity.
Qed.

(** A good page that takes a minute to arrive. *)
Lemma late_answer_is_dropped_witness :
  exists m w1,
    Eff.run (Http.fetchPage (delayed 60000 (always (Body goodPage))) "https://docs.rs/x")
      (mkWorld ∅ ∅ 0) = (Failure (FetchError m), w1)
    /\ pageCache w1 = ∅ /\ clock w1 = 10000.
Proof.
  destruct (late_answer_is_dropped (delayed 60000 (always (Body goodPage)))
              "https://docs.rs/x" (mkWorld ∅ ∅ 0)) as (m & w1 & R & C & T).
  - reflexivity.
  - simpl. lia.
  - discriminate.
  - exists m, w1. split; [exact R|]. split; [exact C|exact T].
Defined.

(** X6. Without network, [fetchPage] succeeds exactly on what the cache
    holds fresh and in good quality: a call succeeds with a content if and
    only if the cache has, for the URL, an entry with that content that is
    younger than ten minutes and passes the gate; and then the state is
    left as it was. *)
Theorem offline_serves_the_cache env url w c w' :
  offline env ->
  Eff.run (Http.fetchPage env url) w = (Success c, w')
  <-> (exists stamp,
         pageCache w !! url = Some (mkCachedPage c stamp)
         /\ clock w - stamp < CACHE_TTL /\ ~ failsGate c)
      /\ w' = w.
Proof.
  intros Off. split.
  - unfold Eff.run, Http.fetchPage.
    destruct (cacheRead (clock w) url (pageCache w)) as [[cached|] cache] eqn:R.
    + unfold Eff.succeed. intros [= <- <-].
      apply cacheRead_hit_good in R as (G & _ & [content stamp] & L & E & F).
      simpl in E, F. subst content. split; [|reflexivity]. eauto.
    + destruct (JS.includes _ url).
      * rewrite renderedFetch_cases, loadPage_cases. cbv zeta.
        destruct (newPage env url _); [|discriminate].
        destruct (_ <? _); [|discriminate].
        destruct (respond env url _) eqn:Resp; try discriminate.
        now destruct (Off _ _ _ Resp).
      * rewrite staticFetch_cases. cbv zeta.
        destruct (_ <? _); [|discriminate].
        destruct (respond env url _) eqn:Resp; try discriminate.
        now destruct (Off _ _ _ Resp).
  - intros [(stamp & L & F & G) ->]. unfold Eff.run.
    now rewrite (fetchPage_hit env url w c stamp L G F).
Qed.

(** No network, and a good page cached a minute ago. *)
Lemma offline_serves_the_cache_witness :
  Eff.run (Http.fetchPage refused "https://docs.rs/x")
    (mkWorld {[ "https://docs.rs/x" := mkCachedPage goodPage 0 ]} ∅ 60000)
  = (Success goodPage,
     mkWorld {[ "https://docs.rs/x" := mkCachedPage goodPage 0 ]} ∅ 60000).
Proof.
  apply (offline_serves_the_cache refused "https://docs.rs/x").
  - intros url t html. discriminate.
  - split; [|reflexivity]. exists 0. split; [reflexivity|]. split; [reflexivity|].
    apply shouldCache_true. reflexivity.
Defined.

End FetchMore.
(** ** More on the scorer and the search *)

Module SnippetProps.

Import Dom Parser StringProps ListProps Spec.

Lemma length_take n s : (String.length (JS.take n s) <= n)%nat.
Proof.
  revert s. induction n as [|n IH]; intros [|c s]; simpl; try lia.
  specialize (IH s). lia.
Qed.

Lemma length_part a b : occursIn a b -> (String.length a <= String.length b)%nat.
Proof. intros (p & q & ->). rewrite !length_append. lia. Qed.

Lemma length_trim s : (String.length (JS.trim s) <= String.length s)%nat.
Proof. apply length_part, trim_part. Qed.

Lemma length_removeAllFrom m skip s :
  (String.length (Re.removeAllFrom m skip s) <= String.length s)%nat.
Proof.
  revert skip. induction s as [|c s IH]; intros skip; simpl; [lia|].
  destruct skip as [|k].
  - destruct (m (String c s)) as [[|k]|]; simpl;
      [specialize (IH O)|specialize (IH k)|specialize (IH O)]; lia.
  - specialize (IH k). lia.
Qed.

Lemma length_removeAll m s : (String.length (Re.removeAll m s) <= String.length s)%nat.
Proof. apply length_removeAllFrom. Qed.

Lemma length_collapseFrom b s :
  (String.length (Re.collapseFrom b s) <= String.length s)%nat.
Proof.
  revert b. induction s as [|c s IH]; intros b; simpl; [lia|].
  destruct (JS.isWhiteSpace c); [destruct b|]; simpl;
    [specialize (IH true)|specialize (IH true)|specialize (IH false)]; lia.
Qed.

Lemma length_window text index : (String.length (window text index) <= 300)%nat.
Proof.
  unfold window. etransitivity; [apply length_trim|].
  unfold JS.substring. cbv zeta. etransitivity; [apply length_take|]. lia.
Qed.

Lemma length_cleanSnippet s : (String.length (cleanSnippet s) <= String.length s)%nat.
Proof.
  unfold cleanSnippet, Re.collapseWhitespace, Re.removeEdgeLogo, Re.removeYouTube,
    Re.removeCircle.
  etransitivity; [apply length_trim|].
  etransitivity; [apply length_collapseFrom|].
  do 3 (etransitivity; [apply length_removeAll|]). lia.
Qed.

Lemma length_cleanCandidate s : (String.length (cleanCandidate s) <= String.length s)%nat.
Proof.
  unfold cleanCandidate, Re.collapseWhitespace, Re.removeLabels, Re.removeEdgeLogo,
    Re.removeYouTube, Re.removeCircle.
  etransitivity; [apply length_trim|].
  etransitivity; [apply length_collapseFrom|].
  do 4 (etransitivity; [apply length_removeAll|]). lia.
Qed.

Lemma length_improveSnippet doc term selectors snippet :
  (String.length snippet <= 300)%nat ->
  (String.length (improveSnippet doc term selectors snippet) <= 300)%nat.
Proof.
  intros H. induction selectors as [|sel selectors IH]; cbn [improveSnippet];
    [exact H|]. cbv zeta.
  destruct (_ && _); [|exact IH].
  destruct (0 <=? _); [|exact IH].
  destruct (_ <? _)%nat; [|exact IH].
  etransitivity; [apply length_cleanCandidate|apply length_window].
Qed.

Lemma length_snippetOf doc term : (String.length (snippetOf doc term) <= 300)%nat.
Proof.
  unfold snippetOf. cbv zeta.
  assert (forall s i, String.length (cleanSnippet (window s i)) <= 300)%nat as W.
  { intros s i. etransitivity; [apply length_cleanSnippet|apply length_window]. }
  destruct (_ || _); [apply length_improveSnippet|]; apply W.
Qed.

(** X7. A result of the scorer carries the URL of the page, one of the
    three source labels, and a snippet of at most 300 characters, however
    long the page is and wherever the snippet is cut from. *)
Theorem snippet_is_bounded load RegExp_gi html url terms r :
  parseSearchResults load RegExp_gi html url terms = inr (Some r) ->
  (String.length (sr_snippet r) <= 300)%nat
  /\ sr_url r = url
  /\ sr_source r ∈ labels.
Proof.
  unfold parseSearchResults. cbv zeta.
  destruct (relevanceScore _ _ _ _) as [err|[|n]]; try discriminate.
  destruct (List.find _ terms) as [[|c t]|]; try discriminate.
  intros [= <-]. cbn [sr_snippet sr_url sr_source].
  split; [apply length_snippetOf|]. split; [reflexivity|].
  unfold rustSource, labels.
  destruct (JS.includes "developer.holochain.org" url); [set_solver|].
  destruct (JS.includes "/hdk/" url); set_solver.
Qed.

(** The result for a page on the DHT. *)
Lemma snippet_is_bounded_witness :
  exists r,
    parseSearchResults Run.loadPlainText Run.literalRegExp goodPage
      "https://docs.rs/hdk/latest/hdk/entry/index.html" ["hash"] = inr (Some r)
    /\ (String.length (sr_snippet r) <= 300)%nat
    /\ sr_source r ∈ labels.
Proof.
  eexists. split; [vm_compute; reflexivity|].
  destruct (snippet_is_bounded Run.loadPlainText Run.literalRegExp goodPage
              "https://docs.rs/hdk/latest/hdk/entry/index.html" ["hash"] _
              ltac:(vm_compute; reflexivity)) as (L & _ & S).
  split; [exact L|exact S].
Defined.

End SnippetProps.

Module QueryProps.

Import Dom Parser Service StringProps ListProps EffProps Spec.

Lemma find_app_skip {A} (p : A -> bool) pre x post :
  (forall y, y ∈ pre -> p y = false) -> p x = true ->
  List.find p (pre ++ x :: post) = Some x.
Proof.
  intros H Px. induction pre as [|y pre IH]; simpl.
  - now rewrite Px.
  - rewrite (H y) by left. apply IH. intros z Hz. apply H. now right.
Qed.

Lemma includes_empty s : JS.includes "" s = true.
Proof. now destruct s. Qed.

Lemma empty_term_absent load RegExp_gi html url pre post :
  (forall t, t ∈ pre -> ~ occursIn t (JS.toLowerCase (bodyText (load html)))) ->
  ~ present (parseSearchResults load RegExp_gi html url (pre ++ "" :: post)).
Proof.
  intros No [r H]. unfold parseSearchResults in H. cbv zeta in H.
  destruct (relevanceScore _ _ _ _) as [err|[|n]]; try discriminate.
  rewrite (find_app_skip _ pre "" post) in H; [discriminate| |apply includes_empty].
  intros t Ht. apply includes_false. now apply No.
Qed.

(** X8. The empty term hides the terms after it: when the list of terms
    holds the empty string and no term before it occurs in the lower-cased
    body, the scorer returns no result, whatever the terms after the empty
    one and whatever the regular expression engine. *)
Theorem empty_term_hides_later_terms load RegExp_gi html url pre post :
  (forall t, t ∈ pre -> ~ occursIn t (JS.toLowerCase (bodyText (load html)))) ->
  ~ present (parseSearchResults load RegExp_gi html url (pre ++ "" :: post)).
Proof. apply empty_term_absent. Qed.

(** The terms of the query [ dht], with its leading space, on a page that
    mentions the DHT. *)
Lemma empty_term_hides_later_terms_witness :
  JS.splitSpace (JS.toLowerCase " dht") = [""; "dht"]
  /\ occursIn "dht" (JS.toLowerCase (bodyText (Run.loadPlainText "the dht")))
  /\ ~ present (parseSearchResults Run.loadPlainText Run.literalRegExp "the dht"
                  "https://developer.holochain.org/concepts/4_dht" [""; "dht"]).
Proof.
  split; [reflexivity|]. split; [apply includes_spec; reflexivity|].
  apply (empty_term_hides_later_terms Run.loadPlainText Run.literalRegExp "the dht"
           "https://developer.holochain.org/concepts/4_dht" [] ["dht"]).
  intros t Ht. now apply elem_of_nil in Ht.
Defined.

Lemma splitSpace_cons s : exists piece rest, JS.splitSpace s = piece :: rest.
Proof.
  induction s as [|c s (piece & rest & E)]; simpl; [eauto|].
  rewrite E. destruct (Ascii.eqb c " "); eauto.
Qed.

Lemma blank_terms query :
  blank query -> exists rest, JS.splitSpace (JS.toLowerCase query) = "" :: rest.
Proof.
  intros [->|[q ->]]; [now exists []|].
  simpl JS.toLowerCase. change (JS.lowerChar " ") with " "%char. simpl.
  destruct (splitSpace_cons (JS.toLowerCase q)) as (piece & rest & ->). eauto.
Qed.

Lemma all_nothing {A B} (f : A -> Call (list B)) l w w1 :
  (forall x w w1, exists w2, (f x w).1 w1 = (Success [], w2)) ->
  exists w2, Eff.all (Eff.mapCalls f l w).1 w1 = (Success (List.map (fun _ => []) l), w2).
Proof.
  intros H. revert w w1. induction l as [|x l IH]; intros w w1; simpl.
  - unfold Eff.succeed. eauto.
  - specialize (H x w). destruct (f x w) as [m w0]. simpl in H.
    specialize (IH w0). destruct (Eff.mapCalls f l w0) as [ms w3]. simpl in *.
    destruct (H w1) as [w2 R]. destruct (IH w2) as [w4 R'].
    exists w4. unfold Eff.flatMap, Eff.map. now rewrite R, R'.
Qed.

Lemma concat_nothing {A B} (l : list A) : List.concat (List.map (fun _ => @nil B) l) = [].
Proof. induction l; simpl; auto. Qed.

Section Live.

Variable env : Env.
Variable load : string -> Document.
Variable RegExp_gi : string -> string + (string -> nat).

Let http := Http.HttpServiceLive env.
Let parser := DocumentationParserLive load RegExp_gi.

Lemma searchPage_blank query url w w1 :
  blank query ->
  exists w2, (searchPage http parser query url w).1 w1 = (Success [], w2).
Proof.
  intros B. destruct (blank_terms query B) as [rest E].
  unfold searchPage. simpl.
  pose proof (fetchPage_noPending env url w w1) as NP.
  destruct (Http.fetchPage env url w) as [page w0]. simpl in *.
  unfold Eff.catchAll, Eff.map, Eff.flatMap, liftTry, Eff.succeed.
  destruct (page w1) as [[html|e|] w2]; [|eauto|simpl in NP; congruence].
  rewrite E.
  pose proof (empty_term_absent load RegExp_gi html url [] rest) as P.
  simpl in P. destruct (parseSearchResults load RegExp_gi html url ("" :: rest)) as [e|[r|]];
    [eauto| |eauto].
  exfalso. apply P; [intros t Ht; now apply elem_of_nil in Ht|]. now exists r.
Qed.

Lemma searchUrls_blank urls query w :
  blank query ->
  exists w', Eff.run (searchUrls http parser urls query) w = (Success [], w').
Proof.
  intros B. unfold Eff.run, searchUrls.
  pose proof (all_nothing (searchPage http parser query) urls w) as H.
  destruct (Eff.mapCalls _ urls w) as [effects w0]. simpl in H.
  destruct (H w0) as [w2 R].
  { intros x w' w1. now apply searchPage_blank. }
  exists w2. unfold Eff.map. rewrite R, concat_nothing. reflexivity.
Qed.

(** X9. A query that is empty or begins with a space finds nothing: the
    tool returns the empty list for every source, whatever the pages
    hold. *)
Theorem blank_query_finds_nothing query source w :
  blank query ->
  exists w', search_holochain_docs http parser query source w = (Success [], w').
Proof.
  intros B. unfold search_holochain_docs, searchProgram, Eff.catchAll, Eff.flatMap.
  assert (forall wanted urls w0,
            exists w', andThen wanted (searchUrls http parser urls query) [] w0
                       = (Success [], w')) as Step.
  { intros wanted urls w0. unfold andThen. destruct wanted.
    - destruct (searchUrls_blank urls query w0 B) as [w' R].
      exists w'. unfold Eff.map. now rewrite R.
    - unfold Eff.succeed. eauto. }
  unfold searchDeveloperDocs, searchRustDocs.
  destruct (Step (wants (match source with Some s => s | None => all end) developer)
              (List.map (fun page => developerBase +:+ page) commonDeveloperPages) w)
    as [w1 ->].
  destruct (Step (wants (match source with Some s => s | None => all end) hdkDocs)
              (List.map (fun path => baseUrls hdk +:+ path) commonHDKPaths) w1)
    as [w2 ->].
  destruct (Step (wants (match source with Some s => s | None => all end) hdiDocs)
              (List.map (fun path => baseUrls hdi +:+ path) commonHDIPaths) w2)
    as [w3 ->].
  eauto.
Qed.

End Live.

(** Every page mentions the DHT; the query has a space before the word. *)
Lemma blank_query_finds_nothing_witness :
  exists w',
    search_holochain_docs (Http.HttpServiceLive dhtEverywhere)
      (DocumentationParserLive Run.loadPlainText Run.literalRegExp)
      " dht" (Some all) (mkWorld ∅ ∅ 0) = (Success [], w').
Proof.
  apply (blank_query_finds_nothing dhtEverywhere Run.loadPlainText Run.literalRegExp).
  right. now exists "dht".
Defined.


End QueryProps.
(** ** More on the extractor *)

Module PageProps.

Import Dom Parser StringProps ListProps Spec.

Lemma spaced_collapseFrom b s : spaced b (Re.collapseFrom b s) = true.
Proof.
  revert b. induction s as [|c s IH]; intros b; simpl; [reflexivity|].
  destruct (JS.isWhiteSpace c) eqn:W.
  - destruct b; [apply IH|]. simpl. apply IH.
  - simpl. rewrite W. apply IH.
Qed.

Lemma spaced_no_leading s : spaced true s = true -> JS.trimStart s = s.
Proof.
  destruct s as [|c s]; [reflexivity|]. simpl.
  destruct (JS.isWhiteSpace c); [|reflexivity]. rewrite andb_false_r. discriminate.
Qed.

Lemma spaced_trimStart b s : spaced b s = true -> spaced true (JS.trimStart s) = true.
Proof.
  destruct s as [|c s]; [reflexivity|]. simpl.
  destruct (JS.isWhiteSpace c) eqn:W.
  - intros H. apply andb_true_iff in H as [_ H].
    now rewrite (spaced_no_leading s H).
  - simpl. now rewrite W.
Qed.

Lemma spaced_trimEnd p t :
  spaced p t = true -> JS.trimEnd t = "" \/ singleSpacedFrom p (JS.trimEnd t) = true.
Proof.
  revert p. induction t as [|c t IH]; intros p; simpl; [auto|].
  destruct (JS.isWhiteSpace c) eqn:W.
  - rewrite !andb_true_iff. intros [[E P] H]. destruct (IH true H) as [->|S]; [auto|].
    destruct (JS.trimEnd t) as [|d r] eqn:T; [auto|]. right.
    cbn [singleSpacedFrom]. rewrite W, E, P. exact S.
  - intros H. right. destruct (IH false H) as [->|S].
    + simpl. now rewrite W.
    + destruct (JS.trimEnd t) as [|d r] eqn:T; simpl; rewrite W; [reflexivity|exact S].
Qed.

(** The collapse of white space followed by a trim leaves nothing or a
    text in single spaces. *)
Lemma normalised s :
  JS.trim (Re.collapseWhitespace s) = ""
  \/ singleSpaced (JS.trim (Re.collapseWhitespace s)) = true.
Proof.
  unfold JS.trim, Re.collapseWhitespace, singleSpaced.
  apply spaced_trimEnd, (spaced_trimStart false), spaced_collapseFrom.
Qed.

Lemma singleSpaced_trimStart s : singleSpaced s = true -> JS.trimStart s = s.
Proof.
  unfold singleSpaced. destruct s as [|c s]; [reflexivity|]. simpl.
  destruct (JS.isWhiteSpace c); [|reflexivity]. rewrite andb_false_r. discriminate.
Qed.

Lemma singleSpacedFrom_trimEnd p s :
  singleSpacedFrom p s = true -> s <> "" -> JS.trimEnd s = s.
Proof.
  revert p. induction s as [|c s IH]; intros p H N; [contradiction|]. simpl in *.
  destruct (JS.isWhiteSpace c) eqn:W.
  - apply andb_true_iff in H as [_ H]. destruct s as [|d s]; [discriminate|].
    rewrite (IH true H) by discriminate. reflexivity.
  - destruct s as [|d s]; [reflexivity|].
    rewrite (IH false H) by discriminate. reflexivity.
Qed.

Lemma singleSpaced_trim s : singleSpaced s = true -> JS.trim s = s.
Proof.
  intros H. unfold JS.trim. rewrite (singleSpaced_trimStart s H).
  apply (singleSpacedFrom_trimEnd true s H). now destruct s.
Qed.

Lemma trimEnd_idem s : JS.trimEnd (JS.trimEnd s) = JS.trimEnd s.
Proof.
  induction s as [|c s IH]; [reflexivity|]. simpl.
  destruct (JS.trimEnd s) as [|d r] eqn:T.
  - destruct (JS.isWhiteSpace c) eqn:W; [reflexivity|]. simpl. now rewrite W.
  - simpl. simpl in IH. rewrite IH. reflexivity.
Qed.

Lemma trimStart_trimEnd s :
  JS.trimStart (JS.trimEnd (JS.trimStart s)) = JS.trimEnd (JS.trimStart s).
Proof.
  induction s as [|c s IH]; [reflexivity|]. simpl.
  destruct (JS.isWhiteSpace c) eqn:W; [exact IH|]. simpl.
  destruct (JS.trimEnd s); rewrite ?W; simpl; now rewrite W.
Qed.

Lemma trim_idem s : JS.trim (JS.trim s) = JS.trim s.
Proof. unfold JS.trim. now rewrite trimStart_trimEnd, trimEnd_idem. Qed.

Lemma orElse_nonEmpty a b : b <> "" -> orElse a b <> "".
Proof. destruct a; simpl; [auto|discriminate]. Qed.

Lemma trim_orElse_trim a b :
  JS.trim b = b -> JS.trim (orElse (JS.trim a) b) = orElse (JS.trim a) b.
Proof.
  intros H. destruct (JS.trim a) eqn:E; [exact H|]. cbn [orElse]. rewrite <- E.
  apply trim_idem.
Qed.

Lemma parseDocumentationPage_total load html url :
  exists r,
    parseDocumentationPage load html url = inr r
    /\ doc_content r <> ""
    /\ JS.trim (doc_content r) = doc_content r
    /\ doc_url r = url.
Proof.
  unfold parseDocumentationPage. cbv zeta.
  assert (forall a b, JS.trim b = b -> b <> "" ->
            JS.trim (orElse (JS.trim a) b) <> ""
            /\ JS.trim (JS.trim (orElse (JS.trim a) b)) = JS.trim (orElse (JS.trim a) b))
    as Fallback.
  { intros a b T N. rewrite trim_idem. split; [|reflexivity].
    rewrite (trim_orElse_trim a b T). now apply orElse_nonEmpty. }
  destruct (JS.includes "developer.holochain.org" url);
    [|destruct (JS.includes "docs.rs" url)].
  - unfold developerPage. cbv zeta. eexists. split; [reflexivity|].
    cbn [doc_content doc_url]. split; [|split; [|reflexivity]];
      apply Fallback; reflexivity || discriminate.
  - unfold rustPage. cbv zeta.
    destruct (match match select (class "docblock") (load html) with [] => "" | _ => _ end
              with "" => _ | _ => _ end) as [content doc'].
    eexists. split; [reflexivity|].
    cbn [doc_content doc_url]. split; [|split; [|reflexivity]];
      apply Fallback; reflexivity || discriminate.
  - unfold unknownPage. eexists. split; [reflexivity|].
    cbn [doc_content doc_url]. split; [|split; [|reflexivity]];
      apply Fallback; reflexivity || discriminate.
Qed.

(** X11. The extractor never returns an empty content: for every page
    and every URL it gives a result for that URL whose content is not
    empty and has no white space at either end. *)
Theorem content_is_never_empty load html url :
  exists r,
    parseDocumentationPage load html url = inr r
    /\ doc_content r <> ""
    /\ JS.trim (doc_content r) = doc_content r
    /\ doc_url r = url.
Proof. apply parseDocumentationPage_total. Qed.

(** X12. The content of a page that is not on the developer site is one
    line in single spaces: it is not empty, has no white space at either
    end and none but the space, and no two spaces in a row; line breaks
    and indentation of the page are gone. The title of a docs.rs page is
    never empty. *)
Theorem reference_page_is_single_spaced load html url r :
  JS.includes "developer.holochain.org" url = false ->
  parseDocumentationPage load html url = inr r ->
  singleSpaced (doc_content r) = true
  /\ (JS.includes "docs.rs" url = true -> doc_title r <> "").
Proof.
  intros Dev. unfold parseDocumentationPage. cbv zeta. rewrite Dev.
  assert (forall a b, singleSpaced b = true ->
            singleSpaced (JS.trim (orElse (JS.trim (Re.collapseWhitespace a)) b)) = true)
    as Norm.
  { intros a b Hb. destruct (normalised a) as [->|S].
    - simpl. now rewrite (singleSpaced_trim b Hb).
    - destruct (JS.trim (Re.collapseWhitespace a)) as [|c q] eqn:E; [discriminate|].
      simpl. now rewrite (singleSpaced_trim _ S). }
  destruct (JS.includes "docs.rs" url).
  - unfold rustPage. cbv zeta.
    destruct (match match select (class "docblock") (load html) with [] => "" | _ => _ end
              with "" => _ | _ => _ end) as [content doc'].
    intros [= <-]. cbn [doc_content doc_title]. split; [now apply Norm|].
    intros _. rewrite trim_orElse_trim by reflexivity.
    apply orElse_nonEmpty. discriminate.
  - unfold unknownPage. intros [= <-]. cbn [doc_content]. split; [now apply Norm|].
    discriminate.
Qed.

(** The page that holds only a signature: the two line feeds after the
    signature line have become one space. *)
Lemma reference_page_is_single_spaced_witness :
  exists r,
    parseDocumentationPage (fun _ => signaturePage)
      "<html><body><h1 class='fqn'>pub fn create_entry(...)</h1></body></html>"
      "https://docs.rs/hdk/latest/hdk/entry/fn.create_entry.html" = inr r
    /\ singleSpaced (doc_content r) = true.
Proof.
  eexists. split; [vm_compute; reflexivity|].
  apply (reference_page_is_single_spaced (fun _ => signaturePage)
    "<html><body><h1 class='fqn'>pub fn create_entry(...)</h1></body></html>"
    "https://docs.rs/hdk/latest/hdk/entry/fn.create_entry.html" _ eq_refl).
  vm_compute. reflexivity.
Defined.

End PageProps.

(** ** More on the function index *)

Module NameProps.

Import Dom Service StringProps ListProps IndexProps Spec.

Lemma drop_all s : JS.drop (String.length s) s = "".
Proof. induction s; simpl; auto. Qed.

Lemma runOf_spec ok s :
  exists rest, s = Re.runOf ok s +:+ rest
               /\ allChars ok (Re.runOf ok s) = true
               /\ match rest with String c _ => ok c = false | EmptyString => True end.
Proof.
  induction s as [|c s (rest & E & A & N)]; simpl.
  - exists "". auto.
  - destruct (ok c) eqn:O.
    + exists rest. rewrite append_cons, <- E. simpl. rewrite O. auto.
    + exists (String c s). auto.
Qed.

Lemma fnMatchAt_sound ok s name :
  Re.fnMatchAt ok s = Some name ->
  name <> "" /\ allChars ok name = true
  /\ exists post, s = "fn." +:+ name +:+ ".html" +:+ post.
Proof.
  unfold Re.fnMatchAt. destruct (JS.startsWith "fn." s) eqn:S; [|discriminate].
  apply startsWith_spec in S as [r ->].
  change (JS.drop 3 ("fn." +:+ r)) with r. cbv zeta.
  destruct (runOf_spec ok r) as (rest & E & A & _).
  destruct (Re.runOf ok r) as [|c g] eqn:G; [discriminate|].
  destruct (JS.startsWith ".html" _) eqn:H; [|discriminate].
  intros [= <-]. split; [discriminate|]. split; [exact A|].
  apply startsWith_spec in H as [post H]. exists post.
  f_equal. rewrite E. f_equal. rewrite <- H, E.
  rewrite drop_app by lia. rewrite drop_all. reflexivity.
Qed.

Lemma fnMatch_sound ok href name :
  Re.fnMatch ok href = Some name ->
  name <> "" /\ allChars ok name = true
  /\ occursIn ("fn." +:+ name +:+ ".html") href.
Proof.
  induction href as [|c href IH]; cbn [Re.fnMatch].
  - discriminate.
  - destruct (Re.fnMatchAt ok (String c href)) eqn:M.
    + intros [= ->]. apply fnMatchAt_sound in M as (N & A & post & E).
      split; [exact N|]. split; [exact A|]. exists "", post.
      rewrite E. now rewrite !append_assoc.
    + intros H. destruct (IH H) as (N & A & pre & post & E).
      split; [exact N|]. split; [exact A|]. exists (String c pre), post.
      rewrite append_cons. now f_equal.
Qed.

Lemma runOf_all ok name rest :
  allChars ok name = true ->
  match rest with String c _ => ok c = false | EmptyString => True end ->
  Re.runOf ok (name +:+ rest) = name.
Proof.
  intros A N. induction name as [|c name IH].
  - rewrite append_nil_l. destruct rest as [|d rest]; simpl; [reflexivity|now rewrite N].
  - simpl in A. apply andb_true_iff in A as [A1 A2].
    rewrite append_cons. simpl. rewrite A1. f_equal. auto.
Qed.

Lemma fnMatchAt_here ok name post :
  ok "."%char = false -> name <> "" -> allChars ok name = true ->
  Re.fnMatchAt ok ("fn." +:+ name +:+ ".html" +:+ post) = Some name.
Proof.
  intros Dot N A. unfold Re.fnMatchAt.
  change (JS.startsWith "fn." ("fn." +:+ name +:+ ".html" +:+ post)) with true.
  change (JS.drop 3 ("fn." +:+ name +:+ ".html" +:+ post)) with (name +:+ ".html" +:+ post).
  cbv zeta. rewrite (runOf_all ok name (".html" +:+ post) A Dot).
  destruct name as [|c name]; [contradiction|].
  rewrite drop_app by lia. rewrite drop_all, append_nil_l. reflexivity.
Qed.

Lemma no_fn_before c pre rest :
  JS.includes "fn." (String c pre) = false ->
  JS.startsWith "fn." (String c pre +:+ "fn." +:+ rest) = false.
Proof.
  intros H. cbn [JS.includes] in H. apply orb_false_iff in H as [H _].
  change ("fn." +:+ rest) with (String "f" (String "n" (String "." rest))).
  destruct pre as [|d [|e pre]]; rewrite ?append_cons, ?append_nil_l;
    cbn [JS.startsWith] in *.
  - change (Ascii.eqb "n" "f") with false. now rewrite andb_false_r.
  - change (Ascii.eqb "." "f") with false. now rewrite !andb_false_r.
  - rewrite !andb_true_r in *. exact H.
Qed.

Lemma fnMatch_complete ok pre name post :
  ok "."%char = false -> name <> "" -> allChars ok name = true ->
  JS.includes "fn." pre = false ->
  Re.fnMatch ok (pre +:+ "fn." +:+ name +:+ ".html" +:+ post) = Some name.
Proof.
  intros Dot N A. induction pre as [|c pre IH]; intros H.
  - rewrite append_nil_l.
    pose proof (fnMatchAt_here ok name post Dot N A) as M.
    change ("fn." +:+ name +:+ ".html" +:+ post)
      with (String "f" ("n." +:+ name +:+ ".html" +:+ post)) in *.
    cbn [Re.fnMatch]. now rewrite M.
  - pose proof (no_fn_before c pre (name +:+ ".html" +:+ post) H) as S.
    rewrite append_cons in *. cbn [Re.fnMatch]. unfold Re.fnMatchAt at 1. rewrite S.
    apply IH. cbn [JS.includes] in H. now apply orb_false_iff in H as [_ H].
Qed.

(** X13. The name of a function is read off its link exactly. With the
    character class of either of the two expressions of the source: a
    name that is found is not empty, is made of characters of the class,
    and stands in the link as [fn.<name>.html]; and a link that is
    [fn.<name>.html] after a text without [fn.], for a name of that kind,
    gives this name. *)
Theorem function_name_of_link ok :
  ok "."%char = false ->
  (forall href name,
     Re.fnMatch ok href = Some name ->
     name <> "" /\ allChars ok name = true
     /\ occursIn ("fn." +:+ name +:+ ".html") href)
  /\ (forall pre name post,
        name <> "" -> allChars ok name = true -> JS.includes "fn." pre = false ->
        Re.fnMatch ok (pre +:+ "fn." +:+ name +:+ ".html" +:+ post) = Some name).
Proof.
  intros Dot. split.
  - apply fnMatch_sound.
  - intros pre name post. now apply fnMatch_complete.
Qed.

(** The link of the scenario. *)
Lemma function_name_of_link_witness :
  Re.fnMatch Re.notDotSlash "entry/fn.create_entry.html" = Some "create_entry".
Proof.
  apply (proj2 (function_name_of_link Re.notDotSlash eq_refl) "entry/" "create_entry" "");
    [discriminate|reflexivity|reflexivity].
Defined.

Lemma uniqueFunctions_snoc fs f :
  uniqueFunctions (fs ++ [f]) = mapSet f (uniqueFunctions fs).
Proof. unfold uniqueFunctions. now rewrite fold_left_app. Qed.

Lemma mapSet_names f m n :
  n ∈ List.map fn_name (mapSet f m) <-> n = fn_name f \/ n ∈ List.map fn_name m.
Proof.
  induction m as [|g m IH]; simpl.
  - rewrite list_elem_of_singleton, elem_of_nil. tauto.
  - destruct (String.eqb_spec (fn_name g) (fn_name f)) as [E|E]; simpl.
    + rewrite !elem_of_cons, E. tauto.
    + rewrite !elem_of_cons, IH. tauto.
Qed.

Lemma mapSet_NoDup f m :
  NoDup (List.map fn_name m) -> NoDup (List.map fn_name (mapSet f m)).
Proof.
  induction m as [|g m IH]; simpl; intros ND.
  - apply NoDup_singleton.
  - apply NoDup_cons in ND as [Hg ND].
    destruct (String.eqb_spec (fn_name g) (fn_name f)) as [E|E]; simpl.
    + apply NoDup_cons. split; [now rewrite <- E|exact ND].
    + apply NoDup_cons. split; [|auto]. rewrite mapSet_names. intros [H|H]; auto.
Qed.

Lemma mapSet_elem f m g :
  NoDup (List.map fn_name m) ->
  g ∈ mapSet f m <-> g = f \/ (g ∈ m /\ fn_name g <> fn_name f).
Proof.
  induction m as [|h m IH]; simpl; intros ND.
  - rewrite list_elem_of_singleton, elem_of_nil. tauto.
  - apply NoDup_cons in ND as [Hh ND].
    destruct (String.eqb_spec (fn_name h) (fn_name f)) as [E|E].
    + rewrite !elem_of_cons. split.
      * intros [->|H]; [auto|]. right. split; [auto|]. intros E'. apply Hh.
        rewrite E, <- E'. apply list_elem_of_In, in_map, list_elem_of_In, H.
      * intros [->|[[->|H] N]]; [auto|contradiction|auto].
    + rewrite !elem_of_cons, (IH ND). split.
      * intros [->|[->|[H N]]]; auto.
      * intros [->|[[->|H] N]]; auto.
Qed.

Lemma lastOfName_snoc g fs f :
  lastOfName g (fs ++ [f]) <-> g = f \/ (lastOfName g fs /\ fn_name g <> fn_name f).
Proof.
  split.
  - intros (l1 & l2 & E & N). destruct (decide (l2 = [])) as [->|NE].
    + left. apply (app_inj_tail fs l1 f g) in E. now destruct E.
    + right. destruct (exists_last NE) as (l2' & x & ->).
      rewrite app_comm_cons, app_assoc in E. apply app_inj_tail in E as [-> ->].
      rewrite map_app, not_elem_of_app in N. simpl in N. destruct N as [N1 N2].
      rewrite list_elem_of_singleton in N2. split; [|exact N2]. now exists l1, l2'.
  - intros [->|[(l1 & l2 & -> & N) D]].
    + exists fs, []. split; [reflexivity|]. simpl. apply not_elem_of_nil.
    + exists l1, (l2 ++ [f])%list. split; [now rewrite <- app_assoc|].
      rewrite map_app, not_elem_of_app. simpl. rewrite list_elem_of_singleton. auto.
Qed.

Lemma uniqueFunctions_spec fs :
  NoDup (List.map fn_name (uniqueFunctions fs))
  /\ (forall g, g ∈ uniqueFunctions fs <-> lastOfName g fs)
  /\ (forall n, n ∈ List.map fn_name (uniqueFunctions fs) <-> n ∈ List.map fn_name fs).
Proof.
  induction fs as [|f fs (ND & El & Nm)] using rev_ind.
  - split; [constructor|]. split; [|reflexivity]. intros g. split.
    + intros H. now apply elem_of_nil in H.
    + intros (l1 & l2 & E & _). now destruct l1.
  - rewrite uniqueFunctions_snoc. split; [now apply mapSet_NoDup|]. split.
    + intros g. rewrite (mapSet_elem f _ g ND), lastOfName_snoc, El. reflexivity.
    + intros n. rewrite mapSet_names, Nm, map_app, elem_of_app. simpl.
      rewrite list_elem_of_singleton. tauto.
Qed.

(** X14. The fallback discovery removes duplicates the other way round
    than the index parser: of the functions of one name the last one is
    kept. The result holds every name once, holds exactly the names found,
    and its entries are exactly the last functions of their names. *)
Theorem uniqueFunctions_last_wins fs :
  NoDup (List.map fn_name (uniqueFunctions fs))
  /\ (forall g, g ∈ uniqueFunctions fs <-> lastOfName g fs)
  /\ (forall n, n ∈ List.map fn_name (uniqueFunctions fs) <-> n ∈ List.map fn_name fs).
Proof. apply uniqueFunctions_spec. Qed.

End NameProps.

Module IndexMore.

Import Dom Parser Service StringProps ListProps IndexProps Spec NameProps.

Lemma curatedNames_candidates baseUrl :
  List.map fn_name (curatedCandidates baseUrl) = curatedNames.
Proof. reflexivity. Qed.

Lemma curatedNames_NoDup : List.NoDup curatedNames.
Proof.
  apply NoDup_ListNoDup. apply (bool_decide_unpack _). vm_compute. exact I.
Qed.

(** X15. The index that [parseHdkIndex] builds is never empty: whatever
    the page, it holds every name of the curated table, hence at least
    20 functions. *)
Theorem index_holds_curated_table load html baseUrl :
  exists functions,
    parseHdkIndex load html baseUrl = inr functions
    /\ (forall name, In name curatedNames -> In name (List.map fn_name functions))
    /\ (20 <= length functions)%nat.
Proof.
  exists (hdkIndexOf (load html) baseUrl). split; [reflexivity|].
  assert (forall name, In name curatedNames ->
            In name (List.map fn_name (hdkIndexOf (load html) baseUrl))) as H.
  { intros name Hn. rewrite <- (curatedNames_candidates baseUrl) in Hn.
    apply in_map_iff in Hn as (f & <- & Hf).
    apply (proj1 (hdkIndexOf_holds_curated (load html) baseUrl)).
    now apply list_elem_of_In. }
  split; [exact H|].
  rewrite <- (length_map fn_name).
  change 20%nat with (length curatedNames).
  apply NoDup_incl_length; [exact curatedNames_NoDup|exact H].
Qed.

Lemma anchorFunction_of_link baseUrl el href name :
  attrOf "href" el = Some href ->
  Re.fnMatch Re.notDotSlash href = Some name ->
  anchorFunction baseUrl el = Some (mkHdkFunction name (functionUrl baseUrl href)).
Proof.
  intros A M. unfold anchorFunction. rewrite A, M.
  destruct (fnMatch_sound _ _ _ M) as (_ & _ & O).
  assert (JS.includes "fn." href = true) as I.
  { apply includes_spec. eapply occursIn_trans; [|exact O].
    exists "", (name +:+ ".html"). reflexivity. }
  rewrite I. destruct href; [discriminate|reflexivity].
Qed.

(** X16. Every function link of the page is in the index under the name
    in its link: for a link [a[href*='fn.']] whose [href] gives a name,
    the index has a function of that name. *)
Theorem function_links_are_indexed doc baseUrl el href name :
  el ∈ select functionLink doc ->
  attrOf "href" el = Some href ->
  Re.fnMatch Re.notDotSlash href = Some name ->
  exists f, f ∈ hdkIndexOf doc baseUrl /\ fn_name f = name.
Proof.
  intros Hel A M.
  pose proof (anchorFunction_of_link baseUrl el href name A M) as F.
  assert (mkHdkFunction name (functionUrl baseUrl href) ∈ candidates doc baseUrl) as C.
  { unfold candidates, anchorCandidates, functionSelectors. apply elem_of_app. left.
    cbn [flat_map]. apply elem_of_app. right. apply elem_of_app. left.
    apply list_elem_of_omap. exists el. split; [exact Hel|exact F]. }
  destruct (firstOfName_exists _ _ C) as (g & G & E).
  exists g. split; [now apply hdkIndexOf_firstOfName|exact E].
Qed.

(** The second link of the scenario page. *)
Lemma function_links_are_indexed_witness :
  exists f, f ∈ hdkIndexOf scenarioPage hdkBase /\ fn_name f = "get_links".
Proof.
  apply (function_links_are_indexed scenarioPage hdkBase
           (Element "a" [("href", "link/fn.get_links.html")] [Text "get_links"])
           "link/fn.get_links.html" "get_links").
  - right. left.
  - reflexivity.
  - reflexivity.
Defined.










End IndexMore.
(** ** More on the discovery of the functions *)

Module DiscoveryMore.

Import Dom Service StringProps ListProps IndexProps EffProps FetchProps Spec NameProps
  IndexMore.

Lemma tapSync_always {A} (f : A -> World -> World) m :
  alwaysSucceeds m -> alwaysSucceeds (Eff.tapSync f m).
Proof.
  intros H w. unfold Eff.tapSync. destruct (H w) as (a & w' & ->). eauto.
Qed.

Lemma tapSync_noPending {A} (f : A -> World -> World) m :
  noPending m -> noPending (Eff.tapSync f m).
Proof.
  intros NP w. specialize (NP w). unfold Eff.tapSync.
  destruct (m w) as [[a|e|] w1]; simpl in *; congruence.
Qed.

Lemma tapSync_inv {A} (f : A -> World -> World) m w a w' :
  Eff.tapSync f m w = (Success a, w') -> exists w1, m w = (Success a, w1) /\ w' = f a w1.
Proof.
  unfold Eff.tapSync. destruct (m w) as [[x|e|] w1]; intros [= <- <-] || intros [=].
  eauto.
Qed.


(** What holds of every list that each effect of a traversal gives holds
    of the lists of the traversal. *)
Lemma all_mapCalls_inv {A B} (P : A -> B -> Prop) (f : A -> Call B) l w w1 bs w2 :
  (forall x w w1 b w2, (f x w).1 w1 = (Success b, w2) -> P x b) ->
  Eff.all (Eff.mapCalls f l w).1 w1 = (Success bs, w2) -> Forall2 P l bs.
Proof.
  intros H. revert w w1 bs. induction l as [|x l IH]; intros w w1 bs; simpl.
  - unfold Eff.succeed. intros [= <- _]. constructor.
  - specialize (H x w). destruct (f x w) as [m w0]. simpl in H.
    specialize (IH w0). destruct (Eff.mapCalls f l w0) as [ms w3]. simpl in *.
    intros R. apply flatMap_inv in R as (b & w4 & R1 & R2).
    apply map_inv in R2 as (bs' & R2 & ->). constructor; eauto.
Qed.

Section AnyParser.

Variable env : Env.
Variable parser : DocumentationParser.
Variable load : string -> Document.

Let http := Http.HttpServiceLive env.

Lemma crawlModule_always module w : alwaysSucceeds (crawlModule http load module w).1.
Proof.
  unfold crawlModule. simpl.
  pose proof (fetchPage_noPending env (hdkBase +:+ "/" +:+ module +:+ "/index.html") w) as NP.
  destruct (Http.fetchPage env _ w) as [page w1]. simpl in *.
  apply catchAll_always; [|intros e; apply succeed_always].
  apply flatMap_noPending; [exact NP|]. intros html. apply liftTry_noPending.
Qed.

Lemma fallback_always w :
  alwaysSucceeds (discoverHDKFunctionsFallback http load w).1.
Proof.
  unfold discoverHDKFunctionsFallback.
  pose proof (mapCalls_Forall alwaysSucceeds (crawlModule http load) knownModules w
                crawlModule_always) as F.
  destruct (Eff.mapCalls _ knownModules w) as [effects w1]. simpl in *.
  now apply tapSync_always, map_always, map_always, all_always.
Qed.

Lemma discover_always w :
  alwaysSucceeds (discoverHDKFunctions http parser load w).1.
Proof.
  unfold discoverHDKFunctions.
  assert (alwaysSucceeds
            (let (page, w1) := fetchPage http (hdkBase +:+ "/index.html") w in
             (Eff.catchAll (fun _ => Eff.run (discoverHDKFunctionsFallback http load))
                (Eff.tapSync cacheFunctions
                   (Eff.flatMap (fun html => liftTry (parseHdkIndex parser html hdkBase)) page)),
              w1)).1) as D.
  { simpl. pose proof (fetchPage_noPending env (hdkBase +:+ "/index.html") w) as NP.
    destruct (Http.fetchPage env _ w) as [page w1]. simpl in *.
    apply catchAll_always.
    - apply tapSync_noPending, flatMap_noPending; [exact NP|].
      intros html. apply liftTry_noPending.
    - intros e. apply run_always, fallback_always. }
  destruct (hdkFunctionCache w !! "hdk_functions") as [[functions stamp]|]; [|exact D].
  destruct (_ <? _); [apply succeed_always|exact D].
Qed.

(** X18. The discovery of the functions never fails: with the page
    fetcher of the server, whatever the network does and whatever the
    parser returns, it ends with a list of functions. A failure of the
    index page or of its parsing starts the fallback, and the fallback
    turns the failure of every module page into an empty list. *)
Theorem discovery_never_fails :
  alwaysSucceeds (Eff.run (discoverHDKFunctions http parser load)).
Proof. apply run_always, discover_always. Qed.

End AnyParser.

Lemma cacheFunctions_lookup fs w :
  hdkFunctionCache (cacheFunctions fs w) !! "hdk_functions" = Some (fs, clock w)
  /\ clock (cacheFunctions fs w) = clock w.
Proof. unfold cacheFunctions. simpl. split; [apply lookup_insert_eq|reflexivity]. Qed.

Lemma discover_hit httpService parser load w fs stamp :
  hdkFunctionCache w !! "hdk_functions" = Some (fs, stamp) ->
  clock w - stamp < FUNCTION_CACHE_TTL ->
  discoverHDKFunctions httpService parser load w = (Eff.succeed fs, w).
Proof.
  intros L F. unfold discoverHDKFunctions. rewrite L.
  apply Z.ltb_lt in F. now rewrite F.
Qed.

Lemma FUNCTION_CACHE_TTL_pos : 0 < FUNCTION_CACHE_TTL.
Proof. reflexivity. Qed.

(** X19. What the discovery returns is in the function cache when it
    ends, whether it came from the cache, from the index page or from the
    fallback, and it is fresh; and every discovery that starts from a
    world with this cache within the hour after the stamp returns the
    same list without a request, whatever its services. *)
Theorem discovery_is_cached httpService parser load w fs w1 :
  Eff.run (discoverHDKFunctions httpService parser load) w = (Success fs, w1) ->
  exists stamp,
    hdkFunctionCache w1 !! "hdk_functions" = Some (fs, stamp)
    /\ clock w1 - stamp < FUNCTION_CACHE_TTL
    /\ forall httpService' parser' load' w2,
         hdkFunctionCache w2 = hdkFunctionCache w1 ->
         clock w2 - stamp < FUNCTION_CACHE_TTL ->
         discoverHDKFunctions httpService' parser' load' w2 = (Eff.succeed fs, w2).
Proof.
  pose proof FUNCTION_CACHE_TTL_pos as Pos.
  assert (forall fs w0, exists stamp,
            hdkFunctionCache (cacheFunctions fs w0) !! "hdk_functions" = Some (fs, stamp)
            /\ clock (cacheFunctions fs w0) - stamp < FUNCTION_CACHE_TTL
            /\ forall httpService' parser' load' w2,
                 hdkFunctionCache w2 = hdkFunctionCache (cacheFunctions fs w0) ->
                 clock w2 - stamp < FUNCTION_CACHE_TTL ->
                 discoverHDKFunctions httpService' parser' load' w2 = (Eff.succeed fs, w2))
    as Stored.
  { intros fs0 w0. destruct (cacheFunctions_lookup fs0 w0) as [L C].
    exists (clock w0). split; [exact L|]. split; [lia|].
    intros h p l w2 E F. apply (discover_hit h p l w2 fs0 (clock w0)); [|exact F].
    now rewrite E. }
  assert (forall page w0,
            Eff.catchAll (fun _ => Eff.run (discoverHDKFunctionsFallback httpService load))
              (Eff.tapSync cacheFunctions
                 (Eff.flatMap (fun html => liftTry (parseHdkIndex parser html hdkBase)) page))
              w0 = (Success fs, w1) ->
            exists w0', w1 = cacheFunctions fs w0') as Miss.
  { intros page w0 H.
    apply catchAll_inv in H as [H|(e & w2 & _ & H)].
    - apply tapSync_inv in H as (w2 & _ & ->). eauto.
    - unfold Eff.run, discoverHDKFunctionsFallback in H.
      destruct (Eff.mapCalls _ knownModules w2) as [effects w3].
      apply tapSync_inv in H as (w4 & _ & ->). eauto. }
  unfold Eff.run, discoverHDKFunctions.
  destruct (fetchPage httpService (hdkBase +:+ "/index.html") w) as [page w0].
  destruct (hdkFunctionCache w !! "hdk_functions") as [[functions stamp]|] eqn:L.
  - destruct (Z.ltb_spec (clock w - stamp) FUNCTION_CACHE_TTL) as [F|F].
    + unfold Eff.succeed. intros [= <- <-]. exists stamp. split; [exact L|].
      split; [exact F|]. intros h p l w2 E F'.
      apply (discover_hit h p l w2 functions stamp); [now rewrite E|exact F'].
    + intros H. destruct (Miss _ _ H) as [w0' ->]. apply Stored.
  - intros H. destruct (Miss _ _ H) as [w0' ->]. apply Stored.
Qed.

(** With every connection refused the discovery ends with the empty list
    of the fallback, which is then in the cache. *)
Lemma discovery_is_cached_witness :
  exists stamp,
    hdkFunctionCache (cacheFunctions [] (mkWorld ∅ ∅ 0)) !! "hdk_functions"
    = Some ([], stamp)
    /\ clock (cacheFunctions [] (mkWorld ∅ ∅ 0)) - stamp < FUNCTION_CACHE_TTL.
Proof.
  destruct (discovery_is_cached (Http.HttpServiceLive refused)
              (Parser.DocumentationParserLive Run.loadPlainText Run.literalRegExp)
              Run.loadPlainText (mkWorld ∅ ∅ 0) [] (cacheFunctions [] (mkWorld ∅ ∅ 0)))
    as (stamp & L & F & _).
  - vm_compute. reflexivity.
  - exists stamp. split; [exact L|exact F].
Defined.

Section Live.

Variable env : Env.
Variable load : string -> Document.
Variable RegExp_gi : string -> string + (string -> nat).

Let http := Http.HttpServiceLive env.
Let parser := Parser.DocumentationParserLive load RegExp_gi.

(** X20. With no fresh entry in the function cache and an index page
    that is fetched, the discovery returns the index of that page and
    stores it with the time at which the fetch ended; the fallback is not
    run. *)
Theorem discovery_reads_index w html w1 :
  staleFunctions w ->
  Eff.run (Http.fetchPage env (hdkBase +:+ "/index.html")) w = (Success html, w1) ->
  Eff.run (discoverHDKFunctions http parser load) w
  = (Success (Parser.hdkIndexOf (load html) hdkBase),
     cacheFunctions (Parser.hdkIndexOf (load html) hdkBase) w1).
Proof.
  intros St F. unfold Eff.run in *. unfold discoverHDKFunctions.
  change (fetchPage http) with (Http.fetchPage env).
  destruct (Http.fetchPage env (hdkBase +:+ "/index.html") w) as [page w0].
  assert (Eff.catchAll (fun _ => Eff.run (discoverHDKFunctionsFallback http load))
            (Eff.tapSync cacheFunctions
               (Eff.flatMap (fun html => liftTry (parseHdkIndex parser html hdkBase)) page))
            w0
          = (Success (Parser.hdkIndexOf (load html) hdkBase),
             cacheFunctions (Parser.hdkIndexOf (load html) hdkBase) w1)) as Miss.
  { unfold Eff.catchAll, Eff.tapSync, Eff.flatMap. rewrite F. reflexivity. }
  unfold staleFunctions in St.
  destruct (hdkFunctionCache w !! "hdk_functions") as [[functions stamp]|]; [|exact Miss].
  apply Z.ltb_ge in St. rewrite St. exact Miss.
Qed.




End Live.

(** The index page of a network that answers every request with the same
    short text. *)
Lemma discovery_reads_index_witness :
  Eff.run (discoverHDKFunctions (Http.HttpServiceLive dhtEverywhere)
             (Parser.DocumentationParserLive Run.loadPlainText Run.literalRegExp)
             Run.loadPlainText) (mkWorld ∅ ∅ 0)
  = (Success (Parser.hdkIndexOf (Run.loadPlainText "the dht holds the data") hdkBase),
     cacheFunctions (Parser.hdkIndexOf (Run.loadPlainText "the dht holds the data") hdkBase)
       (mkWorld ∅ ∅ 0)).
Proof.
  apply (discovery_reads_index dhtEverywhere Run.loadPlainText Run.literalRegExp
           (mkWorld ∅ ∅ 0) "the dht holds the data" (mkWorld ∅ ∅ 0)).
  - vm_compute. exact I.
  - vm_compute. reflexivity.
Defined.


End DiscoveryMore.
(** ** More on the tools *)

Module LookupProps.

Import Dom Service Lookup StringProps ListProps EffProps FetchProps Spec PageProps
  DiscoveryMore.

Section Live.

Variable env : Env.
Variable load : string -> Document.
Variable RegExp_gi : string -> string + (string -> nat).
Variable fuseSearch : list HdkFunction -> string -> list HdkFunction.

Let http := Http.HttpServiceLive env.
Let parser := Parser.DocumentationParserLive load RegExp_gi.

Lemma fetchDocumentationPage_cases url w :
  (exists doc w',
     Eff.run (fetchDocumentationPage http parser url) w = (Success doc, w')
     /\ doc_url doc = url /\ doc_content doc <> "")
  \/ (exists w',
        Eff.run (fetchDocumentationPage http parser url) w
        = (Failure (NotFoundError ("Documentation page not found: " +:+ url)), w')).
Proof.
  unfold Eff.run, fetchDocumentationPage. change (fetchPage http) with (Http.fetchPage env).
  pose proof (fetchPage_run_cases env url w) as C. unfold Eff.run in C.
  destruct (Http.fetchPage env url w) as [page w0].
  unfold Eff.mapError, Eff.flatMap.
  destruct C as [(c & w' & ->)|(m & w' & ->)].
  - left. change (parseDocumentationPage parser c url)
      with (Parser.parseDocumentationPage load c url).
    destruct (parseDocumentationPage_total load c url) as (r & -> & N & _ & U).
    unfold liftTry. eauto.
  - right. eauto.
Qed.

(** X22. With the services of the server, fetching a documentation page
    ends in one of two ways, whatever the network does: with a page that
    has the URL asked for and a content that is not empty, or with the
    error [Documentation page not found: <url>]. The failure of the
    fetch, with its reason, is never seen. *)
Theorem documentation_page_or_not_found url w :
  (exists doc w',
     Eff.run (fetchDocumentationPage http parser url) w = (Success doc, w')
     /\ doc_url doc = url /\ doc_content doc <> "")
  \/ (exists w',
        Eff.run (fetchDocumentationPage http parser url) w
        = (Failure (NotFoundError ("Documentation page not found: " +:+ url)), w')).
Proof. apply fetchDocumentationPage_cases. Qed.

(** X23. With the services of the server, the lookup of a function ends
    with a documentation page or with one error, whose message is
    [Failed to lookup HDK function: <name>. Error: NotFoundError]: the
    list of the available functions that [onNone] builds and the URL of
    the page that was not found are replaced by the tag of the error. A
    search that finds nothing always ends with this error. *)
Theorem lookup_failure_is_uniform functionName w :
  ((exists doc w',
      Eff.run (getHDKFunctionDocs http parser load fuseSearch functionName) w
      = (Success doc, w'))
   \/ (exists w',
         Eff.run (getHDKFunctionDocs http parser load fuseSearch functionName) w
         = (Failure (NotFoundError ("Failed to lookup HDK function: " +:+ functionName
                                    +:+ ". Error: NotFoundError")), w')))
  /\ ((forall hdkFunctions, fuseSearch hdkFunctions functionName = []) ->
      exists w',
        Eff.run (getHDKFunctionDocs http parser load fuseSearch functionName) w
        = (Failure (NotFoundError ("Failed to lookup HDK function: " +:+ functionName
                                   +:+ ". Error: NotFoundError")), w')).
Proof.
  unfold Eff.run, getHDKFunctionDocs.
  pose proof (discover_always env parser load w) as D.
  destruct (discoverHDKFunctions _ _ _ w) as [discovery w0]. cbn [fst] in D.
  destruct (D w0) as (fs & w1 & R).
  unfold Eff.catchAll, Eff.flatMap. rewrite R. split.
  - destruct (fuseSearch fs functionName) as [|result rest].
    + right. unfold Eff.fail. eauto.
    + destruct (fetchDocumentationPage_cases (fn_url result) w1)
        as [(doc & w' & -> & _)|(w' & ->)]; [left|right]; unfold Eff.fail; eauto.
  - intros None. rewrite None. unfold Eff.fail. eauto.
Qed.

End Live.

(** Without network the index is empty, and the lookup of [create_entry]
    with an exact search ends with the uniform error. *)
Lemma lookup_failure_is_uniform_witness :
  exists w',
    Eff.run (getHDKFunctionDocs (Http.HttpServiceLive refused)
               (Parser.DocumentationParserLive Run.loadPlainText Run.literalRegExp)
               Run.loadPlainText exactSearch "create_entry") (mkWorld ∅ ∅ 0)
    = (Failure (NotFoundError
         "Failed to lookup HDK function: create_entry. Error: NotFoundError"), w').
Proof.
  destruct (proj1 (lookup_failure_is_uniform refused Run.loadPlainText Run.literalRegExp
                     exactSearch "create_entry" (mkWorld ∅ ∅ 0)))
    as [(doc & w' & R)|H].
  - vm_compute in R. discriminate.
  - exact H.
Defined.

End LookupProps.

Module ResultProps.

Import Dom Service StringProps ListProps EffProps FetchProps SearchProps Spec DiscoveryMore.

Lemma parseSearchResults_label load RegExp_gi html url terms r :
  Parser.parseSearchResults load RegExp_gi html url terms = inr (Some r) ->
  sr_url r = url /\ sr_source r = sourceOf url.
Proof.
  unfold Parser.parseSearchResults. cbv zeta.
  destruct (Parser.relevanceScore _ _ _ _) as [err|[|n]]; try discriminate.
  destruct (List.find _ terms) as [[|c t]|]; try discriminate.
  intros [= <-]. split; reflexivity.
Qed.

Section Live.

Variable env : Env.
Variable load : string -> Document.
Variable RegExp_gi : string -> string + (string -> nat).

Let http := Http.HttpServiceLive env.
Let parser := Parser.DocumentationParserLive load RegExp_gi.

Lemma searchPage_label query url w w1 rs w2 :
  (searchPage http parser query url w).1 w1 = (Success rs, w2) ->
  forall r, r ∈ rs -> sr_url r = url /\ sr_source r = sourceOf url.
Proof.
  unfold searchPage. change (fetchPage http) with (Http.fetchPage env).
  destruct (Http.fetchPage env url w) as [page w0]. cbn [fst].
  intros H. apply catchAll_inv in H as [H|(e & w3 & _ & H)].
  - apply map_inv in H as (o & H & ->).
    apply flatMap_inv in H as (html & w3 & _ & H).
    change (parseSearchResults parser html url (JS.splitSpace (JS.toLowerCase query)))
      with (Parser.parseSearchResults load RegExp_gi html url
              (JS.splitSpace (JS.toLowerCase query))) in H.
    unfold liftTry in H.
    destruct (Parser.parseSearchResults load RegExp_gi html url _) as [e|o'] eqn:P;
      [discriminate|]. injection H as -> _.
    destruct o as [r0|]; intros r Hr; simpl in Hr.
    + apply list_elem_of_singleton in Hr. subst r0.
      now apply parseSearchResults_label in P.
    + now apply elem_of_nil in Hr.
  - unfold Eff.succeed in H. injection H as <- _. intros r Hr. now apply elem_of_nil in Hr.
Qed.

Lemma searchUrls_label urls query w rs w' :
  Eff.run (searchUrls http parser urls query) w = (Success rs, w') ->
  forall r, r ∈ rs -> sr_url r ∈ urls /\ sr_source r = sourceOf (sr_url r).
Proof.
  unfold Eff.run, searchUrls.
  pose proof (all_mapCalls_inv
    (fun url rs => forall r, r ∈ rs -> sr_url r = url /\ sr_source r = sourceOf url)
    (searchPage http parser query) urls w) as Inv.
  destruct (Eff.mapCalls _ urls w) as [effects w0]. cbn [fst] in Inv.
  intros H. apply map_inv in H as (found & H & ->).
  apply map_inv in H as (lists & H & ->).
  specialize (Inv w0 lists w' (searchPage_label query) H).
  intros r Hr. apply rank_elem in Hr.
  apply list_elem_of_In, in_concat in Hr as (l & Hl & Hr).
  apply list_elem_of_In in Hl, Hr.
  apply list_elem_of_lookup in Hl as [i Hi].
  destruct (Forall2_lookup_r _ _ _ i l Inv Hi) as (url & Hu & P).
  destruct (P r Hr) as [-> S]. split; [|exact S].
  apply list_elem_of_lookup. eauto.
Qed.

Lemma labelled_elem label base paths r :
  Forall (fun path => sourceOf (base +:+ path) = label) paths ->
  sr_url r ∈ List.map (fun path => base +:+ path) paths ->
  sr_source r = sourceOf (sr_url r) ->
  (sr_url r, sr_source r) ∈ labelled label base paths.
Proof.
  intros F Hu Hs. unfold labelled.
  apply list_elem_of_In, in_map_iff in Hu as (path & E & Hp).
  apply list_elem_of_In, in_map_iff. exists path. split; [|exact Hp].
  rewrite Forall_forall in F. rewrite Hs, <- E. f_equal.
  symmetry. apply F. now apply list_elem_of_In.
Qed.

Lemma developer_labels :
  Forall (fun path => sourceOf (developerBase +:+ path) = "developer.holochain.org")
    commonDeveloperPages.
Proof. repeat constructor. Qed.

Lemma hdk_labels :
  Forall (fun path => sourceOf (hdkBase +:+ path) = "docs.rs/hdk") commonHDKPaths.
Proof. repeat constructor. Qed.

Lemma hdi_labels :
  Forall (fun path => sourceOf (hdiBase +:+ path) = "docs.rs/hdi") commonHDIPaths.
Proof. repeat constructor. Qed.

(** X24. Every result of a search is one of the pages that the search of
    its source reads, with the label of that source: a search of the
    developer site gives only developer pages, a search of the HDK only
    HDK pages, a search of the HDI only HDI pages; no result has a URL
    that is not in the fixed lists of the service. *)
Theorem results_come_from_known_pages query source w :
  exists rs w',
    search_holochain_docs http parser query source w = (Success rs, w')
    /\ forall r, r ∈ rs -> (sr_url r, sr_source r) ∈ pagesOf source.
Proof.
  unfold search_holochain_docs, Eff.catchAll.
  destruct (searchProgram_always env parser query source w) as (rs & w' & R).
  change (searchProgram http parser query source w = (Success rs, w')) in R.
  rewrite R. exists rs, w'. split; [reflexivity|].
  unfold searchProgram in R.
  apply flatMap_inv in R as (acc2 & w2 & R & R3).
  apply flatMap_inv in R as (acc1 & w1 & R1 & R2).
  apply andThen_inv in R1, R2, R3.
  assert (forall found w0 w0',
            Eff.run (searchDeveloperDocs http parser query) w0 = (Success found, w0') ->
            forall r, r ∈ found -> (sr_url r, sr_source r) ∈ developerPages) as Dev.
  { intros found w0 w0' H r Hr.
    destruct (searchUrls_label _ _ _ _ _ H r Hr) as [Hu Hs].
    now apply labelled_elem; [apply developer_labels| |]. }
  assert (forall found w0 w0',
            Eff.run (searchRustDocs http parser query hdk) w0 = (Success found, w0') ->
            forall r, r ∈ found -> (sr_url r, sr_source r) ∈ hdkPages) as Hdk.
  { intros found w0 w0' H r Hr.
    destruct (searchUrls_label _ _ _ _ _ H r Hr) as [Hu Hs].
    now apply labelled_elem; [apply hdk_labels| |]. }
  assert (forall found w0 w0',
            Eff.run (searchRustDocs http parser query hdi) w0 = (Success found, w0') ->
            forall r, r ∈ found -> (sr_url r, sr_source r) ∈ hdiPages) as Hdi.
  { intros found w0 w0' H r Hr.
    destruct (searchUrls_label _ _ _ _ _ H r Hr) as [Hu Hs].
    now apply labelled_elem; [apply hdi_labels| |]. }
  destruct source as [[| | |]|]; cbn [wants] in R1, R2, R3;
    repeat match goal with
           | H : exists _, _ |- _ =>
               let found := fresh "found" in
               let Run := fresh "Run" in
               destruct H as (found & Run & ?)
           | H : _ /\ _ |- _ => destruct H
           end; subst; intros r Hr; unfold pagesOf;
    rewrite ?elem_of_app in Hr; rewrite ?elem_of_app; rewrite ?elem_of_nil in Hr;
    intuition eauto.
Qed.

End Live.

End ResultProps.
